(** * Primitive operations of the tracing front end (thunder/core/prims.py)

    A shallow embedding of the primitive layer: the Symbol record, the
    recording wrapper built by [make_prim], the type-promotion policy and the
    meta functions of the elementwise, shape, matmul and embedding
    primitives, followed by the properties proved about them.

    Python values are embedded as the inductive [pyobj]; a primitive call is
    a function from the positional and keyword arguments to a computation
    over the tracing context, which may raise and may mutate the active
    trace. *)

From Stdlib Require Import ZArith List String Ascii Bool Arith Lia.
From Stdlib Require Import Permutation.
Import ListNotations.
Local Open Scope string_scope.
Local Open Scope list_scope.
Local Open Scope Z_scope.

Set Implicit Arguments.
Set Warnings "-register-all".

(* ===================================================================== *)
(** ** Element types *)
(* ===================================================================== *)

(** Modelled from the spec: the number types of thunder/core/dtypes.py.  A
    number proxy carries one of the logical numeric types bool, int, float,
    complex; these are the Python classes [bool], [int], [float], [complex]. *)
Inductive numbertype : Type :=
| py_bool | py_int | py_float | py_complex.

(** Modelled from the spec: the element type tags of tensors
    (thunder/core/dtypes.py is not part of the sources). *)
Inductive tensor_dtype : Type :=
| bool8 | uint8 | int8 | int16 | int32 | int64
| bfloat16 | float16 | float32 | float64
| complex32 | complex64 | complex128.

(** What the source calls a "type" or "dtype": a Python number class or a
    tensor element type.  [_prim_type_promotion] returns the class [bool]
    itself under ALWAYS_BOOL, so both kinds flow into proxies. *)
Inductive eltype : Type :=
| NumberType (t : numbertype)
| TensorDtype (d : tensor_dtype).

Definition numbertype_eqb (a b : numbertype) : bool :=
  match a, b with
  | py_bool, py_bool | py_int, py_int
  | py_float, py_float | py_complex, py_complex => true
  | _, _ => false
  end.

Definition tensor_dtype_index (d : tensor_dtype) : nat :=
  match d with
  | bool8 => 0 | uint8 => 1 | int8 => 2 | int16 => 3 | int32 => 4
  | int64 => 5 | bfloat16 => 6 | float16 => 7 | float32 => 8
  | float64 => 9 | complex32 => 10 | complex64 => 11 | complex128 => 12
  end%nat.

Definition tensor_dtype_eqb (a b : tensor_dtype) : bool :=
  Nat.eqb (tensor_dtype_index a) (tensor_dtype_index b).

Definition eltype_eqb (a b : eltype) : bool :=
  match a, b with
  | NumberType x, NumberType y => numbertype_eqb x y
  | TensorDtype x, TensorDtype y => tensor_dtype_eqb x y
  | _, _ => false
  end.

(** Modelled from the spec: the dtype predicates of utils.py ("is this dtype
    exact/boolean/complex, corresponding real dtype"), consumed as pure
    functions. *)
Definition is_boolean_dtype (t : eltype) : bool :=
  match t with
  | NumberType py_bool | TensorDtype bool8 => true
  | _ => false
  end.

Definition is_complex_dtype (t : eltype) : bool :=
  match t with
  | NumberType py_complex => true
  | TensorDtype complex32 | TensorDtype complex64
  | TensorDtype complex128 => true
  | _ => false
  end.

Definition corresponding_real_dtype (t : eltype) : eltype :=
  match t with
  | NumberType py_complex => NumberType py_float
  | TensorDtype complex32 => TensorDtype float16
  | TensorDtype complex64 => TensorDtype float32
  | TensorDtype complex128 => TensorDtype float64
  | other => other
  end.

(** Modelled from the spec: the Python number class a tensor element type
    corresponds to, used by the "same dtype" resolver. *)
Definition dtype_to_numbertype (d : tensor_dtype) : numbertype :=
  match d with
  | bool8 => py_bool
  | uint8 | int8 | int16 | int32 | int64 => py_int
  | bfloat16 | float16 | float32 | float64 => py_float
  | complex32 | complex64 | complex128 => py_complex
  end.

Definition eltype_to_numbertype (t : eltype) : numbertype :=
  match t with
  | NumberType n => n
  | TensorDtype d => dtype_to_numbertype d
  end.

(* ===================================================================== *)
(** ** Python numbers *)
(* ===================================================================== *)

(** A Python float is kept as an opaque token (its bit pattern); nothing in
    this file computes with it.  Every operation that does so is a field of
    [Numerics] below. *)
Inductive pyfloat : Type := PyFloat (bits : Z).
Inductive pycomplex : Type := PyComplex (re im : pyfloat).

Inductive pyvalue : Type :=
| VBool (b : bool)
| VInt (z : Z)
| VFloat (x : pyfloat)
| VComplex (c : pycomplex).

Definition type_of_value (v : pyvalue) : numbertype :=
  match v with
  | VBool _ => py_bool
  | VInt _ => py_int
  | VFloat _ => py_float
  | VComplex _ => py_complex
  end.

(** The floating-point side of Python that the meta functions call into:
    conversions between int and float, truth of inexact values, and the
    number handlers ([math.acos], [operator.add], [_rsqrt_number], ...),
    addressed by their name in the source.  A handler answers [None] when
    the Python function raises. *)
Record Numerics : Type := {
  float_of_int : Z -> option pyfloat;
  int_of_float : pyfloat -> option Z;
  float_truth : pyfloat -> bool;
  complex_truth : pycomplex -> bool;
  number_handler_apply : string -> list pyvalue -> option pyvalue
}.

Definition Z_of_bool (b : bool) : Z := if b then 1 else 0.

(** [T(v)] for a Python number class [T]: the value is converted and the
    result is an instance of [T]; [None] when the conversion raises. *)
Definition cast_number (num : Numerics) (t : numbertype) (v : pyvalue)
  : option pyvalue :=
  match t with
  | py_bool =>
      Some (VBool match v with
                  | VBool b => b
                  | VInt z => negb (z =? 0)
                  | VFloat x => float_truth num x
                  | VComplex c => complex_truth num c
                  end)
  | py_int =>
      match v with
      | VBool b => Some (VInt (Z_of_bool b))
      | VInt z => Some (VInt z)
      | VFloat x => option_map VInt (int_of_float num x)
      | VComplex _ => None
      end
  | py_float =>
      match v with
      | VBool b => option_map VFloat (float_of_int num (Z_of_bool b))
      | VInt z => option_map VFloat (float_of_int num z)
      | VFloat x => Some (VFloat x)
      | VComplex _ => None
      end
  | py_complex =>
      match v with
      | VBool b =>
          option_map (fun x => VComplex (PyComplex x (PyFloat 0)))
                     (float_of_int num (Z_of_bool b))
      | VInt z =>
          option_map (fun x => VComplex (PyComplex x (PyFloat 0)))
                     (float_of_int num z)
      | VFloat x => Some (VComplex (PyComplex x (PyFloat 0)))
      | VComplex c => Some (VComplex c)
      end
  end.

(* ===================================================================== *)
(** ** Proxies and Python objects *)
(* ===================================================================== *)

(** Modelled from the spec: a proxy name is minted by the trace's naming
    service from its name counter. *)
Inductive proxy_name : Type := ProxyName (n : nat).

(** Modelled from the spec: a tensor proxy carries shape, device and dtype
    and never real data (proxies.py is not part of the sources). *)
Record TensorProxy : Type := {
  tp_name : proxy_name;
  tp_shape : list Z;
  tp_device : string;
  tp_dtype : eltype
}.

(** Modelled from the spec: a number proxy carries a name and a concrete
    placeholder value; its logical numeric type is the type of the value. *)
Record NumberProxy : Type := {
  np_name : proxy_name;
  np_value : pyvalue
}.

(** The Python objects that reach a primitive as arguments or leave it as
    results. *)
Inductive pyobj : Type :=
| PNone
| PNumber (v : pyvalue)
| PNumberProxy (n : NumberProxy)
| PTensorProxy (t : TensorProxy)
| PStr (s : string)
| PTuple (xs : list pyobj)
| PList (xs : list pyobj).

Definition kwargs_t : Type := list (string * pyobj).

(** [isinstance(x, Sequence)]: tuples, lists and strings. *)
Definition is_Sequence (x : pyobj) : bool :=
  match x with
  | PTuple _ | PList _ | PStr _ => true
  | _ => false
  end.

(** [isinstance(x, Number)]: Python numbers and number proxies. *)
Definition is_Number (x : pyobj) : bool :=
  match x with
  | PNumber _ | PNumberProxy _ => true
  | _ => false
  end.

Definition is_TensorProxy (x : pyobj) : bool :=
  match x with
  | PTensorProxy _ => true
  | _ => false
  end.

(** The elements of a sequence, as [tuple(x)] enumerates them; a string
    yields its one-character strings. *)
Definition sequence_items (x : pyobj) : list pyobj :=
  match x with
  | PTuple xs | PList xs => xs
  | PStr s => map (fun c => PStr (String c EmptyString)) (list_ascii_of_string s)
  | _ => []
  end.

(** Modelled from the spec: [get_numberlike_value] of utils.py, the value
    under a number or a number proxy. *)
Definition get_numberlike_value (x : pyobj) : option pyvalue :=
  match x with
  | PNumber v => Some v
  | PNumberProxy n => Some (np_value n)
  | _ => None
  end.

(** Modelled from the spec: [utils.to_dtype(x, true_dtype=True)], the
    element type of a tensor or the class of a number; any other kind of
    input has none. *)
Definition to_dtype (x : pyobj) : option eltype :=
  match x with
  | PTensorProxy t => Some (tp_dtype t)
  | PNumber v => Some (NumberType (type_of_value v))
  | PNumberProxy n => Some (NumberType (type_of_value (np_value n)))
  | _ => None
  end.

(** Modelled from the spec: [ndim] and [numel()] of a tensor proxy, derived
    from its shape. *)
Definition ndim (t : TensorProxy) : Z := Z.of_nat (List.length (tp_shape t)).

Definition product (shape : list Z) : Z := fold_left Z.mul shape 1.

Definition numel (t : TensorProxy) : Z := product (tp_shape t).

(** Modelled from the spec: the two uses of the [TensorProxy] constructor.
    [TensorProxy(name=, tensor=a, shape=, dtype=)] copies the metadata of
    [a] and overrides what is given; [TensorProxy(name=, shape=, device=,
    dtype=)] builds a proxy from scratch. *)
Definition TensorProxy_like (name : proxy_name) (tensor : TensorProxy)
           (shape : option (list Z)) (dtype : option eltype) : TensorProxy :=
  {| tp_name := name;
     tp_shape := match shape with Some s => s | None => tp_shape tensor end;
     tp_device := tp_device tensor;
     tp_dtype := match dtype with Some d => d | None => tp_dtype tensor end |}.

Definition TensorProxy_new (name : proxy_name) (shape : list Z)
           (device : string) (dtype : eltype) : TensorProxy :=
  {| tp_name := name; tp_shape := shape; tp_device := device;
     tp_dtype := dtype |}.

(** Modelled from the spec: [proxy(value, name=)] wraps a number into a
    number proxy. *)
Definition proxy (value : pyvalue) (name : proxy_name) : pyobj :=
  PNumberProxy {| np_name := name; np_value := value |}.

(* ===================================================================== *)
(** ** Operators and Symbols *)
(* ===================================================================== *)

Inductive Ops : Type :=
(* Data movement and transformation prims *)
| CONVERT_ELEMENT_TYPE
(* Tensor creation prims *)
| FULL | IOTA | UNIFORM
(* Shape prims *)
| BROADCAST_IN_DIM | RESHAPE | SLICE | SQUEEZE | TRANSPOSE | VIEW
(* Elementwise unary prims *)
| ABS | ACOS | ACOSH | ASIN | ATAN | ATANH | BITWISE_NOT | CEIL | COS | COSH
| ERF | ERFC | EXP | EXPM1 | FLOOR | ISFINITE | RSQRT | SIN | TANH
| LOG | LOG10 | LOG1P | LOG2
(* Elementwise binary prims *)
| ADD | ATAN2 | BITWISE_AND | DIV | EQ | LT | MUL | POW | SUB
(* Elementwise ternary prims *)
| WHERE
(* Reduction prims *)
| AMAX | SUM | VAR
(* Matmul prims *)
| LINEAR | MATMUL
(* NN prims *)
| EMBEDDING.

(** A Symbol is a frozen dataclass.  It is compared and hashed by identity,
    so the record carries the identity of the object, [id(self)], next to
    its five attributes. *)
Record Symbol : Type := {
  sym_id : nat;
  sym_op : Ops;
  sym_name : string;
  sym_outputs : list pyobj;
  sym_args : list pyobj;
  sym_kwargs : kwargs_t
}.

(** [Symbol.__hash__]: [return id(self)]. *)
Definition Symbol_hash (self : Symbol) : nat := sym_id self.

(** [Symbol.__eq__]: [return self is other]. *)
Definition Symbol_eq (self other : Symbol) : bool :=
  Nat.eqb (sym_id self) (sym_id other).

(** What a value-based comparison of two Symbols would look at. *)
Definition same_contents (s1 s2 : Symbol) : Prop :=
  sym_op s1 = sym_op s2 /\ sym_name s1 = sym_name s2 /\
  sym_args s1 = sym_args s2 /\ sym_kwargs s1 = sym_kwargs s2.

(* ===================================================================== *)
(** ** The tracing context *)
(* ===================================================================== *)

(** Modelled from the spec: the trace container of trace.py holds the
    ordered sequence of recorded Symbols and a monotonic name counter. *)
Record Trace : Type := {
  symbols : list Symbol;
  name_ctr : nat
}.

(** The state a primitive call runs in: the trace that is active in the
    current context, if any, and the allocator of object identities. *)
Record World : Type := {
  active_trace : option Trace;
  next_object_id : nat
}.

(** The error taxonomy of the layer.  All of them are Python exceptions
    raised during the call; the tag records which rejection it was. *)
Inductive error : Type :=
| type_error
| shape_error
| bounds_error
| unsupported_feature_error
| context_error
| registry_consistency_error
(* not named by the taxonomy: tensors on different devices, and an exception
   of Python itself while a number handler, a cast or a quotient is
   evaluated *)
| device_error
| scalar_evaluation_error.

Inductive result (A : Type) : Type :=
| Ok (a : A)
| Err (e : error).

Arguments Ok {A} a.
Arguments Err {A} e.

(** Computations over the world.  The world is returned on failure too: a
    Python exception does not undo what was mutated before it was raised. *)
Definition M (A : Type) : Type := World -> result A * World.

Definition ret {A} (a : A) : M A := fun w => (Ok a, w).

Definition raise {A} (e : error) : M A := fun w => (Err e, w).

Definition bind {A B} (m : M A) (k : A -> M B) : M B :=
  fun w =>
    match m w with
    | (Ok a, w') => k a w'
    | (Err e, w') => (Err e, w')
    end.

(** Modelled from the spec: [get_trace()] returns the active trace of the
    current context and fails if none is active. *)
Definition get_trace : M Trace :=
  fun w =>
    match active_trace w with
    | Some tr => (Ok tr, w)
    | None => (Err context_error, w)
    end.

Definition set_trace (tr : Trace) : M unit :=
  fun w => (Ok tt, {| active_trace := Some tr;
                      next_object_id := next_object_id w |}).

(** Modelled from the spec: [Trace.make_proxy_name()] returns a fresh name
    and advances the name counter. *)
Definition Trace_make_proxy_name : M proxy_name :=
  bind get_trace (fun tr =>
  bind (set_trace {| symbols := symbols tr; name_ctr := S (name_ctr tr) |})
       (fun _ => ret (ProxyName (name_ctr tr)))).

(** Modelled from the spec: [Trace.add_symbol(symbol)] appends the Symbol to
    the program of the trace. *)
Definition Trace_add_symbol (sym : Symbol) : M unit :=
  bind get_trace (fun tr =>
  set_trace {| symbols := symbols tr ++ [sym]; name_ctr := name_ctr tr |}).

(** Constructing a Symbol allocates a new object. *)
Definition Symbol_new (op : Ops) (name : string) (outputs args : list pyobj)
           (kwargs : kwargs_t) : M Symbol :=
  fun w =>
    (Ok {| sym_id := next_object_id w; sym_op := op; sym_name := name;
           sym_outputs := outputs; sym_args := args; sym_kwargs := kwargs |},
     {| active_trace := active_trace w;
        next_object_id := S (next_object_id w) |}).

(** *** Meta functions

    A meta function validates its arguments and computes the result proxy.
    The only thing the meta functions of prims.py do with the context is
    [get_trace().make_proxy_name()]; they are written as trees over that one
    effect and over failure. *)
Inductive Meta (A : Type) : Type :=
| Ret (a : A)
| Raise (e : error)
| MakeProxyName (k : proxy_name -> Meta A).

Arguments Ret {A} a.
Arguments Raise {A} e.
Arguments MakeProxyName {A} k.

Fixpoint meta_bind {A B} (m : Meta A) (k : A -> Meta B) : Meta B :=
  match m with
  | Ret a => k a
  | Raise e => Raise e
  | MakeProxyName f => MakeProxyName (fun n => meta_bind (f n) k)
  end.

Declare Scope meta_scope.
Delimit Scope meta_scope with meta.
Notation "x <- m ;; k" := (meta_bind m (fun x => k))
  (at level 61, m at next level, right associativity) : meta_scope.
Notation "m ;; k" := (meta_bind m (fun _ => k))
  (at level 61, right associativity) : meta_scope.
Local Open Scope meta_scope.

(** Modelled from the spec: [utils.check(cond, msg)] raises when [cond] is
    false.  The tag says which kind of rejection the message describes. *)
Definition check (cond : bool) (e : error) : Meta unit :=
  if cond then Ret tt else Raise e.

Definition get_trace_make_proxy_name : Meta proxy_name :=
  MakeProxyName (fun n => Ret n).

(** Running a meta function in the world. *)
Fixpoint run {A} (m : Meta A) : M A :=
  match m with
  | Ret a => ret a
  | Raise e => raise e
  | MakeProxyName k => bind Trace_make_proxy_name (fun n => run (k n))
  end.

(* ===================================================================== *)
(** ** Symbol construction and the recording wrapper *)
(* ===================================================================== *)

Definition make_symbol (id : Ops) (name : string) (outputs : pyobj)
           (args : list pyobj) (kwargs : kwargs_t) : M Symbol :=
  (* Normalize the outputs and args to tuples *)
  let symbol_outputs :=
    if is_Sequence outputs then sequence_items outputs else [outputs] in
  let symbol_args :=
    map (fun a => if is_Sequence a then PTuple (sequence_items a) else a)
        args in
  Symbol_new id name symbol_outputs symbol_args kwargs.

Definition meta_fn : Type := list pyobj -> kwargs_t -> Meta pyobj.

Definition prim_fn : Type := list pyobj -> kwargs_t -> M pyobj.

(** The closure [_fn] returned by [eval_meta_and_record_symbol_fn]. *)
Definition eval_meta_and_record_symbol_fn (meta : meta_fn) (id : Ops)
           (name : string) : prim_fn :=
  fun args kwargs =>
    bind (run (meta args kwargs)) (fun result =>
    bind (make_symbol id name result args kwargs) (fun sym =>
    bind (Trace_add_symbol sym) (fun _ =>
    ret result))).

(** [make_prim] also stores [meta] and [name] under [id] in the two registry
    maps, which no call consults; the value it returns is the wrapper. *)
Definition make_prim (id : Ops) (name : string) (meta : meta_fn) : prim_fn :=
  eval_meta_and_record_symbol_fn meta id name.

(* ===================================================================== *)
(** ** Calling a Python function *)
(* ===================================================================== *)

(** A parameter that may be given by position or by keyword: its name and
    its default value, if it has one. *)
Definition param : Type := (string * option pyobj)%type.

Fixpoint lookup (key : string) (kwargs : kwargs_t) : option pyobj :=
  match kwargs with
  | [] => None
  | (k, v) :: rest => if String.eqb key k then Some v else lookup key rest
  end.

(** Positional arguments fill the parameters from the left; what is left of
    the parameter list is returned.  Too many arguments is a TypeError. *)
Fixpoint bind_positional (params : list param) (args : list pyobj)
  : option (list pyobj * list param) :=
  match args, params with
  | [], _ => Some ([], params)
  | _ :: _, [] => None
  | a :: args', _ :: params' =>
      match bind_positional params' args' with
      | Some (bound, rest) => Some (a :: bound, rest)
      | None => None
      end
  end.

(** The remaining parameters take their value from the keywords, then from
    their default; a parameter with neither is a TypeError. *)
Fixpoint bind_keywords (params : list param) (kwargs : kwargs_t)
  : option (list pyobj) :=
  match params with
  | [] => Some []
  | (name, default) :: params' =>
      match (match lookup name kwargs with
             | Some v => Some v
             | None => default
             end), bind_keywords params' kwargs with
      | Some v, Some vs => Some (v :: vs)
      | _, _ => None
      end
  end.

(** The values of the parameters of [def f(p1, ..., pn)] in a call with the
    given positional and keyword arguments, in the order of the signature.
    A keyword that names no remaining parameter is a TypeError. *)
Definition bind_params (params : list param) (args : list pyobj)
           (kwargs : kwargs_t) : option (list pyobj) :=
  match bind_positional params args with
  | None => None
  | Some (bound, rest) =>
      if forallb (fun kv => existsb (String.eqb (fst kv)) (map fst rest))
                 kwargs
      then option_map (app bound) (bind_keywords rest kwargs)
      else None
  end.

(** The operands of [def f(p1, ..., pn, *, ..., **kwargs)], whose names
    are [names]: positional arguments fill them from the left and the
    remaining ones are taken from the keywords.  Too many positional
    arguments, an operand given both ways and an operand not given at all
    are TypeErrors.  The other keywords are not looked at here. *)
Definition bind_operands (names : list string) (args : list pyobj)
           (kwargs : kwargs_t) : option (list pyobj) :=
  match bind_positional (map (fun name => (name, None)) names) args with
  | None => None
  | Some (bound, rest) =>
      if existsb (fun name => match lookup name kwargs with
                              | Some _ => true
                              | None => false
                              end)
                 (firstn (List.length bound) names)
      then None
      else option_map (app bound) (bind_keywords rest kwargs)
  end.

(** A Python int ([bool] is a subclass of [int]). *)
Definition as_int (x : pyobj) : option Z :=
  match get_numberlike_value x with
  | Some (VInt z) => Some z
  | Some (VBool b) => Some (Z_of_bool b)
  | _ => None
  end.

Fixpoint as_ints (xs : list pyobj) : option (list Z) :=
  match xs with
  | [] => Some []
  | x :: rest =>
      match as_int x, as_ints rest with
      | Some z, Some zs => Some (z :: zs)
      | _, _ => None
      end
  end.

(** A tuple or list of ints, as shapes, index sequences and permutations
    are passed. *)
Definition as_int_seq (x : pyobj) : option (list Z) :=
  match x with
  | PTuple xs | PList xs => as_ints xs
  | _ => None
  end.

(** The tuple of ints that denotes [zs]. *)
Definition py_ints (zs : list Z) : pyobj :=
  PTuple (map (fun z => PNumber (VInt z)) zs).

(* ===================================================================== *)
(** ** Elementwise prims *)
(* ===================================================================== *)

Inductive ELEMENTWISE_PRIM_TYPE_PROMOTION_KIND : Type :=
| DEFAULT
| ALWAYS_BOOL
| COMPLEX_TO_FLOAT.

(** [_prim_type_promotion] on a member of the enumeration; the final
    [raise AssertionError] of the source is not reachable from one (see
    [prim_type_promotion] below for any other object). *)
Definition _prim_type_promotion (typ : eltype)
           (type_promotion_kind : ELEMENTWISE_PRIM_TYPE_PROMOTION_KIND)
  : eltype :=
  match type_promotion_kind with
  | DEFAULT => typ
  | ALWAYS_BOOL => NumberType py_bool
  | COMPLEX_TO_FLOAT =>
      if is_complex_dtype typ then corresponding_real_dtype typ else typ
  end.

(** The keywords that [partial] binds when an elementwise primitive is
    registered.  A handler is named as in the source. *)
Record elementwise_config : Type := {
  cfg_name : string;
  cfg_type_promotion_kind : ELEMENTWISE_PRIM_TYPE_PROMOTION_KIND;
  cfg_number_handler : option string
}.

(** The object bound to [type_promotion_kind] when a meta function runs:
    the member of the enumeration that [partial] bound at registration, or
    the object a call passes under that keyword, which replaces it.  No
    object of a call is a member of the enumeration. *)
Inductive promotion_kind_value : Type :=
| KindMember (kind : ELEMENTWISE_PRIM_TYPE_PROMOTION_KIND)
| KindObject (v : pyobj).

(** The object bound to [number_handler]: a function of the source (by its
    name), None, or an object of a call that is not None; no object of a
    call can be called. *)
Inductive number_handler_value : Type :=
| HandlerFunction (handler : string)
| HandlerNone
| HandlerObject (v : pyobj).

(** The keyword-only parameters of the elementwise meta functions that
    decide what they do.  [name] only appears in error messages, and
    [supported_dtypes] is not used by the source. *)
Record elementwise_keywords : Type := {
  kw_type_promotion_kind : promotion_kind_value;
  kw_number_handler : number_handler_value
}.

(** [partial(meta, name=..., type_promotion_kind=..., number_handler=...)]
    called with the keywords [kwargs]: a keyword of the call replaces the
    one bound at registration. *)
Definition partial_keywords (cfg : elementwise_config) (kwargs : kwargs_t)
  : elementwise_keywords :=
  {| kw_type_promotion_kind :=
       match lookup "type_promotion_kind" kwargs with
       | Some v => KindObject v
       | None => KindMember (cfg_type_promotion_kind cfg)
       end;
     kw_number_handler :=
       match lookup "number_handler" kwargs with
       | Some PNone => HandlerNone
       | Some v => HandlerObject v
       | None =>
           match cfg_number_handler cfg with
           | Some handler => HandlerFunction handler
           | None => HandlerNone
           end
       end |}.

(** [_prim_type_promotion(typ, type_promotion_kind=...)] on the object that
    reaches it: an object that is none of the three members falls through
    the three tests to the final [raise AssertionError]. *)
Definition prim_type_promotion (typ : eltype) (kind : promotion_kind_value)
  : Meta eltype :=
  match kind with
  | KindMember k => Ret (_prim_type_promotion typ k)
  | KindObject _ => Raise registry_consistency_error
  end.

(** [result_dtype(value)]: only a Python number class can be called. *)
Definition call_type (num : Numerics) (t : eltype) (v : pyvalue)
  : option pyvalue :=
  match t with
  | NumberType n => cast_number num n v
  | TensorDtype _ => None
  end.

(** The number handler applied to the values, cast to the result type and
    wrapped by [proxy]. *)
Definition number_result (num : Numerics) (handler : string)
           (values : list pyvalue) (result_type : eltype)
           (proxy_name : proxy_name) : Meta pyobj :=
  match number_handler_apply num handler values with
  | None => Raise scalar_evaluation_error
  | Some value =>
      match call_type num result_type value with
      | None => Raise scalar_evaluation_error
      | Some result => Ret (proxy result proxy_name)
      end
  end.

Definition _elementwise_unary_meta (num : Numerics)
           (kws : elementwise_keywords) (a : pyobj) : Meta pyobj :=
  match to_dtype a with
  | None => Raise type_error
  | Some input_dtype =>
      result_dtype <- prim_type_promotion input_dtype
                                          (kw_type_promotion_kind kws) ;;
      proxy_name <- get_trace_make_proxy_name ;;
      match a with
      | PTensorProxy t =>
          (* Tensor case *)
          Ret (PTensorProxy
                 (TensorProxy_like proxy_name t None (Some result_dtype)))
      | _ =>
          (* Number case *)
          check (is_Number a) type_error ;;
          match kw_number_handler kws, get_numberlike_value a with
          | HandlerNone, _ => Raise unsupported_feature_error
          | _, None => Raise type_error
          | HandlerFunction handler, Some va =>
              number_result num handler [va] result_dtype proxy_name
          | HandlerObject _, Some _ =>
              (* the object is not callable *)
              Raise type_error
          end
      end
  end.

(** Modelled from the spec: [utils.check_same_dtype(a, b)], the "same dtype"
    resolver.  All numbers must have one number type, all tensors one dtype,
    and a number type next to a tensor dtype must be the number type that
    dtype corresponds to; mixed types are rejected, not promoted.  It returns
    the pair (number type or None, tensor dtype or None). *)
Definition check_same_dtype (a b : pyobj)
  : option (option numbertype * option eltype) :=
  match a, b with
  | PTensorProxy ta, PTensorProxy tb =>
      if eltype_eqb (tp_dtype ta) (tp_dtype tb)
      then Some (None, Some (tp_dtype ta)) else None
  | PTensorProxy t, other | other, PTensorProxy t =>
      match get_numberlike_value other with
      | Some v =>
          if numbertype_eqb (type_of_value v)
                            (eltype_to_numbertype (tp_dtype t))
          then Some (Some (type_of_value v), Some (tp_dtype t)) else None
      | None => None
      end
  | _, _ =>
      match get_numberlike_value a, get_numberlike_value b with
      | Some va, Some vb =>
          if numbertype_eqb (type_of_value va) (type_of_value vb)
          then Some (Some (type_of_value va), None) else None
      | _, _ => None
      end
  end.

Fixpoint same_shape (a b : list Z) : bool :=
  match a, b with
  | [], [] => true
  | x :: a', y :: b' => (x =? y) && same_shape a' b'
  | _, _ => false
  end.

Definition _elementwise_binary_meta (num : Numerics)
           (kws : elementwise_keywords) (a b : pyobj) : Meta pyobj :=
  (* Tensors or Number inputs only *)
  if negb (is_TensorProxy a || is_Number a) then Raise type_error else
  if negb (is_TensorProxy b || is_Number b) then Raise type_error else
  (* Inputs must have the same dtype *)
  match check_same_dtype a b with
  | None => Raise type_error
  | Some (numbertype, dtype) =>
      match (match dtype with
             | Some d => Some d
             | None => option_map NumberType numbertype
             end) with
      | None => Raise type_error
      | Some input_type =>
          result_type <- prim_type_promotion input_type
                                             (kw_type_promotion_kind kws) ;;
          proxy_name <- get_trace_make_proxy_name ;;
          match a, b with
          | PTensorProxy ta, PTensorProxy tb =>
              (* tensor x tensor case *)
              check (same_shape (tp_shape ta) (tp_shape tb)) shape_error ;;
              Ret (PTensorProxy
                     (TensorProxy_like proxy_name ta None (Some result_type)))
          | PTensorProxy tensor, _ | _, PTensorProxy tensor =>
              (* tensor x scalar case *)
              Ret (PTensorProxy
                     (TensorProxy_like proxy_name tensor None
                                       (Some result_type)))
          | _, _ =>
              (* scalar x scalar case *)
              match kw_number_handler kws,
                    get_numberlike_value a, get_numberlike_value b with
              | HandlerNone, _, _ => Raise unsupported_feature_error
              | HandlerFunction handler, Some va, Some vb =>
                  number_result num handler [va; vb] result_type proxy_name
              | HandlerObject _, Some _, Some _ =>
                  (* the object is not callable *)
                  Raise type_error
              | _, _, _ => Raise type_error
              end
          end
      end
  end.

(** [partial(_elementwise_unary_meta, name=..., type_promotion_kind=...,
    number_handler=...)] as a meta function.  The operand [a] is given by
    position or by keyword; the keywords of the call replace those of the
    registration, and what is left of them is swallowed by [**kwargs]. *)
Definition elementwise_unary_prim_meta (num : Numerics)
           (cfg : elementwise_config) : meta_fn :=
  fun args kwargs =>
    match bind_operands ["a"] args kwargs with
    | Some [a] => _elementwise_unary_meta num (partial_keywords cfg kwargs) a
    | _ => Raise type_error
    end.

Definition elementwise_binary_prim_meta (num : Numerics)
           (cfg : elementwise_config) : meta_fn :=
  fun args kwargs =>
    match bind_operands ["a"; "b"] args kwargs with
    | Some [a; b] =>
        _elementwise_binary_meta num (partial_keywords cfg kwargs) a b
    | _ => Raise type_error
    end.

(* ===================================================================== *)
(** ** Shape prims *)
(* ===================================================================== *)

(** Modelled from the spec: [utils.check_valid_shape(shape)] accepts a
    sequence of non-negative integers. *)
Definition check_valid_shape (shape : list Z) : Meta unit :=
  check (forallb (fun l => 0 <=? l) shape) shape_error.

Definition reshape_meta (a : pyobj) (shape : list Z) : Meta pyobj :=
  (* Validates inputs *)
  match a with
  | PTensorProxy ta =>
      check_valid_shape shape ;;
      let numel_ := fold_left Z.mul shape 1 in
      check (numel_ =? numel ta) shape_error ;;
      proxy_name <- get_trace_make_proxy_name ;;
      Ret (PTensorProxy (TensorProxy_like proxy_name ta (Some shape) None))
  | _ => Raise type_error
  end.

(** [n / d] on two Python ints is a float: the quotient rounded to the
    nearest number with a significand of 53 bits, ties to even.  The
    quotient is scaled by [2 ^ s] so that its integer part has exactly 53
    bits; [true_divide_scaled] gives numerator and denominator of the scaled
    quotient, [true_divide_shift] the scale. *)
Definition true_divide_scaled (n d s : Z) : Z * Z :=
  if 0 <=? s then (n * 2 ^ s, d) else (n, d * 2 ^ (- s)).

Definition true_divide_shift (n d : Z) : Z :=
  let s0 := 52 - (Z.log2 n - Z.log2 d) in
  let '(num, den) := true_divide_scaled n d s0 in
  if num / den <? 2 ^ 52 then s0 + 1 else s0.

(** [math.floor(n / d)] for ints [0 <= n] and [1 <= d], as the loop of
    [slice_meta] calls it.  The float [n / d] is [m * 2 ^ (- s)] for the
    rounded significand [m]; Python raises OverflowError ([None]) when it
    reaches [2 ^ 1024], and [math.floor] of a float is an exact int. *)
Definition floor_true_divide (n d : Z) : option Z :=
  if n =? 0 then Some 0 else
  let s := true_divide_shift n d in
  let '(num, den) := true_divide_scaled n d s in
  let q := num / den in
  let r := num mod den in
  let m := if (den <? 2 * r) || ((den =? 2 * r) && Z.odd q)
           then q + 1 else q in
  if 2 ^ (1024 + s) <=? m then None
  else Some (if 0 <=? s then m / 2 ^ s else m * 2 ^ (- s)).

(** The body of the loop of [slice_meta] over
    [zip(start_indices, end_indices, a.shape, strides)]: the five checks of
    a dimension, then the length [math.floor((stop - start) / stride)],
    which goes through a float. *)
Fixpoint slice_new_shape (dims : list (Z * Z * Z * Z)) : Meta (list Z) :=
  match dims with
  | [] => Ret []
  | (start, stop, shape, stride) :: rest =>
      check (start >=? 0) bounds_error ;;
      check (start <=? shape) bounds_error ;;
      check (start <=? stop) bounds_error ;;
      check (stop <=? shape) bounds_error ;;
      check (stride >=? 1) bounds_error ;;
      match floor_true_divide (stop - start) stride with
      | None => (* OverflowError *) Raise scalar_evaluation_error
      | Some length =>
          new_shape <- slice_new_shape rest ;;
          Ret (length :: new_shape)
      end
  end.

Definition zip4 (a b c d : list Z) : list (Z * Z * Z * Z) :=
  combine (combine (combine a b) c) d.

Definition slice_meta (a : pyobj) (start_indices end_indices : list Z)
           (strides : option (list Z)) : Meta pyobj :=
  match a with
  | PTensorProxy ta =>
      let strides :=
        match strides with
        | None => repeat 1 (List.length (tp_shape ta))
        | Some s => s
        end in
      (* Checks all same length *)
      check ((ndim ta =? Z.of_nat (List.length start_indices))
             && (Nat.eqb (List.length start_indices)
                         (List.length end_indices))
             && (Nat.eqb (List.length end_indices) (List.length strides)))
            bounds_error ;;
      (* Validates start, end, and stride values, and computes the new shape *)
      new_shape <- slice_new_shape
                     (zip4 start_indices end_indices (tp_shape ta) strides) ;;
      proxy_name <- get_trace_make_proxy_name ;;
      Ret (PTensorProxy (TensorProxy_like proxy_name ta (Some new_shape) None))
  | _ => Raise type_error
  end.

(** Modelled from the spec: [utils.check_valid_permutation(rank, perm)]
    accepts a permutation of [0..rank-1], covering each index exactly
    once. *)
Definition is_valid_permutation (rank : nat) (perm : list Z) : bool :=
  Nat.eqb (List.length perm) rank
  && forallb (fun i => Nat.eqb (count_occ Z.eq_dec perm i) 1)
             (map Z.of_nat (seq 0 rank)).

Definition check_valid_permutation (rank : nat) (perm : list Z) : Meta unit :=
  check (is_valid_permutation rank perm) shape_error.

(** [l[i]] on a Python sequence; [None] is an IndexError. *)
Definition getitem (l : list Z) (i : Z) : option Z :=
  let len := Z.of_nat (List.length l) in
  if (0 <=? i) && (i <? len) then nth_error l (Z.to_nat i)
  else if (- len <=? i) && (i <? 0) then nth_error l (Z.to_nat (len + i))
  else None.

(** [l[:-2]] *)
Definition all_but_last_two (l : list Z) : list Z :=
  firstn (List.length l - 2) l.

(** [[shape[dim] for dim in permutation]], which is what the loop of
    [transpose_meta] stores into [new_shape]. *)
Fixpoint permute_shape (shape permutation : list Z) : option (list Z) :=
  match permutation with
  | [] => Some []
  | dim :: rest =>
      match getitem shape dim, permute_shape shape rest with
      | Some l, Some ls => Some (l :: ls)
      | _, _ => None
      end
  end.

Definition transpose_meta (a : pyobj) (permutation : list Z) : Meta pyobj :=
  match a with
  | PTensorProxy ta =>
      check (ndim ta =? Z.of_nat (List.length permutation)) shape_error ;;
      check_valid_permutation (List.length (tp_shape ta)) permutation ;;
      match permute_shape (tp_shape ta) permutation with
      | None => Raise shape_error
      | Some new_shape =>
          proxy_name <- get_trace_make_proxy_name ;;
          Ret (PTensorProxy
                 (TensorProxy_like proxy_name ta (Some new_shape) None))
      end
  | _ => Raise type_error
  end.

(* ===================================================================== *)
(** ** Matmul and NN prims *)
(* ===================================================================== *)

(** [raise NotImplemented] is the statement the source uses to reject what it
    does not support.  [NotImplemented] is a constant, not an exception
    class, so the statement itself fails: Python raises
    [TypeError: exceptions must derive from BaseException], which is the
    error the caller sees. *)
Definition matmul_meta (a b : pyobj) : Meta pyobj :=
  (* Checks types *)
  match a, b with
  | PTensorProxy ta, PTensorProxy tb =>
      if (ndim ta <? 2) || (ndim tb <? 2)
      then (* raise NotImplemented *) Raise type_error
      else
        check (String.eqb (tp_device ta) (tp_device tb)) device_error ;;
        check (eltype_eqb (tp_dtype ta) (tp_dtype tb)) type_error ;;
        check (same_shape (all_but_last_two (tp_shape ta))
                          (all_but_last_two (tp_shape tb))) shape_error ;;
        match getitem (tp_shape ta) (-1), getitem (tp_shape tb) (-2),
              getitem (tp_shape ta) (-2), getitem (tp_shape tb) (-1) with
        | Some a_last, Some b_second_last, Some a_second_last, Some b_last =>
            check (a_last =? b_second_last) shape_error ;;
            let shape :=
              all_but_last_two (tp_shape ta) ++ [a_second_last; b_last] in
            proxy_name <- get_trace_make_proxy_name ;;
            Ret (PTensorProxy
                   (TensorProxy_new proxy_name shape (tp_device ta)
                                    (tp_dtype ta)))
        | _, _, _, _ => Raise shape_error
        end
  | _, _ => Raise type_error
  end.

Definition is_None (x : pyobj) : bool :=
  match x with
  | PNone => true
  | _ => false
  end.

Definition embedding_meta (a weight padding_idx max_norm norm_type
                             scale_grad_by_freq sparse : pyobj)
  : Meta pyobj :=
  if negb (is_None max_norm)
  then (* raise NotImplemented *) Raise type_error else
  match a with
  | PTensorProxy ta =>
      check (eltype_eqb (tp_dtype ta) (TensorDtype int64)) type_error ;;
      match weight with
      | PTensorProxy tw =>
          check (ndim tw =? 2) shape_error ;;
          match getitem (tp_shape tw) 1 with
          | Some width =>
              let shape := tp_shape ta ++ [width] in
              proxy_name <- get_trace_make_proxy_name ;;
              Ret (PTensorProxy
                     (TensorProxy_new proxy_name shape (tp_device tw)
                                      (tp_dtype tw)))
          | None => Raise shape_error
          end
      | _ => Raise type_error
      end
  | _ => Raise type_error
  end.

(* ===================================================================== *)
(** ** The meta functions as they are registered *)
(* ===================================================================== *)

Definition reshape_params : list param := [("a", None); ("shape", None)].

Definition reshape_meta_fn : meta_fn :=
  fun args kwargs =>
    match bind_params reshape_params args kwargs with
    | Some [a; shape] =>
        match as_int_seq shape with
        | Some shape => reshape_meta a shape
        | None => Raise type_error
        end
    | _ => Raise type_error
    end.

Definition slice_params : list param :=
  [("a", None); ("start_indices", None); ("end_indices", None);
   ("strides", Some PNone)].

Definition slice_meta_fn : meta_fn :=
  fun args kwargs =>
    match bind_params slice_params args kwargs with
    | Some [a; start_indices; end_indices; strides] =>
        match as_int_seq start_indices, as_int_seq end_indices,
              is_None strides, as_int_seq strides with
        | Some starts, Some ends, true, _ => slice_meta a starts ends None
        | Some starts, Some ends, false, Some strides =>
            slice_meta a starts ends (Some strides)
        | _, _, _, _ => Raise type_error
        end
    | _ => Raise type_error
    end.

Definition transpose_params : list param :=
  [("a", None); ("permutation", None)].

Definition transpose_meta_fn : meta_fn :=
  fun args kwargs =>
    match bind_params transpose_params args kwargs with
    | Some [a; permutation] =>
        match as_int_seq permutation with
        | Some permutation => transpose_meta a permutation
        | None => Raise type_error
        end
    | _ => Raise type_error
    end.

Definition matmul_params : list param := [("a", None); ("b", None)].

Definition matmul_meta_fn : meta_fn :=
  fun args kwargs =>
    match bind_params matmul_params args kwargs with
    | Some [a; b] => matmul_meta a b
    | _ => Raise type_error
    end.

(** [padding_idx=-1, max_norm=None, norm_type=2.0,
    scale_grad_by_freq=False, sparse=False] *)
Definition embedding_params : list param :=
  [("a", None); ("weight", None);
   ("padding_idx", Some (PNumber (VInt (-1))));
   ("max_norm", Some PNone);
   ("norm_type", Some (PNumber (VFloat (PyFloat 4611686018427387904))));
   ("scale_grad_by_freq", Some (PNumber (VBool false)));
   ("sparse", Some (PNumber (VBool false)))].

Definition embedding_meta_fn : meta_fn :=
  fun args kwargs =>
    match bind_params embedding_params args kwargs with
    | Some [a; weight; padding_idx; max_norm; norm_type;
            scale_grad_by_freq; sparse] =>
        embedding_meta a weight padding_idx max_norm norm_type
                       scale_grad_by_freq sparse
    | _ => Raise type_error
    end.

Definition elementwise_unary_prim (num : Numerics) (id : Ops)
           (cfg : elementwise_config) : prim_fn :=
  make_prim id (cfg_name cfg) (elementwise_unary_prim_meta num cfg).

Definition elementwise_binary_prim (num : Numerics) (id : Ops)
           (cfg : elementwise_config) : prim_fn :=
  make_prim id (cfg_name cfg) (elementwise_binary_prim_meta num cfg).

Definition binary_config (name : string)
           (kind : ELEMENTWISE_PRIM_TYPE_PROMOTION_KIND)
           (handler : option string) : elementwise_config :=
  {| cfg_name := name; cfg_type_promotion_kind := kind;
     cfg_number_handler := handler |}.

Definition unary_config (name : string)
           (kind : ELEMENTWISE_PRIM_TYPE_PROMOTION_KIND) (handler : string)
  : elementwise_config :=
  {| cfg_name := name; cfg_type_promotion_kind := kind;
     cfg_number_handler := Some handler |}.

(** The primitives, under the names prims.py gives them. *)
Module prims.

(* Shape prims *)

Definition reshape : prim_fn := make_prim RESHAPE "reshape" reshape_meta_fn.

Definition slice_prim : prim_fn := make_prim SLICE "slice" slice_meta_fn.

Definition transpose : prim_fn :=
  make_prim TRANSPOSE "transpose" transpose_meta_fn.

Definition view : prim_fn := make_prim VIEW "view" reshape_meta_fn.

(* Elementwise unary prims *)

Definition abs (num : Numerics) : prim_fn :=
  elementwise_unary_prim num ABS (unary_config "abs" COMPLEX_TO_FLOAT "builtins.abs").

Definition acos (num : Numerics) : prim_fn :=
  elementwise_unary_prim num ACOS (unary_config "acos" DEFAULT "math.acos").

Definition acosh (num : Numerics) : prim_fn :=
  elementwise_unary_prim num ACOSH (unary_config "acosh" DEFAULT "math.acosh").

Definition asin (num : Numerics) : prim_fn :=
  elementwise_unary_prim num ASIN (unary_config "asin" DEFAULT "math.asin").

Definition atan (num : Numerics) : prim_fn :=
  elementwise_unary_prim num ATAN (unary_config "atan" DEFAULT "math.atan").

Definition atanh (num : Numerics) : prim_fn :=
  elementwise_unary_prim num ATANH (unary_config "atanh" DEFAULT "math.atanh").

Definition bitwise_not (num : Numerics) : prim_fn :=
  elementwise_unary_prim num BITWISE_NOT (unary_config "bitwise_not" DEFAULT "operator.invert").

Definition ceil (num : Numerics) : prim_fn :=
  elementwise_unary_prim num CEIL (unary_config "ceil" DEFAULT "math.ceil").

Definition cos (num : Numerics) : prim_fn :=
  elementwise_unary_prim num COS (unary_config "cos" DEFAULT "math.cos").

Definition cosh (num : Numerics) : prim_fn :=
  elementwise_unary_prim num COSH (unary_config "cosh" DEFAULT "math.cosh").

Definition erf (num : Numerics) : prim_fn :=
  elementwise_unary_prim num ERF (unary_config "erf" DEFAULT "math.erf").

Definition erfc (num : Numerics) : prim_fn :=
  elementwise_unary_prim num ERFC (unary_config "erfc" DEFAULT "math.erfc").

Definition exp (num : Numerics) : prim_fn :=
  elementwise_unary_prim num EXP (unary_config "exp" DEFAULT "math.exp").

Definition expm1 (num : Numerics) : prim_fn :=
  elementwise_unary_prim num EXPM1 (unary_config "expm1" DEFAULT "math.expm1").

Definition floor (num : Numerics) : prim_fn :=
  elementwise_unary_prim num FLOOR (unary_config "floor" DEFAULT "math.floor").



Definition sin (num : Numerics) : prim_fn :=
  elementwise_unary_prim num SIN (unary_config "sin" DEFAULT "math.sin").

Definition tanh (num : Numerics) : prim_fn :=
  elementwise_unary_prim num TANH (unary_config "tanh" DEFAULT "math.tanh").

Definition log (num : Numerics) : prim_fn :=
  elementwise_unary_prim num LOG (unary_config "log" DEFAULT "math.log").

Definition log10 (num : Numerics) : prim_fn :=
  elementwise_unary_prim num LOG10 (unary_config "log10" DEFAULT "math.log10").

Definition log1p (num : Numerics) : prim_fn :=
  elementwise_unary_prim num LOG1P (unary_config "log1p" DEFAULT "math.log1p").

Definition log2 (num : Numerics) : prim_fn :=
  elementwise_unary_prim num LOG2 (unary_config "log2" DEFAULT "math.log2").

(* Elementwise binary prims *)

Definition add (num : Numerics) : prim_fn :=
  elementwise_binary_prim num ADD (binary_config "add" DEFAULT (Some "operator.add")).

Definition atan2 (num : Numerics) : prim_fn :=
  elementwise_binary_prim num ATAN2 (binary_config "atan2" DEFAULT None).

Definition bitwise_and (num : Numerics) : prim_fn :=
  elementwise_binary_prim num BITWISE_AND (binary_config "bitwise_and" DEFAULT None).

Definition div (num : Numerics) : prim_fn :=
  elementwise_binary_prim num DIV (binary_config "div" DEFAULT (Some "_div_number_handler")).



Definition mul (num : Numerics) : prim_fn :=
  elementwise_binary_prim num MUL (binary_config "mul" DEFAULT (Some "operator.mul")).

Definition pow (num : Numerics) : prim_fn :=
  elementwise_binary_prim num POW (binary_config "pow" DEFAULT (Some "operator.pow")).

Definition sub (num : Numerics) : prim_fn :=
  elementwise_binary_prim num SUB (binary_config "sub" DEFAULT (Some "operator.sub")).

(* Matmul prims *)

Definition matmul : prim_fn := make_prim MATMUL "matmul" matmul_meta_fn.

(* NN prims *)

Definition embedding : prim_fn :=
  make_prim EMBEDDING "embedding" embedding_meta_fn.

End prims.

(* ===================================================================== *)
(** ** Vocabulary of the statements *)
(* ===================================================================== *)

(** The program recorded so far in the active trace. *)
Definition recorded (w : World) : option (list Symbol) :=
  option_map symbols (active_trace w).

(** A failing call that leaves no trace of itself: the world after it is the
    world before it. *)
Definition aborts_without_mutation (prim : prim_fn) : Prop :=
  forall args kwargs w e w', prim args kwargs w = (Err e, w') -> w' = w.

(** The outputs of a Symbol for a given result: a single result becomes a
    one-element sequence, a sequence result the tuple of its elements. *)
Definition outputs_of_result (result : pyobj) : list pyobj :=
  match result with
  | PTuple xs | PList xs => xs
  | PStr _ => sequence_items result
  | single => [single]
  end.

(** A positional argument as a Symbol keeps it: a sequence becomes a tuple,
    anything else is kept as it is. *)
Definition normalized_arg (a : pyobj) : pyobj :=
  match a with
  | PTuple xs | PList xs => PTuple xs
  | PStr _ => PTuple (sequence_items a)
  | other => other
  end.

(** Every Symbol of the active trace is an allocated object, and no two of
    them are the same object. *)
Definition identities_allocated (w : World) : Prop :=
  match active_trace w with
  | Some tr =>
      NoDup (map sym_id (symbols tr)) /\
      Forall (fun s => (sym_id s < next_object_id w)%nat) (symbols tr)
  | None => True
  end.


Definition valid_shape (shape : list Z) : Prop :=
  Forall (fun l => 0 <= l) shape.

(** [0, 1, ..., n-1] *)
Definition range (n : nat) : list Z := map Z.of_nat (seq 0 n).

(** The position of the first [x] in [l]. *)
Fixpoint index_of (x : Z) (l : list Z) : Z :=
  match l with
  | [] => 0
  | y :: rest => if x =? y then 0 else 1 + index_of x rest
  end.

(** The inverse of a permutation [p] of [0..n-1]: it sends [p[i]] to [i]. *)
Definition inverse_permutation (p : list Z) : list Z :=
  map (fun j => index_of j p) (range (List.length p)).

(** The shape [shape] reordered by [p]: entry [i] is [shape[p[i]]]. *)
Definition reordered (shape p : list Z) : list Z :=
  map (fun dim => nth (Z.to_nat dim) shape 0) p.

(** The bounds a slice must respect in one dimension. *)
Definition slice_dim_ok (d : Z * Z * Z * Z) : Prop :=
  let '(start, stop, shape, stride) := d in
  0 <= start <= shape /\ start <= stop <= shape /\ 1 <= stride.

Definition slice_dim_length (d : Z * Z * Z * Z) : Z :=
  let '(start, stop, shape, stride) := d in (stop - start) / stride.

(** Lengths below 2^53, on which the float quotient of [slice_meta] is the
    exact one. *)
Definition float_exact (shape : list Z) : Prop :=
  Forall (fun l => l < 2 ^ 53) shape.

(** The keywords of a call bind none of the parameters [names]. *)
Definition binds_none (names : list string) (kwargs : kwargs_t) : Prop :=
  Forall (fun name => lookup name kwargs = None) names.

(** The three index sequences have the rank of the tensor and respect the
    bounds in every dimension. *)
Definition slice_ok (shape starts ends strides : list Z) : Prop :=
  List.length starts = List.length shape /\
  List.length ends = List.length shape /\
  List.length strides = List.length shape /\
  Forall slice_dim_ok (zip4 starts ends shape strides).

(** Strides as the caller passes them, and what they default to. *)
Definition strides_arg (strides : option (list Z)) : pyobj :=
  match strides with
  | Some s => py_ints s
  | None => PNone
  end.

Definition strides_or_default (shape : list Z) (strides : option (list Z))
  : list Z :=
  match strides with
  | Some s => s
  | None => repeat 1 (List.length shape)
  end.

(** The world once a name has been minted in the active trace [tr]. *)
Definition minted (w : World) (tr : Trace) : World :=
  {| active_trace :=
       Some {| symbols := symbols tr; name_ctr := S (name_ctr tr) |};
     next_object_id := next_object_id w |}.


(* ===================================================================== *)
(** ** Sample values *)
(* ===================================================================== *)

(** Numerics restricted to exact integers, on which the handlers used below
    are plain integer functions. *)
Definition int_handler (name : string) (values : list pyvalue)
  : option pyvalue :=
  match values with
  | [VInt a] =>
      if String.eqb name "math.isfinite" then Some (VBool true) else None
  | [VInt a; VInt b] =>
      if String.eqb name "operator.add" then Some (VInt (a + b))
      else if String.eqb name "operator.eq" then Some (VBool (a =? b))
      else if String.eqb name "operator.lt" then Some (VBool (a <? b))
      else None
  | _ => None
  end.

Definition int_numerics : Numerics :=
  {| float_of_int := fun _ => None;
     int_of_float := fun _ => None;
     float_truth := fun _ => true;
     complex_truth := fun _ => true;
     number_handler_apply := int_handler |}.

Definition sample_tensor (n : nat) (shape : list Z) (dtype : tensor_dtype)
  : TensorProxy :=
  {| tp_name := ProxyName n; tp_shape := shape; tp_device := "cpu";
     tp_dtype := TensorDtype dtype |}.

Definition empty_trace : Trace := {| symbols := []; name_ctr := 0 |}.

(** A context with a fresh active trace, whose names start after those of
    the sample tensors. *)
Definition fresh_world : World :=
  {| active_trace := Some {| symbols := []; name_ctr := 10 |};
     next_object_id := 0 |}.

(* ===================================================================== *)
(** ** More of the catalog: squeeze, broadcast, reductions, linear,
       creation and conversion *)
(* ===================================================================== *)

(** [l[:-1]] *)
Definition all_but_last (l : list Z) : list Z :=
  firstn (List.length l - 1) l.

(** [idx in dims] *)
Definition mem (idx : Z) (dims : list Z) : bool := existsb (Z.eqb idx) dims.

(** Modelled from the spec: [utils.check_no_duplicates(dims)] accepts a
    sequence in which no value occurs twice. *)
Fixpoint no_duplicates (dims : list Z) : bool :=
  match dims with
  | [] => true
  | x :: rest => negb (mem x rest) && no_duplicates rest
  end.

(** The loop of [squeeze_meta] over [enumerate(a.shape)], from index [idx]
    on. *)
Fixpoint squeeze_shape (dims : list Z) (idx : Z) (shape : list Z)
  : Meta (list Z) :=
  match shape with
  | [] => Ret []
  | l :: rest =>
      if mem idx dims then
        (* Checks that squeezed dims have length one *)
        check (l =? 1) shape_error ;;
        squeeze_shape dims (idx + 1) rest
      else
        new_shape <- squeeze_shape dims (idx + 1) rest ;;
        Ret (l :: new_shape)
  end.

Definition squeeze_meta (a : pyobj) (dims : list Z) : Meta pyobj :=
  (* Checks that no dims are redundant *)
  check (no_duplicates dims) shape_error ;;
  match a with
  | PTensorProxy ta =>
      (* Checks that dims are valid *)
      check (forallb (fun x => (x >=? 0) && (x <? ndim ta)) dims)
            shape_error ;;
      shape <- squeeze_shape dims 0 (tp_shape ta) ;;
      proxy_name <- get_trace_make_proxy_name ;;
      Ret (PTensorProxy (TensorProxy_like proxy_name ta (Some shape) None))
  | _ => Raise type_error
  end.

(** The loop of [broadcast_in_dim_meta] over
    [zip(a.shape, broadcast_dimensions)]. *)
Fixpoint broadcast_check (shape : list Z) (prev_idx : Z)
         (pairs : list (Z * Z)) : Meta unit :=
  match pairs with
  | [] => Ret tt
  | (original_length, idx) :: rest =>
      check (idx >? prev_idx) shape_error ;;
      check (idx <? Z.of_nat (List.length shape)) shape_error ;;
      match getitem shape idx with
      | Some target =>
          check ((original_length =? 1) || (target =? original_length))
                shape_error ;;
          broadcast_check shape idx rest
      | None => Raise shape_error
      end
  end.

Definition broadcast_in_dim_meta (a : pyobj) (shape : list Z)
           (broadcast_dimensions : list Z) : Meta pyobj :=
  match a with
  | PTensorProxy ta =>
      check (Nat.eqb (List.length (tp_shape ta))
                     (List.length broadcast_dimensions)) shape_error ;;
      (* Checks that dimensions are strictly increasing and valid *)
      broadcast_check shape (-1)
                      (combine (tp_shape ta) broadcast_dimensions) ;;
      proxy_name <- get_trace_make_proxy_name ;;
      Ret (PTensorProxy
             (TensorProxy_new proxy_name shape (tp_device ta) (tp_dtype ta)))
  | _ => Raise type_error
  end.

(** Modelled from the spec: [utils.validate_idx(rank, idx)] accepts a valid
    dimension index of a tensor of that rank. *)
Definition validate_idx (rank : nat) (idx : Z) : bool :=
  (0 <=? idx) && (idx <? Z.of_nat rank).

(** The second loop of [_compute_reduction_output_shape]: the lengths at the
    indices, from [idx] on, that are not in [dims]. *)
Fixpoint reduction_kept (dims : list Z) (idx : Z) (shape : list Z) : list Z :=
  match shape with
  | [] => []
  | l :: rest =>
      if mem idx dims then reduction_kept dims (idx + 1) rest
      else l :: reduction_kept dims (idx + 1) rest
  end.

Definition _compute_reduction_output_shape (shape dims : list Z)
  : Meta (list Z) :=
  check (forallb (validate_idx (List.length shape)) dims) shape_error ;;
  Ret (reduction_kept dims 0 shape).

(** Meta function for single output reduction operations; [amax] and [sum]
    are registered with it. *)
Definition reduction_meta (a : pyobj) (dims : list Z)
           (output_dtype : option eltype) : Meta pyobj :=
  match a with
  | PTensorProxy ta =>
      let output_dtype :=
        match output_dtype with
        | None => tp_dtype ta
        | Some d => d
        end in
      output_shape <- _compute_reduction_output_shape (tp_shape ta) dims ;;
      proxy_name <- get_trace_make_proxy_name ;;
      Ret (PTensorProxy
             (TensorProxy_new proxy_name output_shape (tp_device ta)
                              output_dtype))
  | _ => Raise type_error
  end.

(** [correction] takes no part in the inference. *)
Definition var_meta (a : pyobj) (dims : list Z) (correction : pyobj)
  : Meta pyobj :=
  match a with
  | PTensorProxy ta =>
      let output_dtype :=
        if is_complex_dtype (tp_dtype ta)
        then corresponding_real_dtype (tp_dtype ta)
        else tp_dtype ta in
      reduction_meta a dims (Some output_dtype)
  | _ => Raise type_error
  end.

(** The checks of [linear_meta] on a bias that is not None. *)
Definition linear_check_bias (ta : TensorProxy) (out_length : Z)
           (bias : pyobj) : Meta unit :=
  match bias with
  | PNone => Ret tt
  | PTensorProxy tb =>
      check (String.eqb (tp_device ta) (tp_device tb)) device_error ;;
      check (Nat.eqb (List.length (tp_shape tb)) 1) shape_error ;;
      match getitem (tp_shape tb) 0 with
      | Some bias_length =>
          check (bias_length =? out_length) shape_error ;;
          check (eltype_eqb (tp_dtype tb) (tp_dtype ta)) type_error
      | None => Raise shape_error
      end
  | _ => Raise type_error
  end.

(** out = a @ w.transpose() + bias.  [a.shape[-1]] is read before the shape
    of [w] is checked; on a tensor of rank 0 it is an IndexError. *)
Definition linear_meta (a w bias : pyobj) : Meta pyobj :=
  match a, w with
  | PTensorProxy ta, PTensorProxy tw =>
      (* Checks that required arguments are on the same device *)
      check (String.eqb (tp_device ta) (tp_device tw)) device_error ;;
      (* Acquires the computation dtype and checks the dtypes *)
      let dtype := tp_dtype ta in
      check (eltype_eqb (tp_dtype ta) (tp_dtype tw)) type_error ;;
      let batch_dims := all_but_last (tp_shape ta) in
      match getitem (tp_shape ta) (-1) with
      | None => Raise shape_error
      | Some in_length =>
          (* Validates w's shape *)
          check (Nat.eqb (List.length (tp_shape tw)) 2) shape_error ;;
          match getitem (tp_shape tw) 1, getitem (tp_shape tw) 0 with
          | Some w_inner, Some out_length =>
              check (w_inner =? in_length) shape_error ;;
              (* Validates bias shape *)
              linear_check_bias ta out_length bias ;;
              let out_shape := batch_dims ++ [out_length] in
              proxy_name <- get_trace_make_proxy_name ;;
              Ret (PTensorProxy
                     (TensorProxy_new proxy_name out_shape (tp_device ta)
                                      dtype))
          | _, _ => Raise shape_error
          end
      end
  | _, _ => Raise type_error
  end.

(** Modelled from the spec: [utils.is_exact_dtype], true of the boolean and
    the integral types. *)
Definition is_exact_dtype (t : eltype) : bool :=
  match eltype_to_numbertype t with
  | py_bool | py_int => true
  | py_float | py_complex => false
  end.

Definition _full_meta (shape : list Z) (fill_value : pyobj)
           (device : string) (dtype : eltype) : Meta pyobj :=
  proxy_name <- get_trace_make_proxy_name ;;
  Ret (PTensorProxy (TensorProxy_new proxy_name shape device dtype)).

Definition _iota_meta (length : Z) (start step : pyobj) (device : string)
           (dtype : eltype) : Meta pyobj :=
  check (is_exact_dtype dtype) type_error ;;
  check (negb (is_boolean_dtype dtype)) type_error ;;
  check (length >=? 0) bounds_error ;;
  let shape := if length =? 0 then [] else [length] in
  proxy_name <- get_trace_make_proxy_name ;;
  Ret (PTensorProxy (TensorProxy_new proxy_name shape device dtype)).

Definition _uniform_meta (shape : list Z) (minval maxval : pyobj)
           (device : string) (dtype : eltype) : Meta pyobj :=
  proxy_name <- get_trace_make_proxy_name ;;
  Ret (PTensorProxy (TensorProxy_new proxy_name shape device dtype)).

(** Modelled from the spec: [utils.is_numbertype], true of the Python number
    classes. *)
Definition is_numbertype (t : eltype) : bool :=
  match t with
  | NumberType _ => true
  | TensorDtype _ => false
  end.

(** A number is converted before the name of the result is minted.  Anything
    that is not a number is handed to the [TensorProxy] constructor as the
    tensor to copy from; the constructor is taken to reject what is not a
    tensor. *)
Definition _convert_element_type_meta (num : Numerics) (a : pyobj)
           (dtype : eltype) : Meta pyobj :=
  match get_numberlike_value a with
  | Some value =>
      check (is_numbertype dtype) type_error ;;
      match call_type num dtype value with
      | None => Raise scalar_evaluation_error
      | Some result =>
          proxy_name <- get_trace_make_proxy_name ;;
          Ret (proxy result proxy_name)
      end
  | None =>
      (* a is a Tensor *)
      proxy_name <- get_trace_make_proxy_name ;;
      match a with
      | PTensorProxy ta =>
          Ret (PTensorProxy (TensorProxy_like proxy_name ta None (Some dtype)))
      | _ => Raise type_error
      end
  end.

(* ===================================================================== *)
(** ** Vocabulary of the further statements *)
(* ===================================================================== *)

(** The name a result proxy carries. *)
Definition result_name (r : pyobj) : option proxy_name :=
  match r with
  | PTensorProxy t => Some (tp_name t)
  | PNumberProxy n => Some (np_name n)
  | _ => None
  end.

(** A meta function that mints nothing. *)
Definition mints_nothing {A} (m : Meta A) : Prop :=
  match m with
  | Ret _ | Raise _ => True
  | MakeProxyName _ => False
  end.

(** A meta function that fails, or mints one name and returns a proxy that
    carries it: every check comes before the name is minted. *)
Definition validates_then_mints (m : Meta pyobj) : Prop :=
  match m with
  | Ret _ => False
  | Raise _ => True
  | MakeProxyName k =>
      forall n, exists r, k n = Ret r /\ result_name r = Some n
  end.

(** A meta function that fails, or mints one name and then fails or returns
    a proxy carrying that name. *)
Definition names_its_result (m : Meta pyobj) : Prop :=
  match m with
  | Ret _ => False
  | Raise _ => True
  | MakeProxyName k =>
      forall n, match k n with
                | Ret r => result_name r = Some n
                | Raise _ => True
                | MakeProxyName _ => False
                end
  end.

(** The meta functions that are called after validation of the arguments by
    position and keyword, and a call that is rejected there. *)
Inductive validating_meta : Meta pyobj -> Prop :=
| vm_rejected e : validating_meta (Raise e)
| vm_full shape fill_value device dtype :
    validating_meta (_full_meta shape fill_value device dtype)
| vm_iota length start step device dtype :
    validating_meta (_iota_meta length start step device dtype)
| vm_uniform shape minval maxval device dtype :
    validating_meta (_uniform_meta shape minval maxval device dtype)
| vm_broadcast_in_dim a shape broadcast_dimensions :
    validating_meta (broadcast_in_dim_meta a shape broadcast_dimensions)
| vm_reshape a shape : validating_meta (reshape_meta a shape)
| vm_slice a start_indices end_indices strides :
    validating_meta (slice_meta a start_indices end_indices strides)
| vm_squeeze a dims : validating_meta (squeeze_meta a dims)
| vm_transpose a permutation :
    validating_meta (transpose_meta a permutation)
| vm_reduction a dims output_dtype :
    validating_meta (reduction_meta a dims output_dtype)
| vm_var a dims correction : validating_meta (var_meta a dims correction)
| vm_linear a w bias : validating_meta (linear_meta a w bias)
| vm_matmul a b : validating_meta (matmul_meta a b)
| vm_embedding a weight padding_idx max_norm norm_type scale_grad_by_freq
               sparse :
    validating_meta (embedding_meta a weight padding_idx max_norm norm_type
                                    scale_grad_by_freq sparse).

(** All the meta functions modelled here. *)
Inductive catalog_meta (num : Numerics) : Meta pyobj -> Prop :=
| cm_validating m : validating_meta m -> catalog_meta num m
| cm_unary kws a : catalog_meta num (_elementwise_unary_meta num kws a)
| cm_binary kws a b : catalog_meta num (_elementwise_binary_meta num kws a b)
| cm_convert_element_type a dtype :
    catalog_meta num (_convert_element_type_meta num a dtype).

(** A sequence whose entries increase strictly and lie in [lo, hi). *)
Fixpoint increasing_within (lo hi : Z) (l : list Z) : Prop :=
  match l with
  | [] => True
  | x :: rest => lo <= x < hi /\ increasing_within (x + 1) hi rest
  end.

(** The lengths of [shape] at the positions, counted from [idx], that are
    not in [dims]. *)
Fixpoint without_dims (dims : list Z) (idx : Z) (shape : list Z) : list Z :=
  match shape with
  | [] => []
  | l :: rest =>
      if mem idx dims then without_dims dims (idx + 1) rest
      else l :: without_dims dims (idx + 1) rest
  end.

(** Every dimension of [shape] that [dims] names, counted from [idx], has
    length one. *)
Fixpoint unit_at (dims : list Z) (idx : Z) (shape : list Z) : Prop :=
  match shape with
  | [] => True
  | l :: rest =>
      (mem idx dims = true -> l = 1) /\ unit_at dims (idx + 1) rest
  end.

(** What [broadcast_in_dim] asks of each dimension of the operand: it has
    length one or the length of the dimension it is mapped to. *)
Definition broadcastable (shape : list Z) (pair : Z * Z) : Prop :=
  let '(original_length, idx) := pair in
  original_length = 1 \/ nth (Z.to_nat idx) shape 0 = original_length.

(** The [n] positions from [idx] on. *)
Fixpoint positions (idx : Z) (n : nat) : list Z :=
  match n with
  | O => []
  | S n' => idx :: positions (idx + 1) n'
  end.

(** What [squeeze] asks of [dims] on a tensor of the given shape: no
    duplicates, valid dimension indices, and length one at each of them. *)
Definition squeeze_ok (shape dims : list Z) : Prop :=
  NoDup dims /\
  Forall (fun x => 0 <= x < Z.of_nat (List.length shape)) dims /\
  Forall (fun x => nth (Z.to_nat x) shape 0 = 1) dims.

(** What [broadcast_in_dim] asks: one broadcast dimension for each dimension
    of the operand, strictly increasing indices into the target shape, and
    every dimension of the operand of length one or of the length of the
    dimension it is mapped to. *)
Definition broadcast_ok (a_shape shape broadcast_dimensions : list Z) : Prop :=
  List.length a_shape = List.length broadcast_dimensions /\
  increasing_within 0 (Z.of_nat (List.length shape)) broadcast_dimensions /\
  Forall (broadcastable shape) (combine a_shape broadcast_dimensions).

(** What [linear] asks of a bias: it is None, or a tensor of shape [(out,)]
    with the device and dtype of the input. *)
Definition bias_ok (ta : TensorProxy) (out_length : Z) (bias : pyobj) : Prop :=
  bias = PNone \/
  exists tb,
    bias = PTensorProxy tb /\
    tp_device tb = tp_device ta /\
    tp_shape tb = [out_length] /\
    tp_dtype tb = tp_dtype ta.

(* ===================================================================== *)
(** ** Running a meta function *)
(* ===================================================================== *)

Unset Implicit Arguments.

Lemma run_MakeProxyName_active :
  forall A (k : proxy_name -> Meta A) w tr,
    active_trace w = Some tr ->
    run (MakeProxyName k) w =
    run (k (ProxyName (name_ctr tr)))
        {| active_trace :=
             Some {| symbols := symbols tr; name_ctr := S (name_ctr tr) |};
           next_object_id := next_object_id w |}.
Proof.
  intros A k w tr H. simpl.
  unfold bind, Trace_make_proxy_name, bind, get_trace, set_trace, ret.
  rewrite H. reflexivity.
Qed.

Lemma run_MakeProxyName_inactive :
  forall A (k : proxy_name -> Meta A) w,
    active_trace w = None ->
    run (MakeProxyName k) w = (Err context_error, w).
Proof.
  intros A k w H. simpl.
  unfold bind, Trace_make_proxy_name, bind, get_trace.
  rewrite H. reflexivity.
Qed.

Lemma run_bind :
  forall A B (m : Meta A) (k : A -> Meta B) w,
    run (meta_bind m k) w =
    match run m w with
    | (Ok a, w') => run (k a) w'
    | (Err e, w') => (Err e, w')
    end.
Proof.
  intros A B m k. induction m as [a | e | f IH]; intro w; simpl.
  - reflexivity.
  - reflexivity.
  - unfold bind.
    destruct (Trace_make_proxy_name w) as [[n | e] w1]; [apply IH | reflexivity].
Qed.

(** A meta function allocates no object, records nothing, neither opens nor
    closes a trace, and never moves the name counter backwards. *)
Lemma run_frame :
  forall A (m : Meta A) w r w',
    run m w = (r, w') ->
    next_object_id w' = next_object_id w /\
    recorded w' = recorded w /\
    (active_trace w = None -> w' = w) /\
    (forall tr, active_trace w = Some tr ->
                exists tr', active_trace w' = Some tr' /\
                            symbols tr' = symbols tr /\
                            (name_ctr tr <= name_ctr tr')%nat).
Proof.
  intros A m. induction m as [a | e | k IH]; intros w r w' Hrun.
  - cbv [run ret] in Hrun. inversion Hrun; subst. repeat split; eauto.
  - cbv [run raise] in Hrun. inversion Hrun; subst. repeat split; eauto.
  - destruct (active_trace w) as [tr |] eqn:Hact.
    + rewrite (run_MakeProxyName_active _ k w tr Hact) in Hrun.
      apply IH in Hrun. simpl in Hrun.
      destruct Hrun as (Hid & Hrec & _ & Hctr).
      destruct (Hctr _ eq_refl) as (tr' & Htr' & Hsym & Hle). simpl in *.
      repeat split.
      * exact Hid.
      * rewrite Hrec. unfold recorded. simpl. rewrite Hact. reflexivity.
      * discriminate.
      * intros tr0 Htr0. inversion Htr0; subst.
        exists tr'. repeat split; auto. lia.
    + rewrite (run_MakeProxyName_inactive _ k w Hact) in Hrun.
      inversion Hrun; subst. repeat split; auto.
      intros tr Htr. congruence.
Qed.

Lemma outputs_of_result_eq :
  forall result,
    (if is_Sequence result then sequence_items result else [result]) =
    outputs_of_result result.
Proof. intros r; destruct r; reflexivity. Qed.

Lemma normalized_arg_eq :
  forall a,
    (if is_Sequence a then PTuple (sequence_items a) else a) =
    normalized_arg a.
Proof. intros a; destruct a; reflexivity. Qed.

(** What the wrapper does once the meta function has returned. *)
Lemma make_prim_after_meta :
  forall meta id name args kwargs w,
    make_prim id name meta args kwargs w =
    match run (meta args kwargs) w with
    | (Err e, w1) => (Err e, w1)
    | (Ok result, w1) =>
        let sym := {| sym_id := next_object_id w1; sym_op := id;
                      sym_name := name;
                      sym_outputs := outputs_of_result result;
                      sym_args := map normalized_arg args;
                      sym_kwargs := kwargs |} in
        match active_trace w1 with
        | Some tr1 =>
            (Ok result,
             {| active_trace :=
                  Some {| symbols := symbols tr1 ++ [sym];
                          name_ctr := name_ctr tr1 |};
                next_object_id := S (next_object_id w1) |})
        | None =>
            (Err context_error,
             {| active_trace := None;
                next_object_id := S (next_object_id w1) |})
        end
    end.
Proof.
  intros meta id name args kwargs w.
  unfold make_prim, eval_meta_and_record_symbol_fn, bind at 1.
  destruct (run (meta args kwargs) w) as [[result | e] w1]; [| reflexivity].
  unfold bind, make_symbol, Symbol_new, Trace_add_symbol, bind, get_trace,
    set_trace, ret. simpl.
  rewrite outputs_of_result_eq.
  rewrite (map_ext _ _ normalized_arg_eq).
  destruct (active_trace w1) as [tr1 |] eqn:Hact; simpl; rewrite ?Hact;
    reflexivity.
Qed.

(* ===================================================================== *)
(** ** Recording: failure, success, identity *)
(* ===================================================================== *)

(** C1, as stated, does not hold: [add] on two float32 tensors of shapes
    (2,) and (3,) fails with a shape error after the name of the result has
    been minted, so the name counter of the trace has moved. *)
Lemma add_shape_mismatch_mutates_name_counter :
  ~ aborts_without_mutation (prims.add int_numerics).
Proof.
  intro H.
  specialize (H [PTensorProxy (sample_tensor 0 [2] float32);
                 PTensorProxy (sample_tensor 1 [3] float32)]
                [] fresh_world shape_error
                {| active_trace := Some {| symbols := []; name_ctr := 11 |};
                   next_object_id := 0 |} eq_refl).
  discriminate H.
Qed.

(** C1 (amended): when the meta function of a primitive call fails, the call
    fails with the same error and records nothing: no Symbol object is
    allocated and the Symbol sequence of the active trace is exactly as it
    was before the call.  The name counter is not rolled back; it is at
    least what it was before the call. *)
Theorem failed_meta_records_nothing :
  forall meta id name args kwargs w e w1,
    run (meta args kwargs) w = (Err e, w1) ->
    make_prim id name meta args kwargs w = (Err e, w1) /\
    recorded w1 = recorded w /\
    next_object_id w1 = next_object_id w /\
    (forall tr, active_trace w = Some tr ->
                exists tr1, active_trace w1 = Some tr1 /\
                            symbols tr1 = symbols tr /\
                            (name_ctr tr <= name_ctr tr1)%nat).
Proof.
  intros meta id name args kwargs w e w1 Hrun.
  split.
  - rewrite make_prim_after_meta, Hrun. reflexivity.
  - destruct (run_frame _ _ _ _ _ Hrun) as (Hid & Hrec & _ & Hctr). auto.
Qed.

Lemma failed_meta_records_nothing_witness :
  let args := [PTensorProxy (sample_tensor 0 [2] float32);
               PTensorProxy (sample_tensor 1 [3] float32)] in
  let w1 := {| active_trace := Some {| symbols := []; name_ctr := 11 |};
               next_object_id := 0 |} in
  prims.add int_numerics args [] fresh_world = (Err shape_error, w1) /\
  recorded w1 = recorded fresh_world.
Proof.
  intros args w1.
  pose proof (failed_meta_records_nothing
                (elementwise_binary_prim_meta
                   int_numerics
                   (binary_config "add" DEFAULT (Some "operator.add")))
                ADD "add" args [] fresh_world shape_error w1 eq_refl) as H.
  split; [exact (proj1 H) | exact (proj1 (proj2 H))].
Defined.

(** C2: a primitive call whose meta function succeeds appends exactly one
    Symbol to the active trace.  The outputs of that Symbol are the result
    of the meta function (a single result as a one-element sequence, a
    sequence as a tuple), its args are the positional arguments with every
    sequence turned into a tuple, and the call returns the result of the
    meta function as it is. *)
Theorem successful_call_records_one_symbol :
  forall meta id name args kwargs w tr result w1,
    active_trace w = Some tr ->
    run (meta args kwargs) w = (Ok result, w1) ->
    exists sym tr2 w2,
      make_prim id name meta args kwargs w = (Ok result, w2) /\
      active_trace w2 = Some tr2 /\
      symbols tr2 = symbols tr ++ [sym] /\
      sym_op sym = id /\
      sym_name sym = name /\
      sym_outputs sym = outputs_of_result result /\
      sym_args sym = map normalized_arg args /\
      sym_kwargs sym = kwargs.
Proof.
  intros meta id name args kwargs w tr result w1 Hact Hrun.
  destruct (run_frame _ _ _ _ _ Hrun) as (_ & _ & _ & Hctr).
  destruct (Hctr _ Hact) as (tr1 & Hact1 & Hsym & _).
  rewrite make_prim_after_meta, Hrun. cbv zeta. rewrite Hact1.
  eexists. eexists. eexists.
  split; [reflexivity |]. simpl.
  split; [reflexivity |]. simpl.
  rewrite Hsym. repeat split; reflexivity.
Qed.

Lemma successful_call_records_one_symbol_witness :
  exists sym tr2 w2,
    prims.reshape [PTensorProxy (sample_tensor 0 [2; 3] float32);
                   PList [PNumber (VInt 3); PNumber (VInt 2)]] []
                  fresh_world
    = (Ok (PTensorProxy {| tp_name := ProxyName 10; tp_shape := [3; 2];
                           tp_device := "cpu";
                           tp_dtype := TensorDtype float32 |}), w2) /\
    active_trace w2 = Some tr2 /\
    symbols tr2 = [] ++ [sym] /\
    sym_op sym = RESHAPE /\
    sym_name sym = "reshape" /\
    sym_outputs sym =
      [PTensorProxy {| tp_name := ProxyName 10; tp_shape := [3; 2];
                       tp_device := "cpu";
                       tp_dtype := TensorDtype float32 |}] /\
    sym_args sym =
      [PTensorProxy (sample_tensor 0 [2; 3] float32);
       PTuple [PNumber (VInt 3); PNumber (VInt 2)]] /\
    sym_kwargs sym = [].
Proof.
  exact (successful_call_records_one_symbol
           reshape_meta_fn RESHAPE "reshape"
           [PTensorProxy (sample_tensor 0 [2; 3] float32);
            PList [PNumber (VInt 3); PNumber (VInt 2)]] []
           fresh_world _ _ _ eq_refl eq_refl).
Defined.

Lemma Symbol_eq_iff_same_object :
  forall s s', Symbol_eq s s' = true <-> sym_id s = sym_id s'.
Proof. intros s s'. unfold Symbol_eq. apply Nat.eqb_eq. Qed.

(** A successful call records a Symbol whose identity is the next one to be
    allocated, and allocates it. *)
Lemma successful_call_allocates :
  forall meta id name args kwargs w tr result w2,
    active_trace w = Some tr ->
    make_prim id name meta args kwargs w = (Ok result, w2) ->
    exists sym tr2,
      active_trace w2 = Some tr2 /\
      symbols tr2 = symbols tr ++ [sym] /\
      sym_id sym = next_object_id w /\
      next_object_id w2 = S (next_object_id w) /\
      sym_op sym = id /\ sym_name sym = name /\
      sym_args sym = map normalized_arg args /\ sym_kwargs sym = kwargs.
Proof.
  intros meta id name args kwargs w tr result w2 Hact Hcall.
  rewrite make_prim_after_meta in Hcall.
  destruct (run (meta args kwargs) w) as [[r | e] w1] eqn:Hrun;
    [| discriminate].
  destruct (run_frame _ _ _ _ _ Hrun) as (Hid & _ & _ & Hctr).
  destruct (Hctr _ Hact) as (tr1 & Hact1 & Hsym & _).
  cbv zeta in Hcall. rewrite Hact1 in Hcall. inversion Hcall; subst.
  eexists. eexists. simpl.
  split; [reflexivity |]. simpl. rewrite Hsym, Hid.
  repeat split; reflexivity.
Qed.

(** Successful calls keep the identities of the recorded Symbols apart. *)
Lemma successful_call_keeps_identities :
  forall meta id name args kwargs w result w2,
    identities_allocated w ->
    make_prim id name meta args kwargs w = (Ok result, w2) ->
    identities_allocated w2.
Proof.
  intros meta id name args kwargs w result w2 Hwf Hcall.
  destruct (active_trace w) as [tr |] eqn:Hact.
  - destruct (successful_call_allocates _ _ _ _ _ _ _ _ _ Hact Hcall)
      as (sym & tr2 & Hact2 & Hsym & Hsid & Hnext & _).
    unfold identities_allocated in *. rewrite Hact in Hwf. rewrite Hact2.
    destruct Hwf as [Hnd Hlt]. rewrite Hsym, Hnext. split.
    + rewrite map_app. simpl.
      apply NoDup_app; [exact Hnd | repeat constructor; intros [] |].
      intros n Hin [Hn | []]. apply in_map_iff in Hin.
      destruct Hin as (s & Hs & Hin).
      rewrite Forall_forall in Hlt. specialize (Hlt _ Hin). lia.
    + apply Forall_app. split.
      * eapply Forall_impl; [| exact Hlt]. simpl. intros; lia.
      * constructor; [lia | constructor].
  - rewrite make_prim_after_meta in Hcall.
    destruct (run (meta args kwargs) w) as [[r | e] w1] eqn:Hrun;
      [| discriminate].
    destruct (run_frame _ _ _ _ _ Hrun) as (_ & _ & Hsame & _).
    rewrite (Hsame Hact) in Hcall. cbv zeta in Hcall.
    rewrite Hact in Hcall. discriminate.
Qed.

(** C3: Symbols are compared and hashed by identity.  Two successful calls
    of a primitive with the same arguments record two Symbols with the same
    operator, name, args and kwargs that are not equal, and in the trace two
    recorded Symbols are equal exactly when they are the same entry. *)
Theorem symbols_equal_by_identity_only :
  forall meta id name args kwargs w tr r1 w1 r2 w2,
    active_trace w = Some tr ->
    identities_allocated w ->
    make_prim id name meta args kwargs w = (Ok r1, w1) ->
    make_prim id name meta args kwargs w1 = (Ok r2, w2) ->
    exists s1 s2 tr2,
      active_trace w2 = Some tr2 /\
      symbols tr2 = symbols tr ++ [s1; s2] /\
      same_contents s1 s2 /\
      Symbol_eq s1 s2 = false /\
      Symbol_hash s1 <> Symbol_hash s2 /\
      (forall i j x y,
          nth_error (symbols tr2) i = Some x ->
          nth_error (symbols tr2) j = Some y ->
          (Symbol_eq x y = true <-> i = j)).
Proof.
  intros meta id name args kwargs w tr r1 w1 r2 w2 Hact Hwf H1 H2.
  pose proof (successful_call_keeps_identities _ _ _ _ _ _ _ _ Hwf H1) as Hwf1.
  pose proof (successful_call_keeps_identities _ _ _ _ _ _ _ _ Hwf1 H2) as Hwf2.
  destruct (successful_call_allocates _ _ _ _ _ _ _ _ _ Hact H1)
    as (s1 & tr1 & Hact1 & Hsym1 & Hid1 & Hnext1 & Hop1 & Hname1 & Hargs1
        & Hkw1).
  destruct (successful_call_allocates _ _ _ _ _ _ _ _ _ Hact1 H2)
    as (s2 & tr2 & Hact2 & Hsym2 & Hid2 & Hnext2 & Hop2 & Hname2 & Hargs2
        & Hkw2).
  exists s1, s2, tr2.
  split; [exact Hact2 |].
  split; [rewrite Hsym2, Hsym1, <- app_assoc; reflexivity |].
  split; [unfold same_contents; repeat split; congruence |].
  split; [unfold Symbol_eq; apply Nat.eqb_neq; lia |].
  split; [unfold Symbol_hash; lia |].
  intros i j x y Hx Hy.
  unfold identities_allocated in Hwf2. rewrite Hact2 in Hwf2.
  destruct Hwf2 as [Hnd _].
  rewrite Symbol_eq_iff_same_object. split.
  - intro Hsame.
    rewrite NoDup_nth_error in Hnd. apply Hnd.
    + rewrite length_map. apply nth_error_Some. congruence.
    + rewrite !nth_error_map, Hx, Hy. simpl. congruence.
  - intro; subst j. congruence.
Qed.

Lemma symbols_equal_by_identity_only_witness :
  let call :=
    prims.add int_numerics
              [PTensorProxy (sample_tensor 0 [2] float32);
               PTensorProxy (sample_tensor 1 [2] float32)] [] in
  let w2 := snd (call (snd (call fresh_world))) in
  exists s1 s2 tr2,
    active_trace w2 = Some tr2 /\
    symbols tr2 = [] ++ [s1; s2] /\
    same_contents s1 s2 /\
    Symbol_eq s1 s2 = false /\
    Symbol_hash s1 <> Symbol_hash s2 /\
    (forall i j x y,
        nth_error (symbols tr2) i = Some x ->
        nth_error (symbols tr2) j = Some y ->
        (Symbol_eq x y = true <-> i = j)).
Proof.
  intros call w2.
  eapply (symbols_equal_by_identity_only
            (elementwise_binary_prim_meta
               int_numerics
               (binary_config "add" DEFAULT (Some "operator.add")))
            ADD "add"
            [PTensorProxy (sample_tensor 0 [2] float32);
             PTensorProxy (sample_tensor 1 [2] float32)] []
            fresh_world {| symbols := []; name_ctr := 10 |}).
  - reflexivity.
  - simpl. split; constructor.
  - vm_compute. reflexivity.
  - vm_compute. reflexivity.
Defined.

(* ===================================================================== *)
(** ** Elementwise primitives *)
(* ===================================================================== *)



Lemma same_shape_eq : forall a b, same_shape a b = true <-> a = b.
Proof.
  induction a as [| x a IH]; destruct b as [| y b]; simpl; split;
    try congruence; try reflexivity.
  - intro H. apply andb_true_iff in H. destruct H as [Hxy Hab].
    apply Z.eqb_eq in Hxy. apply IH in Hab. congruence.
  - intro H. inversion H; subst. rewrite Z.eqb_refl.
    apply IH. reflexivity.
Qed.

Lemma eltype_eqb_refl : forall t, eltype_eqb t t = true.
Proof.
  intros [n | d]; simpl.
  - destruct n; reflexivity.
  - unfold tensor_dtype_eqb. apply Nat.eqb_refl.
Qed.


Lemma binds_none_lookup :
  forall names kwargs name,
    binds_none names kwargs -> In name names -> lookup name kwargs = None.
Proof.
  intros names kwargs name H Hin. unfold binds_none in H.
  rewrite Forall_forall in H. exact (H name Hin).
Qed.

(** One positional operand and no keyword [a]: the operand is bound. *)
Lemma bind_operands_unary :
  forall a kwargs,
    lookup "a" kwargs = None -> bind_operands ["a"] [a] kwargs = Some [a].
Proof.
  intros a kwargs Ha. unfold bind_operands. simpl. rewrite Ha. reflexivity.
Qed.

(** Two positional operands and no keyword [a] or [b]. *)
Lemma bind_operands_binary :
  forall a b kwargs,
    lookup "a" kwargs = None -> lookup "b" kwargs = None ->
    bind_operands ["a"; "b"] [a; b] kwargs = Some [a; b].
Proof.
  intros a b kwargs Ha Hb. unfold bind_operands. simpl.
  rewrite Ha, Hb. reflexivity.
Qed.


Lemma partial_keywords_registered_kind :
  forall cfg kwargs,
    lookup "type_promotion_kind" kwargs = None ->
    kw_type_promotion_kind (partial_keywords cfg kwargs)
    = KindMember (cfg_type_promotion_kind cfg).
Proof.
  intros cfg kwargs H. unfold partial_keywords. simpl. rewrite H.
  reflexivity.
Qed.

Lemma partial_keywords_registered_handler :
  forall cfg kwargs,
    lookup "number_handler" kwargs = None ->
    kw_number_handler (partial_keywords cfg kwargs)
    = match cfg_number_handler cfg with
      | Some handler => HandlerFunction handler
      | None => HandlerNone
      end.
Proof.
  intros cfg kwargs H. unfold partial_keywords. simpl. rewrite H.
  reflexivity.
Qed.





(** The unary meta function of a primitive on a tensor, when the keywords of
    the call leave the operand and the promotion kind alone. *)
Lemma unary_meta_on_tensor :
  forall num cfg t kwargs w tr,
    active_trace w = Some tr ->
    binds_none ["a"; "type_promotion_kind"] kwargs ->
    run (elementwise_unary_prim_meta num cfg [PTensorProxy t] kwargs) w
    = (Ok (PTensorProxy
             (TensorProxy_like
                (ProxyName (name_ctr tr)) t None
                (Some (_prim_type_promotion (tp_dtype t)
                                            (cfg_type_promotion_kind cfg))))),
       minted w tr).
Proof.
  intros num cfg t kwargs w tr Hact Hkw.
  unfold elementwise_unary_prim_meta.
  rewrite bind_operands_unary
    by (apply (binds_none_lookup _ _ _ Hkw); simpl; auto).
  unfold _elementwise_unary_meta. simpl to_dtype. cbv iota.
  rewrite partial_keywords_registered_kind
    by (apply (binds_none_lookup _ _ _ Hkw); simpl; auto).
  unfold prim_type_promotion, get_trace_make_proxy_name. simpl meta_bind.
  rewrite (run_MakeProxyName_active _ _ w tr Hact). reflexivity.
Qed.

(** A unary primitive applied to a tensor, over an active trace. *)
Lemma unary_prim_on_tensor :
  forall num id cfg t kwargs w tr,
    active_trace w = Some tr ->
    binds_none ["a"; "type_promotion_kind"] kwargs ->
    exists r w',
      elementwise_unary_prim num id cfg [PTensorProxy t] kwargs w
      = (Ok (PTensorProxy r), w') /\
      tp_name r = ProxyName (name_ctr tr) /\
      tp_shape r = tp_shape t /\
      tp_device r = tp_device t /\
      tp_dtype r =
        _prim_type_promotion (tp_dtype t) (cfg_type_promotion_kind cfg).
Proof.
  intros num id cfg t kwargs w tr Hact Hkw.
  unfold elementwise_unary_prim. rewrite make_prim_after_meta.
  rewrite (unary_meta_on_tensor num cfg t kwargs w tr Hact Hkw). simpl.
  eexists. eexists. split; [reflexivity |]. simpl. auto.
Qed.

(** A binary primitive applied to two tensors of one element type, over an
    active trace: the outcome is decided by the shapes. *)
Lemma binary_prim_on_tensors :
  forall num id cfg ta tb kwargs w tr,
    active_trace w = Some tr ->
    binds_none ["a"; "b"; "type_promotion_kind"] kwargs ->
    tp_dtype ta = tp_dtype tb ->
    elementwise_binary_prim num id cfg [PTensorProxy ta; PTensorProxy tb]
                            kwargs w
    = if same_shape (tp_shape ta) (tp_shape tb)
      then
        let r :=
          TensorProxy_like
            (ProxyName (name_ctr tr)) ta None
            (Some (_prim_type_promotion (tp_dtype ta)
                                        (cfg_type_promotion_kind cfg))) in
        (Ok (PTensorProxy r),
         {| active_trace :=
              Some {| symbols :=
                        symbols tr ++
                        [{| sym_id := next_object_id w; sym_op := id;
                            sym_name := cfg_name cfg;
                            sym_outputs := [PTensorProxy r];
                            sym_args := [PTensorProxy ta; PTensorProxy tb];
                            sym_kwargs := kwargs |}];
                      name_ctr := S (name_ctr tr) |};
            next_object_id := S (next_object_id w) |})
      else (Err shape_error, minted w tr).
Proof.
  intros num id cfg ta tb kwargs w tr Hact Hkw Hdt.
  unfold elementwise_binary_prim. rewrite make_prim_after_meta.
  unfold elementwise_binary_prim_meta.
  rewrite bind_operands_binary
    by (apply (binds_none_lookup _ _ _ Hkw); simpl; auto).
  unfold _elementwise_binary_meta.
  rewrite partial_keywords_registered_kind
    by (apply (binds_none_lookup _ _ _ Hkw); simpl; auto).
  simpl. rewrite <- Hdt, eltype_eqb_refl.
  unfold get_trace_make_proxy_name. simpl meta_bind.
  rewrite (run_MakeProxyName_active _ _ w tr Hact).
  destruct (same_shape (tp_shape ta) (tp_shape tb)); simpl; reflexivity.
Qed.



(** C4: for two tensor proxies of one element type, an elementwise binary
    primitive applied to them succeeds exactly when the two shapes are
    equal.  On success the result is a tensor proxy with that shape and the
    promoted dtype; on a shape mismatch the call fails with a shape error.
    The two tensors are the positional arguments of the call, and its
    keywords bind neither an operand nor the promotion kind of the
    registration.  The nine registered binary primitives are the instances
    [prims.add], ..., [prims.sub]. *)
Theorem binary_prim_succeeds_iff_same_shape :
  forall num id cfg ta tb kwargs w tr,
    active_trace w = Some tr ->
    binds_none ["a"; "b"; "type_promotion_kind"] kwargs ->
    tp_dtype ta = tp_dtype tb ->
    let call :=
      elementwise_binary_prim num id cfg
                              [PTensorProxy ta; PTensorProxy tb] kwargs w in
    ((exists r w', call = (Ok r, w')) <-> tp_shape ta = tp_shape tb) /\
    (tp_shape ta = tp_shape tb ->
     exists r w',
       call = (Ok (PTensorProxy r), w') /\
       tp_shape r = tp_shape ta /\
       tp_dtype r =
         _prim_type_promotion (tp_dtype ta) (cfg_type_promotion_kind cfg)) /\
    (tp_shape ta <> tp_shape tb -> exists w', call = (Err shape_error, w')).
Proof.
  intros num id cfg ta tb kwargs w tr Hact Hkw Hdt call.
  assert (Hcall := binary_prim_on_tensors num id cfg ta tb kwargs w tr
                                          Hact Hkw Hdt).
  fold call in Hcall.
  destruct (same_shape (tp_shape ta) (tp_shape tb)) eqn:Hsame.
  - apply same_shape_eq in Hsame. cbv zeta in Hcall.
    split; [| split].
    + split; [intros _; exact Hsame |].
      intros _. rewrite Hcall. eexists. eexists. reflexivity.
    + intros _. rewrite Hcall. eexists. eexists.
      split; [reflexivity |]. simpl. auto.
    + intro Hne. contradiction.
  - assert (Hne : tp_shape ta <> tp_shape tb).
    { intro Heq. apply same_shape_eq in Heq. congruence. }
    split; [| split].
    + split; [| intro; contradiction].
      intros (r & w' & Hok). rewrite Hcall in Hok. discriminate.
    + intro; contradiction.
    + intros _. rewrite Hcall. eexists. reflexivity.
Qed.

Lemma binary_prim_succeeds_iff_same_shape_witness :
  let ta := sample_tensor 0 [2; 3] float32 in
  let tb := sample_tensor 1 [2; 3] float32 in
  let call :=
    prims.mul int_numerics [PTensorProxy ta; PTensorProxy tb] []
              fresh_world in
  exists r w',
    call = (Ok (PTensorProxy r), w') /\
    tp_shape r = [2; 3] /\
    tp_dtype r = TensorDtype float32.
Proof.
  intros ta tb call.
  refine (proj1 (proj2 (binary_prim_succeeds_iff_same_shape
                          int_numerics MUL
                          (binary_config "mul" DEFAULT (Some "operator.mul"))
                          ta tb [] fresh_world
                          {| symbols := []; name_ctr := 10 |}
                          eq_refl _ eq_refl))
                eq_refl).
  repeat constructor.
Defined.





(* ===================================================================== *)
(** ** Shape primitives *)
(* ===================================================================== *)

Lemma make_prim_ok :
  forall meta id name args kwargs w result w1 tr1,
    run (meta args kwargs) w = (Ok result, w1) ->
    active_trace w1 = Some tr1 ->
    exists w2 tr2,
      make_prim id name meta args kwargs w = (Ok result, w2) /\
      active_trace w2 = Some tr2.
Proof.
  intros meta id name args kwargs w result w1 tr1 Hrun Hact.
  rewrite make_prim_after_meta, Hrun. cbv zeta. rewrite Hact.
  eexists. eexists. split; reflexivity.
Qed.

Lemma make_prim_err :
  forall meta id name args kwargs w e w1,
    run (meta args kwargs) w = (Err e, w1) ->
    make_prim id name meta args kwargs w = (Err e, w1).
Proof.
  intros meta id name args kwargs w e w1 Hrun.
  rewrite make_prim_after_meta, Hrun. reflexivity.
Qed.

Lemma as_ints_py_ints :
  forall zs, as_ints (map (fun z => PNumber (VInt z)) zs) = Some zs.
Proof.
  induction zs as [| z zs IH]; simpl; [reflexivity |].
  rewrite IH. reflexivity.
Qed.

Lemma as_int_seq_py_ints : forall zs, as_int_seq (py_ints zs) = Some zs.
Proof. intro zs. apply as_ints_py_ints. Qed.

Lemma valid_shape_forallb :
  forall shape, forallb (fun l => 0 <=? l) shape = true <-> valid_shape shape.
Proof.
  intro shape. unfold valid_shape. rewrite forallb_forall, Forall_forall.
  split; intros H x Hx; specialize (H x Hx); apply Z.leb_le; exact H.
Qed.

Lemma run_check :
  forall A (cond : bool) e (k : Meta A) w,
    run (check cond e ;; k) w = if cond then run k w else (Err e, w).
Proof. intros A [] e k w; reflexivity. Qed.

(** The meta function of [reshape] on a tensor, over an active trace. *)
Lemma reshape_meta_run :
  forall a shape w tr,
    active_trace w = Some tr ->
    run (reshape_meta (PTensorProxy a) shape) w =
    if forallb (fun l => 0 <=? l) shape && (product shape =? numel a)
    then (Ok (PTensorProxy
                (TensorProxy_like (ProxyName (name_ctr tr)) a (Some shape)
                                  None)),
          minted w tr)
    else (Err shape_error, w).
Proof.
  intros a shape w tr Hact. unfold reshape_meta, check_valid_shape.
  rewrite run_check.
  destruct (forallb (fun l => 0 <=? l) shape); [| reflexivity].
  rewrite run_check. fold (product shape).
  destruct (product shape =? numel a); [| reflexivity].
  unfold get_trace_make_proxy_name. simpl meta_bind.
  rewrite (run_MakeProxyName_active _ _ w tr Hact). reflexivity.
Qed.

Lemma reshape_call :
  forall a shape_obj shape w tr,
    active_trace w = Some tr ->
    as_int_seq shape_obj = Some shape ->
    let call := prims.reshape [PTensorProxy a; shape_obj] [] w in
    (valid_shape shape /\ product shape = numel a ->
     exists w' tr',
       call = (Ok (PTensorProxy
                     (TensorProxy_like (ProxyName (name_ctr tr)) a
                                       (Some shape) None)), w') /\
       active_trace w' = Some tr') /\
    (~ (valid_shape shape /\ product shape = numel a) ->
     call = (Err shape_error, w)).
Proof.
  intros a shape_obj shape w tr Hact Hseq call.
  assert (Hrun : run (reshape_meta_fn [PTensorProxy a; shape_obj] []) w =
                 run (reshape_meta (PTensorProxy a) shape) w).
  { unfold reshape_meta_fn. simpl. rewrite Hseq. reflexivity. }
  rewrite (reshape_meta_run a shape w tr Hact) in Hrun.
  destruct (forallb (fun l => 0 <=? l) shape && (product shape =? numel a))
    eqn:Hok.
  - apply andb_true_iff in Hok. destruct Hok as [Hv Hp].
    split.
    + intros _.
      destruct (make_prim_ok reshape_meta_fn RESHAPE "reshape" _ _ _ _ _ _
                             Hrun eq_refl) as (w2 & tr2 & Hc & Ha).
      exists w2, tr2. split; assumption.
    + intro Hn. exfalso. apply Hn. split.
      * apply valid_shape_forallb. exact Hv.
      * apply Z.eqb_eq. exact Hp.
  - split.
    + intros [Hv Hp]. apply valid_shape_forallb in Hv.
      apply Z.eqb_eq in Hp. rewrite Hv, Hp in Hok. discriminate.
    + intros _. apply make_prim_err. exact Hrun.
Qed.

(** C6: [reshape(a, s)] succeeds exactly when [s] is a valid shape whose
    product is [a.numel()]; and after a successful [reshape(a, s)],
    reshaping the result to [a.shape] succeeds and yields a proxy with the
    shape, dtype and device of [a]. *)
Theorem reshape_succeeds_iff_and_round_trips :
  forall a shape_obj s w tr,
    active_trace w = Some tr ->
    as_int_seq shape_obj = Some s ->
    valid_shape (tp_shape a) ->
    let call := prims.reshape [PTensorProxy a; shape_obj] [] w in
    ((exists r w', call = (Ok r, w')) <->
     (valid_shape s /\ product s = numel a)) /\
    (forall r1 w1,
        call = (Ok r1, w1) ->
        exists t1 t2 w2,
          r1 = PTensorProxy t1 /\
          tp_shape t1 = s /\
          prims.reshape [r1; py_ints (tp_shape a)] [] w1
          = (Ok (PTensorProxy t2), w2) /\
          tp_shape t2 = tp_shape a /\
          tp_dtype t2 = tp_dtype a /\
          tp_device t2 = tp_device a).
Proof.
  intros a shape_obj s w tr Hact Hseq Hva call.
  destruct (reshape_call a shape_obj s w tr Hact Hseq) as [Hyes Hno].
  fold call in Hyes, Hno.
  assert (Hdec : (valid_shape s /\ product s = numel a) \/
                 ~ (valid_shape s /\ product s = numel a)).
  { destruct (forallb (fun l => 0 <=? l) s) eqn:Hv.
    - destruct (Z.eq_dec (product s) (numel a)) as [Hp | Hp].
      + left. split; [apply valid_shape_forallb; exact Hv | exact Hp].
      + right. intros [_ H]. contradiction.
    - right. intros [H _]. apply valid_shape_forallb in H. congruence. }
  split.
  - split.
    + intros (r & w' & Hok). destruct Hdec as [H | H]; [exact H |].
      rewrite (Hno H) in Hok. discriminate.
    + intro H. destruct (Hyes H) as (w' & tr' & Hc & _).
      eexists. eexists. exact Hc.
  - intros r1 w1 Hok.
    destruct Hdec as [H | H]; [| rewrite (Hno H) in Hok; discriminate].
    destruct (Hyes H) as (w' & tr' & Hc & Hact').
    rewrite Hc in Hok. inversion Hok; subst r1 w1.
    set (t1 := TensorProxy_like (ProxyName (name_ctr tr)) a (Some s) None).
    destruct (reshape_call t1 (py_ints (tp_shape a)) (tp_shape a) w' tr'
                           Hact' (as_int_seq_py_ints _)) as [Hyes2 _].
    destruct Hyes2 as (w2 & tr2 & Hc2 & _).
    { split; [exact Hva |]. unfold numel. simpl. symmetry. apply H. }
    exists t1. eexists. exists w2.
    split; [reflexivity |]. split; [reflexivity |].
    split; [exact Hc2 |]. simpl. auto.
Qed.

Lemma reshape_succeeds_iff_and_round_trips_witness :
  let a := sample_tensor 0 [2; 3] float32 in
  let call := prims.reshape [PTensorProxy a; py_ints [3; 2]] [] fresh_world in
  ((exists r w', call = (Ok r, w')) <->
   (valid_shape [3; 2] /\ product [3; 2] = numel a)) /\
  (forall r1 w1,
      call = (Ok r1, w1) ->
      exists t1 t2 w2,
        r1 = PTensorProxy t1 /\
        tp_shape t1 = [3; 2] /\
        prims.reshape [r1; py_ints [2; 3]] [] w1
        = (Ok (PTensorProxy t2), w2) /\
        tp_shape t2 = [2; 3] /\
        tp_dtype t2 = TensorDtype float32 /\
        tp_device t2 = "cpu").
Proof.
  intros a call.
  apply (reshape_succeeds_iff_and_round_trips
           a (py_ints [3; 2]) [3; 2] fresh_world
           {| symbols := []; name_ctr := 10 |}).
  - reflexivity.
  - reflexivity.
  - repeat constructor; simpl; lia.
Defined.

(** *** Permutations of [0..n-1] *)

Lemma In_range : forall n z, In z (range n) <-> 0 <= z < Z.of_nat n.
Proof.
  intros n z. unfold range. rewrite in_map_iff. split.
  - intros (k & Hk & Hin). apply in_seq in Hin. lia.
  - intro H. exists (Z.to_nat z). split; [lia |]. apply in_seq. lia.
Qed.

Lemma NoDup_range : forall n, NoDup (range n).
Proof.
  intro n. unfold range. apply NoDup_map_NoDup_ForallPairs.
  - intros x y _ _ H. apply Nat2Z.inj. exact H.
  - apply seq_NoDup.
Qed.

Lemma length_range : forall n, List.length (range n) = n.
Proof. intro n. unfold range. rewrite length_map. apply length_seq. Qed.

Lemma index_of_bounds :
  forall x l, In x l -> 0 <= index_of x l < Z.of_nat (List.length l).
Proof.
  intros x l. induction l as [| y l IH]; cbn [List.length index_of].
  - intros [].
  - intro H. destruct (x =? y) eqn:E; [lia |].
    destruct H as [H | H].
    + subst. rewrite Z.eqb_refl in E. discriminate.
    + specialize (IH H). lia.
Qed.

Lemma index_of_nth :
  forall x l d, In x l -> nth (Z.to_nat (index_of x l)) l d = x.
Proof.
  intros x l d. induction l as [| y l IH]; cbn [index_of].
  - intros [].
  - intro H. destruct (x =? y) eqn:E.
    + apply Z.eqb_eq in E. simpl. congruence.
    + destruct H as [H | H].
      * subst. rewrite Z.eqb_refl in E. discriminate.
      * pose proof (index_of_bounds x l H) as Hb.
        replace (Z.to_nat (1 + index_of x l))
          with (S (Z.to_nat (index_of x l))) by lia.
        simpl. apply IH. exact H.
Qed.

Lemma nth_map_in_bounds :
  forall (f : Z -> Z) l k d d',
    (k < List.length l)%nat -> nth k (map f l) d' = f (nth k l d).
Proof.
  intros f l. induction l as [| x l IH]; intros k d d' Hk; simpl in *.
  - lia.
  - destruct k as [| k]; [reflexivity |]. apply IH. lia.
Qed.

Lemma map_nth_seq :
  forall (l : list Z) d,
    map (fun k => nth k l d) (seq 0 (List.length l)) = l.
Proof.
  intros l d. induction l as [| x l IH]; simpl; [reflexivity |].
  f_equal. rewrite <- seq_shift, map_map. exact IH.
Qed.

Lemma getitem_in_range :
  forall l i,
    0 <= i < Z.of_nat (List.length l) ->
    getitem l i = Some (nth (Z.to_nat i) l 0).
Proof.
  intros l i H. unfold getitem.
  assert (Hc : (0 <=? i) && (i <? Z.of_nat (List.length l)) = true).
  { apply andb_true_iff. split; [apply Z.leb_le | apply Z.ltb_lt]; lia. }
  rewrite Hc. apply nth_error_nth'. lia.
Qed.

Lemma permute_shape_reordered :
  forall shape p,
    Forall (fun d => 0 <= d < Z.of_nat (List.length shape)) p ->
    permute_shape shape p = Some (reordered shape p).
Proof.
  intros shape p H. induction H as [| d p Hd Hp IH]; simpl; [reflexivity |].
  rewrite (getitem_in_range shape d Hd), IH. reflexivity.
Qed.

(** The checker accepts exactly the permutations of [0..n-1]. *)
Lemma is_valid_permutation_iff :
  forall n p, is_valid_permutation n p = true <-> Permutation p (range n).
Proof.
  intros n p. unfold is_valid_permutation. fold (range n).
  rewrite andb_true_iff, Nat.eqb_eq, forallb_forall. split.
  - intros [Hlen Hcount]. apply Permutation_sym.
    apply NoDup_Permutation_bis.
    + apply NoDup_range.
    + rewrite length_range. lia.
    + intros i Hi. specialize (Hcount i Hi). apply Nat.eqb_eq in Hcount.
      apply (count_occ_In Z.eq_dec). lia.
  - intro H. split.
    + rewrite (Permutation_length H). apply length_range.
    + intros i Hi. apply Nat.eqb_eq.
      rewrite (proj1 (Permutation_count_occ Z.eq_dec p (range n)) H i).
      apply NoDup_count_occ'; [apply NoDup_range | exact Hi].
Qed.

Lemma inverse_permutation_Permutation :
  forall n p,
    Permutation p (range n) -> Permutation (inverse_permutation p) (range n).
Proof.
  intros n p H.
  assert (Hlen : List.length p = n).
  { rewrite (Permutation_length H). apply length_range. }
  assert (Hin : forall x, In x (range n) -> In x p).
  { intros x Hx. eapply Permutation_in; [apply Permutation_sym; exact H |].
    exact Hx. }
  unfold inverse_permutation. rewrite Hlen.
  apply NoDup_Permutation_bis.
  - apply NoDup_map_NoDup_ForallPairs; [| apply NoDup_range].
    intros x y Hx Hy Heq.
    rewrite <- (index_of_nth x p 0 (Hin x Hx)).
    rewrite <- (index_of_nth y p 0 (Hin y Hy)).
    rewrite Heq. reflexivity.
  - rewrite length_map. lia.
  - intros z Hz. apply in_map_iff in Hz. destruct Hz as (x & Hx & Hxin).
    subst z. apply In_range. rewrite <- Hlen. apply index_of_bounds.
    apply Hin. exact Hxin.
Qed.

Lemma length_reordered :
  forall shape p, List.length (reordered shape p) = List.length p.
Proof. intros. unfold reordered. apply length_map. Qed.

(** Reordering by [p] and then by its inverse gives the shape back. *)
Lemma reordered_round_trip :
  forall shape p,
    Permutation p (range (List.length shape)) ->
    reordered (reordered shape p) (inverse_permutation p) = shape.
Proof.
  intros shape p H.
  assert (Hlen : List.length p = List.length shape).
  { rewrite (Permutation_length H). apply length_range. }
  unfold inverse_permutation. rewrite Hlen.
  unfold reordered at 1. rewrite map_map.
  transitivity (map (fun j => nth (Z.to_nat j) shape 0)
                    (range (List.length shape))).
  - apply map_ext_in. intros j Hj.
    assert (Hjp : In j p).
    { eapply Permutation_in; [apply Permutation_sym; exact H | exact Hj]. }
    pose proof (index_of_bounds j p Hjp) as Hb.
    unfold reordered.
    rewrite (nth_map_in_bounds _ p _ 0 0) by lia.
    rewrite (index_of_nth j p 0 Hjp). reflexivity.
  - unfold range. rewrite map_map.
    rewrite <- (map_nth_seq shape 0) at 2.
    apply map_ext. intro k. rewrite Nat2Z.id. reflexivity.
Qed.

(** [transpose] on a tensor and a permutation of its dimensions. *)
Lemma transpose_call :
  forall a perm_obj p w tr,
    active_trace w = Some tr ->
    as_int_seq perm_obj = Some p ->
    Permutation p (range (List.length (tp_shape a))) ->
    exists w' tr',
      prims.transpose [PTensorProxy a; perm_obj] [] w
      = (Ok (PTensorProxy
               (TensorProxy_like (ProxyName (name_ctr tr)) a
                                 (Some (reordered (tp_shape a) p)) None)),
         w') /\
      active_trace w' = Some tr'.
Proof.
  intros a perm_obj p w tr Hact Hseq Hperm.
  assert (Hlen : List.length p = List.length (tp_shape a)).
  { rewrite (Permutation_length Hperm). apply length_range. }
  assert (Hbounds :
            Forall (fun d => 0 <= d < Z.of_nat (List.length (tp_shape a))) p).
  { apply Forall_forall. intros d Hd. apply In_range.
    eapply Permutation_in; [exact Hperm | exact Hd]. }
  assert (Hrun :
            run (transpose_meta_fn [PTensorProxy a; perm_obj] []) w =
            (Ok (PTensorProxy
                   (TensorProxy_like (ProxyName (name_ctr tr)) a
                                     (Some (reordered (tp_shape a) p)) None)),
             minted w tr)).
  { unfold transpose_meta_fn. simpl. rewrite Hseq.
    unfold transpose_meta, check_valid_permutation. rewrite run_check.
    unfold ndim. rewrite Hlen, Z.eqb_refl. rewrite run_check.
    rewrite (proj2 (is_valid_permutation_iff _ _) Hperm).
    rewrite (permute_shape_reordered _ _ Hbounds).
    unfold get_trace_make_proxy_name. simpl meta_bind.
    rewrite (run_MakeProxyName_active _ _ w tr Hact). reflexivity. }
  exact (make_prim_ok transpose_meta_fn TRANSPOSE "transpose" _ _ _ _ _ _
                      Hrun eq_refl).
Qed.

(** C7: for a valid permutation [p] of the dimensions of [a],
    [transpose(a, p)] yields a proxy whose shape is the shape of [a]
    reordered by [p], and transposing that proxy by the inverse of [p]
    yields a proxy with the shape of [a]. *)
Theorem transpose_reorders_and_inverts :
  forall a perm_obj p w tr,
    active_trace w = Some tr ->
    as_int_seq perm_obj = Some p ->
    Permutation p (range (List.length (tp_shape a))) ->
    exists t1 w1,
      prims.transpose [PTensorProxy a; perm_obj] [] w
      = (Ok (PTensorProxy t1), w1) /\
      tp_shape t1 = reordered (tp_shape a) p /\
      exists t2 w2,
        prims.transpose [PTensorProxy t1; py_ints (inverse_permutation p)]
                        [] w1
        = (Ok (PTensorProxy t2), w2) /\
        tp_shape t2 = tp_shape a.
Proof.
  intros a perm_obj p w tr Hact Hseq Hperm.
  destruct (transpose_call a perm_obj p w tr Hact Hseq Hperm)
    as (w1 & tr1 & Hc1 & Hact1).
  set (t1 := TensorProxy_like (ProxyName (name_ctr tr)) a
                              (Some (reordered (tp_shape a) p)) None) in *.
  assert (Hlen : List.length p = List.length (tp_shape a)).
  { rewrite (Permutation_length Hperm). apply length_range. }
  assert (Hinv : Permutation (inverse_permutation p)
                             (range (List.length (tp_shape t1)))).
  { simpl. rewrite length_reordered, Hlen.
    apply inverse_permutation_Permutation. exact Hperm. }
  destruct (transpose_call t1 (py_ints (inverse_permutation p))
                           (inverse_permutation p) w1 tr1 Hact1
                           (as_int_seq_py_ints _) Hinv)
    as (w2 & tr2 & Hc2 & _).
  exists t1, w1. split; [exact Hc1 |]. split; [reflexivity |].
  eexists. exists w2. split; [exact Hc2 |].
  simpl. apply reordered_round_trip. exact Hperm.
Qed.

Lemma transpose_reorders_and_inverts_witness :
  let a := sample_tensor 0 [2; 3; 5] float32 in
  exists t1 w1,
    prims.transpose [PTensorProxy a; py_ints [2; 0; 1]] [] fresh_world
    = (Ok (PTensorProxy t1), w1) /\
    tp_shape t1 = [5; 2; 3] /\
    exists t2 w2,
      prims.transpose [PTensorProxy t1; py_ints [1; 2; 0]] [] w1
      = (Ok (PTensorProxy t2), w2) /\
      tp_shape t2 = [2; 3; 5].
Proof.
  intro a.
  apply (transpose_reorders_and_inverts
           a (py_ints [2; 0; 1]) [2; 0; 1] fresh_world
           {| symbols := []; name_ctr := 10 |}).
  - reflexivity.
  - reflexivity.
  - apply is_valid_permutation_iff. vm_compute. reflexivity.
Defined.

(** *** Slicing *)

Lemma true_divide_scaled_nonneg :
  forall n d s, 0 <= s -> true_divide_scaled n d s = (n * 2 ^ s, d).
Proof.
  intros n d s Hs. unfold true_divide_scaled.
  destruct (0 <=? s) eqn:E; [reflexivity | lia].
Qed.

(** Below 2^53 the scale is not negative and the scaled quotient has at
    least 53 bits. *)
Lemma true_divide_shift_spec :
  forall n d,
    0 < n < 2 ^ 53 -> 1 <= d ->
    let s := true_divide_shift n d in
    0 <= s /\ 2 ^ 52 <= n * 2 ^ s / d.
Proof.
  intros n d Hn Hd s. subst s. unfold true_divide_shift.
  assert (Ha : 0 <= Z.log2 n < 53).
  { split; [apply Z.log2_nonneg |]. apply Z.log2_lt_pow2; lia. }
  assert (Hb : 0 <= Z.log2 d) by apply Z.log2_nonneg.
  set (s0 := 52 - (Z.log2 n - Z.log2 d)).
  assert (Hs0 : 0 <= s0) by (unfold s0; lia).
  rewrite (true_divide_scaled_nonneg n d s0 Hs0).
  destruct (n * 2 ^ s0 / d <? 2 ^ 52) eqn:E.
  - split; [lia |].
    apply Z.div_le_lower_bound; [lia |].
    destruct (Z.log2_spec n) as [Hn1 _]; [lia |].
    destruct (Z.log2_spec d) as [_ Hd2]; [lia |].
    replace (s0 + 1) with (Z.log2 d + 1 + (52 - Z.log2 n))
      by (unfold s0; lia).
    rewrite Z.pow_add_r by lia.
    replace (Z.succ (Z.log2 d)) with (Z.log2 d + 1) in Hd2 by lia.
    assert (Hp : 2 ^ Z.log2 n * 2 ^ (52 - Z.log2 n) = 2 ^ 52).
    { rewrite <- Z.pow_add_r by lia. f_equal. lia. }
    assert (H1 : 0 < 2 ^ (52 - Z.log2 n)) by (apply Z.pow_pos_nonneg; lia).
    assert (H2 : 0 < 2 ^ (Z.log2 d + 1)) by (apply Z.pow_pos_nonneg; lia).
    rewrite <- Hp.
    set (A := 2 ^ Z.log2 n) in *. set (X := 2 ^ (52 - Z.log2 n)) in *.
    set (Y := 2 ^ (Z.log2 d + 1)) in *.
    assert (H3 : A * X <= n * X) by nia.
    assert (H4 : A * X * d <= n * X * Y).
    { apply Z.mul_le_mono_nonneg; nia. }
    lia.
  - split; [lia |]. apply Z.ltb_ge in E. exact E.
Qed.

(** Below 2^53 the float quotient floors to the integer quotient: rounding
    never reaches the next integer, and nothing overflows. *)
Lemma floor_true_divide_exact :
  forall n d,
    0 <= n < 2 ^ 53 -> 1 <= d -> floor_true_divide n d = Some (n / d).
Proof.
  intros n d Hn Hd. unfold floor_true_divide.
  destruct (n =? 0) eqn:E0.
  { apply Z.eqb_eq in E0. subst n. rewrite Z.div_0_l by lia. reflexivity. }
  apply Z.eqb_neq in E0.
  destruct (true_divide_shift_spec n d) as [Hs Hq]; [lia | lia |].
  set (s := true_divide_shift n d) in *.
  rewrite (true_divide_scaled_nonneg n d s Hs).
  assert (HP : 0 < 2 ^ s) by (apply Z.pow_pos_nonneg; lia).
  set (P := 2 ^ s) in *.
  set (q := n * P / d) in *.
  set (r := (n * P) mod d).
  assert (Hdiv : n * P = d * q + r) by (apply Z.div_mod; lia).
  assert (Hr : 0 <= r < d) by (apply Z.mod_pos_bound; lia).
  assert (Hqs : q / P = n / d).
  { unfold q. rewrite Z.div_div by lia.
    rewrite (Z.mul_comm d P), Z.mul_comm.
    apply Z.div_mul_cancel_l; lia. }
  assert (Hbig : 2 ^ (1024 + s) = 2 ^ 1024 * P).
  { unfold P. apply Z.pow_add_r; lia. }
  assert (H53 : 2 ^ 53 < 2 ^ 1024) by (apply Z.pow_lt_mono_r; lia).
  set (B := 2 ^ 1024) in *.
  assert (Hqle : q <= n * P).
  { unfold q. apply Z.div_le_upper_bound; [lia |]. nia. }
  destruct (0 <=? s) eqn:Es; [| lia].
  destruct ((d <? 2 * r) || ((d =? 2 * r) && Z.odd q)) eqn:Eup.
  - (* the significand is rounded up *)
    assert (Hup : d <= 2 * r).
    { apply orb_true_iff in Eup. destruct Eup as [H | H].
      - apply Z.ltb_lt in H. lia.
      - apply andb_true_iff in H. destruct H as [H _].
        apply Z.eqb_eq in H. lia. }
    destruct (2 ^ (1024 + s) <=? q + 1) eqn:Eov.
    { apply Z.leb_le in Eov. rewrite Hbig in Eov. nia. }
    f_equal. rewrite <- Hqs.
    assert (Hq1 : q = P * (q / P) + q mod P) by (apply Z.div_mod; lia).
    assert (Hqm : 0 <= q mod P < P) by (apply Z.mod_pos_bound; lia).
    destruct (Z.eq_dec (q mod P) (P - 1)) as [Hmod | Hmod].
    + (* [q + 1] a multiple of [P] would need [n >= 2 ^ 53] *)
      exfalso.
      assert (Hnd : n = d * (n / d) + n mod d) by (apply Z.div_mod; lia).
      assert (Hnm : 0 <= n mod d < d) by (apply Z.mod_pos_bound; lia).
      rewrite <- Hqs in Hnd.
      assert (Hd2 : 2 * P <= d) by nia.
      nia.
    + symmetry. apply (Z.div_unique (q + 1) P (q / P) (q mod P + 1)); lia.
  - destruct (2 ^ (1024 + s) <=? q) eqn:Eov.
    { apply Z.leb_le in Eov. rewrite Hbig in Eov. nia. }
    f_equal. exact Hqs.
Qed.

Lemma zip4_float_exact :
  forall shape starts ends strides,
    float_exact shape ->
    Forall (fun d => snd (fst d) < 2 ^ 53) (zip4 starts ends shape strides).
Proof.
  unfold zip4, float_exact.
  induction shape as [| len shape IH];
    intros [| start starts] [| stop ends] [| stride strides] HF;
    simpl; try constructor.
  - inversion HF; subst. assumption.
  - apply IH. inversion HF; subst. assumption.
Qed.

Lemma slice_new_shape_run :
  forall dims w,
    Forall (fun d => snd (fst d) < 2 ^ 53) dims ->
    (Forall slice_dim_ok dims /\
     run (slice_new_shape dims) w = (Ok (map slice_dim_length dims), w)) \/
    (~ Forall slice_dim_ok dims /\
     run (slice_new_shape dims) w = (Err bounds_error, w)).
Proof.
  intros dims w.
  induction dims as [| [[[start stop] shape] stride] rest IH]; intro Hex.
  - left. split; [constructor | reflexivity].
  - inversion Hex as [| ? ? Hlen Hex']; subst. cbn [fst snd] in Hlen.
    cbn [slice_new_shape].
    assert (Hbad : ~ slice_dim_ok (start, stop, shape, stride) ->
                   ~ Forall slice_dim_ok
                     ((start, stop, shape, stride) :: rest)).
    { intros Hn HF. inversion HF; subst. contradiction. }
    rewrite run_check. destruct (start >=? 0) eqn:E1;
      [| right; split; [apply Hbad; unfold slice_dim_ok; lia | reflexivity]].
    rewrite run_check. destruct (start <=? shape) eqn:E2;
      [| right; split; [apply Hbad; unfold slice_dim_ok; lia | reflexivity]].
    rewrite run_check. destruct (start <=? stop) eqn:E3;
      [| right; split; [apply Hbad; unfold slice_dim_ok; lia | reflexivity]].
    rewrite run_check. destruct (stop <=? shape) eqn:E4;
      [| right; split; [apply Hbad; unfold slice_dim_ok; lia | reflexivity]].
    rewrite run_check. destruct (stride >=? 1) eqn:E5;
      [| right; split; [apply Hbad; unfold slice_dim_ok; lia | reflexivity]].
    rewrite (floor_true_divide_exact (stop - start) stride) by lia.
    rewrite run_bind.
    destruct (IH Hex') as [[HF Hrun] | [HnF Hrun]]; rewrite Hrun.
    + left. split; [| reflexivity].
      constructor; [unfold slice_dim_ok; lia | exact HF].
    + right. split; [| reflexivity].
      intro HF. inversion HF; subst. contradiction.
Qed.

Lemma slice_meta_fn_positional :
  forall a starts_obj ends_obj strides starts ends,
    as_int_seq starts_obj = Some starts ->
    as_int_seq ends_obj = Some ends ->
    slice_meta_fn [a; starts_obj; ends_obj; strides_arg strides] [] =
    slice_meta a starts ends strides.
Proof.
  intros a starts_obj ends_obj strides starts ends Hs He.
  unfold slice_meta_fn. simpl. rewrite Hs, He.
  destruct strides as [s |]; simpl; [| reflexivity].
  rewrite as_ints_py_ints. reflexivity.
Qed.

(** [slice] on a tensor: the outcome is decided by [slice_ok]. *)
Lemma slice_call :
  forall a starts_obj ends_obj strides starts ends w tr,
    active_trace w = Some tr ->
    float_exact (tp_shape a) ->
    as_int_seq starts_obj = Some starts ->
    as_int_seq ends_obj = Some ends ->
    let strides' := strides_or_default (tp_shape a) strides in
    let call :=
      prims.slice_prim
        [PTensorProxy a; starts_obj; ends_obj; strides_arg strides] [] w in
    (slice_ok (tp_shape a) starts ends strides' /\
     exists w' tr',
       call = (Ok (PTensorProxy
                     (TensorProxy_like
                        (ProxyName (name_ctr tr)) a
                        (Some (map slice_dim_length
                                   (zip4 starts ends (tp_shape a) strides')))
                        None)), w') /\
       active_trace w' = Some tr') \/
    (~ slice_ok (tp_shape a) starts ends strides' /\
     call = (Err bounds_error, w)).
Proof.
  intros a starts_obj ends_obj strides starts ends w tr Hact Hex Hs He
         strides' call.
  assert (Hrun :
            run (slice_meta_fn
                   [PTensorProxy a; starts_obj; ends_obj; strides_arg strides]
                   []) w =
            if (ndim a =? Z.of_nat (List.length starts))
               && Nat.eqb (List.length starts) (List.length ends)
               && Nat.eqb (List.length ends) (List.length strides')
            then
              match run (slice_new_shape
                           (zip4 starts ends (tp_shape a) strides')) w with
              | (Ok new_shape, w1) =>
                  run (proxy_name <- get_trace_make_proxy_name ;;
                       Ret (PTensorProxy
                              (TensorProxy_like proxy_name a (Some new_shape)
                                                None))) w1
              | (Err e, w1) => (Err e, w1)
              end
            else (Err bounds_error, w)).
  { rewrite (slice_meta_fn_positional _ _ _ strides _ _ Hs He).
    unfold slice_meta. fold (strides_or_default (tp_shape a) strides).
    fold strides'. rewrite run_check.
    destruct ((ndim a =? Z.of_nat (List.length starts))
              && Nat.eqb (List.length starts) (List.length ends)
              && Nat.eqb (List.length ends) (List.length strides'));
      [| reflexivity].
    rewrite run_bind. reflexivity. }
  destruct ((ndim a =? Z.of_nat (List.length starts))
            && Nat.eqb (List.length starts) (List.length ends)
            && Nat.eqb (List.length ends) (List.length strides')) eqn:Hlen.
  - apply andb_true_iff in Hlen. destruct Hlen as [Hlen H3].
    apply andb_true_iff in Hlen. destruct Hlen as [H1 H2].
    apply Z.eqb_eq in H1. apply Nat.eqb_eq in H2, H3. unfold ndim in H1.
    apply Nat2Z.inj in H1.
    destruct (slice_new_shape_run
                (zip4 starts ends (tp_shape a) strides') w
                (zip4_float_exact _ starts ends strides' Hex))
      as [[HF Hloop] | [HnF Hloop]]; rewrite Hloop in Hrun.
    + left. split; [unfold slice_ok; repeat split; congruence |].
      unfold get_trace_make_proxy_name in Hrun. simpl meta_bind in Hrun.
      rewrite (run_MakeProxyName_active _ _ w tr Hact) in Hrun.
      cbv [run ret] in Hrun.
      exact (make_prim_ok slice_meta_fn SLICE "slice" _ _ _ _ _ _
                          Hrun eq_refl).
    + right. split; [intros (_ & _ & _ & HF); contradiction |].
      apply make_prim_err. exact Hrun.
  - right. split.
    + intros (L1 & L2 & L3 & _). unfold ndim in Hlen.
      rewrite L1, L2, L3, Z.eqb_refl, !Nat.eqb_refl in Hlen. discriminate.
    + apply make_prim_err. exact Hrun.
Qed.

(** Where the claim C8 fails.  On a tensor of shape [(2^53 + 1,)] the slice
    from 0 to [2^53 + 1] with the default stride is in bounds and should
    have the length [2^53 + 1]; the float quotient of the source rounds it
    to [2^53].  On a tensor of shape [(2^1024,)] the same slice is in bounds
    too, and the call fails: the quotient is too large for a float. *)
Lemma slice_length_goes_through_a_float :
  (exists t w',
      prims.slice_prim
        [PTensorProxy (sample_tensor 0 [9007199254740993] float32);
         py_ints [0]; py_ints [9007199254740993]; PNone] [] fresh_world
      = (Ok (PTensorProxy t), w') /\
      slice_ok [9007199254740993] [0] [9007199254740993] [1] /\
      slice_dim_length (0, 9007199254740993, 9007199254740993, 1)
      = 9007199254740993 /\
      tp_shape t = [9007199254740992]) /\
  slice_ok [2 ^ 1024] [0] [2 ^ 1024] [1] /\
  prims.slice_prim
    [PTensorProxy (sample_tensor 0 [2 ^ 1024] float32);
     py_ints [0]; py_ints [2 ^ 1024]; PNone] [] fresh_world
  = (Err scalar_evaluation_error, fresh_world).
Proof.
  split; [| split].
  - eexists. eexists. split; [vm_compute; reflexivity |].
    split; [| split; [vm_compute; reflexivity | reflexivity]].
    unfold slice_ok. repeat split. constructor; [| constructor].
    unfold slice_dim_ok. lia.
  - unfold slice_ok. repeat split. constructor; [| constructor].
    unfold slice_dim_ok.
    assert (0 < 2 ^ 1024) by (apply Z.pow_pos_nonneg; lia). lia.
  - vm_compute. reflexivity.
Qed.

(** C8: on a tensor whose lengths are below 2^53,
    [slice(a, start_indices, end_indices, strides)], with strides defaulting
    to 1 in every dimension, succeeds exactly when the three index sequences
    have the rank of [a] and, in every dimension, [0 <= start <= shape_i],
    [start <= stop <= shape_i] and [stride >= 1].  On success the length of
    each dimension of the result is [floor((stop - start) / stride)]; any
    violation fails with a bounds error.  From 2^53 on the float quotient of
    the source is no longer the exact one. *)
Theorem slice_succeeds_iff_in_bounds :
  forall a starts_obj ends_obj strides starts ends w tr,
    active_trace w = Some tr ->
    float_exact (tp_shape a) ->
    as_int_seq starts_obj = Some starts ->
    as_int_seq ends_obj = Some ends ->
    let strides' := strides_or_default (tp_shape a) strides in
    let call :=
      prims.slice_prim
        [PTensorProxy a; starts_obj; ends_obj; strides_arg strides] [] w in
    ((exists r w', call = (Ok r, w')) <->
     slice_ok (tp_shape a) starts ends strides') /\
    (slice_ok (tp_shape a) starts ends strides' ->
     exists t w',
       call = (Ok (PTensorProxy t), w') /\
       tp_shape t =
         map slice_dim_length (zip4 starts ends (tp_shape a) strides')) /\
    (~ slice_ok (tp_shape a) starts ends strides' ->
     exists w', call = (Err bounds_error, w')).
Proof.
  intros a starts_obj ends_obj strides starts ends w tr Hact Hex Hs He
         strides' call.
  destruct (slice_call a starts_obj ends_obj strides starts ends w tr
                       Hact Hex Hs He)
    as [[Hok (w' & tr' & Hc & _)] | [Hno Hc]]; subst strides' call.
  - split; [| split].
    + split; [intros _; exact Hok |].
      intros _. eexists. eexists. exact Hc.
    + intros _. eexists. eexists. split; [exact Hc | reflexivity].
    + intro H. contradiction.
  - split; [| split].
    + split; [| intro; contradiction].
      intros (r & w' & Hsucc). rewrite Hc in Hsucc. discriminate.
    + intro; contradiction.
    + intros _. eexists. exact Hc.
Qed.

Lemma slice_succeeds_iff_in_bounds_witness :
  let a := sample_tensor 0 [4] float32 in
  exists t w',
    prims.slice_prim [PTensorProxy a; py_ints [0]; py_ints [4]; py_ints [2]]
                     [] fresh_world
    = (Ok (PTensorProxy t), w') /\
    tp_shape t = [2].
Proof.
  intro a.
  refine (proj1 (proj2 (slice_succeeds_iff_in_bounds
                          a (py_ints [0]) (py_ints [4]) (Some [2]) [0] [4]
                          fresh_world {| symbols := []; name_ctr := 10 |}
                          eq_refl _ eq_refl eq_refl)) _).
  - repeat constructor.
  - unfold slice_ok. simpl. repeat split; try constructor; simpl; try lia.
    constructor.
Defined.

(* ===================================================================== *)
(** ** Matmul and embedding *)
(* ===================================================================== *)

(** C9: [matmul] on an operand of rank less than 2, and [embedding] with
    [max_norm] set to something other than None, are rejected and leave the
    context as it was, so no Symbol is recorded.  The error of the rejection
    is not the unsupported-feature error: the rejecting statement is
    [raise NotImplemented], and what the caller sees is the type error
    Python raises for it. *)
Theorem unsupported_calls_raise_a_type_error :
  (forall ta tb w,
      ndim ta < 2 \/ ndim tb < 2 ->
      prims.matmul [PTensorProxy ta; PTensorProxy tb] [] w
      = (Err type_error, w) /\
      prims.matmul [PTensorProxy ta; PTensorProxy tb] [] w
      <> (Err unsupported_feature_error, w)) /\
  (forall args kwargs a weight padding_idx max_norm norm_type
          scale_grad_by_freq sparse w,
      bind_params embedding_params args kwargs
      = Some [a; weight; padding_idx; max_norm; norm_type;
              scale_grad_by_freq; sparse] ->
      max_norm <> PNone ->
      prims.embedding args kwargs w = (Err type_error, w) /\
      prims.embedding args kwargs w <> (Err unsupported_feature_error, w)).
Proof.
  split.
  - intros ta tb w Hrank.
    assert (Hcall : prims.matmul [PTensorProxy ta; PTensorProxy tb] [] w
                    = (Err type_error, w)).
    { unfold prims.matmul. apply make_prim_err.
      unfold matmul_meta_fn. simpl.
      assert (Hc : (ndim ta <? 2) || (ndim tb <? 2) = true).
      { apply orb_true_iff. destruct Hrank as [H | H]; [left | right];
          apply Z.ltb_lt; exact H. }
      rewrite Hc. reflexivity. }
    split; [exact Hcall |]. rewrite Hcall. discriminate.
  - intros args kwargs a weight padding_idx max_norm norm_type
           scale_grad_by_freq sparse w Hbind Hmax.
    assert (Hcall : prims.embedding args kwargs w = (Err type_error, w)).
    { unfold prims.embedding. apply make_prim_err.
      unfold embedding_meta_fn. rewrite Hbind. unfold embedding_meta.
      destruct max_norm; try reflexivity. contradiction. }
    split; [exact Hcall |]. rewrite Hcall. discriminate.
Qed.

Lemma unsupported_calls_raise_a_type_error_witness :
  prims.matmul [PTensorProxy (sample_tensor 0 [3] float32);
                PTensorProxy (sample_tensor 1 [3; 4] float32)] []
               fresh_world
  = (Err type_error, fresh_world) /\
  prims.embedding [PTensorProxy (sample_tensor 0 [5] int64);
                   PTensorProxy (sample_tensor 1 [10; 8] float32)]
                  [("max_norm", PNumber (VInt 1))] fresh_world
  = (Err type_error, fresh_world).
Proof.
  split.
  - apply (proj1 unsupported_calls_raise_a_type_error).
    left. vm_compute. reflexivity.
  - eapply (proj2 unsupported_calls_raise_a_type_error).
    + reflexivity.
    + discriminate.
Defined.

(* ===================================================================== *)
(** ** The shape of the meta functions *)
(* ===================================================================== *)

Lemma vtm_check :
  forall c e k,
    validates_then_mints k -> validates_then_mints (check c e ;; k).
Proof. intros [] e k H; [exact H | exact I]. Qed.

Lemma vtm_bind :
  forall A (m : Meta A) (k : A -> Meta pyobj),
    mints_nothing m ->
    (forall a, validates_then_mints (k a)) ->
    validates_then_mints (meta_bind m k).
Proof.
  intros A [a | e | f] k Hm Hk; simpl.
  - apply Hk.
  - exact I.
  - destruct Hm.
Qed.

Lemma vtm_mint :
  forall f : proxy_name -> pyobj,
    (forall n, result_name (f n) = Some n) ->
    validates_then_mints (n <- get_trace_make_proxy_name ;; Ret (f n)).
Proof. intros f Hf n. exists (f n). split; [reflexivity | apply Hf]. Qed.

Lemma mints_nothing_check :
  forall A c e (k : Meta A), mints_nothing k -> mints_nothing (check c e ;; k).
Proof. intros A [] e k H; [exact H | exact I]. Qed.

Lemma mints_nothing_bind :
  forall A B (m : Meta A) (k : A -> Meta B),
    mints_nothing m -> (forall a, mints_nothing (k a)) ->
    mints_nothing (meta_bind m k).
Proof.
  intros A B [a | e | f] k Hm Hk; simpl; [apply Hk | exact I | destruct Hm].
Qed.

Lemma slice_new_shape_mints_nothing :
  forall dims, mints_nothing (slice_new_shape dims).
Proof.
  induction dims as [| [[[start stop] shape] stride] rest IH];
    [exact I |].
  cbn [slice_new_shape].
  repeat apply mints_nothing_check.
  destruct (floor_true_divide (stop - start) stride); [| exact I].
  apply mints_nothing_bind; [exact IH | intro; exact I].
Qed.

Lemma squeeze_shape_mints_nothing :
  forall dims shape idx, mints_nothing (squeeze_shape dims idx shape).
Proof.
  intros dims shape. induction shape as [| l rest IH]; intro idx;
    [exact I |].
  cbn [squeeze_shape]. destruct (mem idx dims).
  - apply mints_nothing_check. apply IH.
  - apply mints_nothing_bind; [apply IH | intro; exact I].
Qed.

Lemma broadcast_check_mints_nothing :
  forall shape pairs prev, mints_nothing (broadcast_check shape prev pairs).
Proof.
  intros shape pairs.
  induction pairs as [| [original_length idx] rest IH]; intro prev;
    [exact I |].
  cbn [broadcast_check]. repeat apply mints_nothing_check.
  destruct (getitem shape idx); [| exact I].
  apply mints_nothing_check. apply IH.
Qed.

Lemma linear_check_bias_mints_nothing :
  forall ta out_length bias,
    mints_nothing (linear_check_bias ta out_length bias).
Proof.
  intros ta out_length bias. destruct bias; try exact I.
  cbn [linear_check_bias]. repeat apply mints_nothing_check.
  destruct (getitem (tp_shape t) 0); [| exact I].
  apply mints_nothing_check. destruct (eltype_eqb _ _); exact I.
Qed.

Ltac vtm_step :=
  match goal with
  | |- validates_then_mints (Raise _) => exact I
  | |- validates_then_mints (check _ _ ;; _) => apply vtm_check
  | |- validates_then_mints (_ <- get_trace_make_proxy_name ;; Ret _) =>
      apply vtm_mint; intro; reflexivity
  | |- validates_then_mints (meta_bind (slice_new_shape _) _) =>
      apply vtm_bind; [apply slice_new_shape_mints_nothing | intro]
  | |- validates_then_mints (meta_bind (squeeze_shape _ _ _) _) =>
      apply vtm_bind; [apply squeeze_shape_mints_nothing | intro]
  | |- validates_then_mints (meta_bind (broadcast_check _ _ _) _) =>
      apply vtm_bind; [apply broadcast_check_mints_nothing | intro]
  | |- validates_then_mints (meta_bind (linear_check_bias _ _ _) _) =>
      apply vtm_bind; [apply linear_check_bias_mints_nothing | intro]
  | |- validates_then_mints (if ?c then _ else _) => destruct c
  | |- validates_then_mints (match ?x with _ => _ end) => destruct x
  end.

(** Every meta function but the elementwise ones and the conversion checks
    its arguments first and mints the name of its result last. *)
Lemma validating_meta_validates_then_mints :
  forall m, validating_meta m -> validates_then_mints m.
Proof.
  intros m H. destruct H.
  - exact I.
  - unfold _full_meta. repeat vtm_step.
  - unfold _iota_meta. repeat vtm_step.
  - unfold _uniform_meta. repeat vtm_step.
  - unfold broadcast_in_dim_meta. repeat vtm_step.
  - unfold reshape_meta, check_valid_shape. repeat vtm_step.
  - unfold slice_meta. repeat vtm_step.
  - unfold squeeze_meta. repeat vtm_step.
  - unfold transpose_meta, check_valid_permutation. repeat vtm_step.
  - unfold reduction_meta, _compute_reduction_output_shape.
    destruct a; try exact I. unfold check.
    destruct (forallb _ dims); cbn [meta_bind]; repeat vtm_step.
  - unfold var_meta, reduction_meta, _compute_reduction_output_shape.
    destruct a; try exact I. unfold check.
    destruct (forallb _ dims); cbn [meta_bind]; repeat vtm_step.
  - unfold linear_meta. repeat vtm_step.
  - unfold matmul_meta. repeat vtm_step.
  - unfold embedding_meta. repeat vtm_step.
Qed.

Lemma run_inactive :
  forall A (m : Meta A) w r w',
    active_trace w = None -> run m w = (r, w') -> w' = w.
Proof.
  intros A m w r w' Hact Hrun.
  destruct (run_frame _ m w r w' Hrun) as (_ & _ & H & _). auto.
Qed.

Lemma names_its_result_run :
  forall m w tr r w',
    names_its_result m ->
    active_trace w = Some tr ->
    run m w = (Ok r, w') ->
    result_name r = Some (ProxyName (name_ctr tr)) /\ w' = minted w tr.
Proof.
  intros m w tr r w' Hm Hact Hrun. destruct m as [a | e | k].
  - destruct Hm.
  - cbv [run raise] in Hrun. discriminate.
  - rewrite (run_MakeProxyName_active _ k w tr Hact) in Hrun.
    specialize (Hm (ProxyName (name_ctr tr))).
    destruct (k (ProxyName (name_ctr tr))) as [r0 | e | k0].
    + cbv [run ret] in Hrun. inversion Hrun; subst. split; [exact Hm |].
      reflexivity.
    + cbv [run raise] in Hrun. discriminate.
    + destruct Hm.
Qed.

Lemma names_its_result_never_returns_inactive :
  forall m w,
    names_its_result m ->
    active_trace w = None ->
    exists e, run m w = (Err e, w).
Proof.
  intros m w Hm Hact. destruct m as [a | e | k].
  - destruct Hm.
  - exists e. reflexivity.
  - exists context_error. apply run_MakeProxyName_inactive. exact Hact.
Qed.

Lemma validates_then_mints_names_its_result :
  forall m, validates_then_mints m -> names_its_result m.
Proof.
  intros [a | e | k] H; simpl in *; auto.
  intro n. destruct (H n) as (r & Hk & Hr). rewrite Hk. exact Hr.
Qed.

Lemma validates_then_mints_failure :
  forall m w e w',
    validates_then_mints m -> run m w = (Err e, w') -> w' = w.
Proof.
  intros m w e w' Hm Hrun. destruct m as [a | e0 | k].
  - destruct Hm.
  - cbv [run raise] in Hrun. inversion Hrun. reflexivity.
  - destruct (active_trace w) as [tr |] eqn:Hact.
    + rewrite (run_MakeProxyName_active _ k w tr Hact) in Hrun.
      destruct (Hm (ProxyName (name_ctr tr))) as (r & Hk & _).
      rewrite Hk in Hrun. cbv [run ret] in Hrun. discriminate.
    + rewrite (run_MakeProxyName_inactive _ k w Hact) in Hrun.
      inversion Hrun. reflexivity.
Qed.

Lemma number_result_leaf :
  forall num handler values result_type n,
    match number_result num handler values result_type n with
    | Ret r => result_name r = Some n
    | Raise _ => True
    | MakeProxyName _ => False
    end.
Proof.
  intros num handler values result_type n. unfold number_result.
  destruct (number_handler_apply num handler values); [| exact I].
  destruct (call_type num result_type p); [reflexivity | exact I].
Qed.

Lemma unary_meta_names_its_result :
  forall num kws a, names_its_result (_elementwise_unary_meta num kws a).
Proof.
  intros num kws a. unfold _elementwise_unary_meta.
  destruct (kw_type_promotion_kind kws) as [k | obj];
    [| destruct (to_dtype a); exact I].
  destruct a as [| v | np | t | s | xs | xs]; simpl; try exact I; intro n;
    try reflexivity;
    destruct (kw_number_handler kws); simpl; try exact I;
    apply number_result_leaf.
Qed.

Lemma binary_meta_names_its_result :
  forall num kws a b, names_its_result (_elementwise_binary_meta num kws a b).
Proof.
  intros num kws a b. unfold _elementwise_binary_meta.
  destruct (kw_type_promotion_kind kws) as [k | obj].
  2:{ destruct (negb (is_TensorProxy a || is_Number a)); [exact I |].
      destruct (negb (is_TensorProxy b || is_Number b)); [exact I |].
      destruct (check_same_dtype a b) as [[numbertype dtype] |]; [| exact I].
      destruct dtype as [d |]; [exact I |].
      destruct numbertype; exact I. }
  destruct a as [| va | na | ta | sa | xa | xa];
    destruct b as [| vb | nb | tb | sb | xb | xb]; simpl; try exact I;
    repeat (simpl;
            match goal with
            | |- True => exact I
            | |- forall _ : proxy_name, _ => intro
            | |- match number_result _ _ _ _ _ with _ => _ end =>
                apply number_result_leaf
            | |- context [check ?c _] => unfold check; destruct c
            | |- context [if ?c then _ else _] => destruct c
            | |- context [kw_number_handler kws] =>
                destruct (kw_number_handler kws)
            | |- _ = _ => reflexivity
            end).
Qed.

Lemma convert_meta_names_its_result :
  forall num a dtype,
    names_its_result (_convert_element_type_meta num a dtype).
Proof.
  intros num a dtype. unfold _convert_element_type_meta.
  destruct a as [| v | np | t | s | xs | xs]; simpl;
    try (intro n; try reflexivity; exact I);
    unfold check; destruct (is_numbertype dtype); simpl; try exact I;
    destruct (call_type num dtype _); simpl; try exact I;
    intro n; reflexivity.
Qed.

(** Every meta function of the catalog either fails before it has minted a
    name, or mints exactly one name and then fails or returns a proxy that
    carries that name. *)
Lemma catalog_meta_names_its_result :
  forall num m, catalog_meta num m -> names_its_result m.
Proof.
  intros num m H. destruct H.
  - apply validates_then_mints_names_its_result.
    apply validating_meta_validates_then_mints. assumption.
  - apply unary_meta_names_its_result.
  - apply binary_meta_names_its_result.
  - apply convert_meta_names_its_result.
Qed.

Ltac adapter_cases :=
  repeat match goal with
         | |- validating_meta (match ?x with _ => _ end) => destruct x
         | |- catalog_meta _ (match ?x with _ => _ end) => destruct x
         end.

Lemma registered_shape_metas_validating :
  forall args kwargs,
    validating_meta (reshape_meta_fn args kwargs) /\
    validating_meta (slice_meta_fn args kwargs) /\
    validating_meta (transpose_meta_fn args kwargs) /\
    validating_meta (matmul_meta_fn args kwargs) /\
    validating_meta (embedding_meta_fn args kwargs).
Proof.
  intros args kwargs.
  unfold reshape_meta_fn, slice_meta_fn, transpose_meta_fn, matmul_meta_fn,
    embedding_meta_fn.
  repeat split; adapter_cases; constructor.
Qed.

Lemma registered_elementwise_metas_in_catalog :
  forall num cfg args kwargs,
    catalog_meta num (elementwise_unary_prim_meta num cfg args kwargs) /\
    catalog_meta num (elementwise_binary_prim_meta num cfg args kwargs).
Proof.
  intros num cfg args kwargs.
  unfold elementwise_unary_prim_meta, elementwise_binary_prim_meta.
  split; adapter_cases;
    first [apply cm_unary | apply cm_binary
           | apply cm_validating; constructor].
Qed.

(* ===================================================================== *)
(** ** Further properties of recording *)
(* ===================================================================== *)

(** X1: a primitive whose meta function checks before it mints (every one
    modelled here but the elementwise ones and the conversion) aborts a
    failing call without any mutation: the context after the call is the
    context before it. *)
Theorem validating_prims_abort_without_mutation :
  forall meta id name,
    (forall args kwargs, validating_meta (meta args kwargs)) ->
    aborts_without_mutation (make_prim id name meta).
Proof.
  intros meta id name Hmeta args kwargs w e w' Hcall.
  pose proof (validating_meta_validates_then_mints _ (Hmeta args kwargs))
    as Hvtm.
  rewrite make_prim_after_meta in Hcall.
  destruct (run (meta args kwargs) w) as [[r | e1] w1] eqn:Hrun.
  - destruct (active_trace w) as [tr |] eqn:Hact.
    + destruct (names_its_result_run
                  _ w tr r w1
                  (validates_then_mints_names_its_result _ Hvtm) Hact Hrun)
        as [_ Hw1].
      subst w1. simpl in Hcall. discriminate.
    + destruct (names_its_result_never_returns_inactive
                  _ w (validates_then_mints_names_its_result _ Hvtm) Hact)
        as (e1 & He1).
      rewrite He1 in Hrun. discriminate.
  - inversion Hcall; subst.
    eapply validates_then_mints_failure; eauto.
Qed.

Lemma validating_prims_abort_without_mutation_witness :
  aborts_without_mutation prims.reshape /\
  aborts_without_mutation prims.view /\
  aborts_without_mutation prims.slice_prim /\
  aborts_without_mutation prims.transpose /\
  aborts_without_mutation prims.matmul /\
  aborts_without_mutation prims.embedding.
Proof.
  repeat split; apply validating_prims_abort_without_mutation;
    intros args kwargs; apply registered_shape_metas_validating.
Defined.

(** X2: outside a recording context no primitive call succeeds, whatever
    its meta function, and no trace becomes active; a primitive of the
    catalog fails there without any mutation. *)
Theorem no_call_succeeds_outside_a_trace :
  forall num meta id name args kwargs w,
    active_trace w = None ->
    (exists e w',
        make_prim id name meta args kwargs w = (Err e, w') /\
        active_trace w' = None) /\
    (catalog_meta num (meta args kwargs) ->
     exists e, make_prim id name meta args kwargs w = (Err e, w)).
Proof.
  intros num meta id name args kwargs w Hact.
  rewrite make_prim_after_meta. split.
  - destruct (run (meta args kwargs) w) as [[r | e] w1] eqn:Hrun;
      rewrite (run_inactive _ _ _ _ _ Hact Hrun).
    + cbv zeta. rewrite Hact. eexists. eexists. split; reflexivity.
    + eexists. eexists. split; [reflexivity | exact Hact].
  - intro Hcat.
    destruct (names_its_result_never_returns_inactive
                _ w (catalog_meta_names_its_result num _ Hcat) Hact)
      as (e & He).
    rewrite He. exists e. reflexivity.
Qed.

Lemma no_call_succeeds_outside_a_trace_witness :
  let w := {| active_trace := None; next_object_id := 3 |} in
  exists e,
    prims.add int_numerics
              [PTensorProxy (sample_tensor 0 [2] float32);
               PTensorProxy (sample_tensor 1 [2] float32)] [] w
    = (Err e, w).
Proof.
  intro w.
  apply (proj2 (no_call_succeeds_outside_a_trace
                  int_numerics
                  (elementwise_binary_prim_meta
                     int_numerics
                     (binary_config "add" DEFAULT (Some "operator.add")))
                  ADD "add"
                  [PTensorProxy (sample_tensor 0 [2] float32);
                   PTensorProxy (sample_tensor 1 [2] float32)] [] w
                  eq_refl)).
  apply cm_binary.
Defined.

(** X3: names are not reused within a trace.  A successful call of a
    primitive of the catalog returns a proxy named after the name counter
    of the trace and leaves the counter one higher, so the results of two
    calls in a row carry different names. *)
Theorem result_names_are_fresh :
  forall num meta1 id1 name1 args1 kwargs1 meta2 id2 name2 args2 kwargs2
         w tr r1 w1 r2 w2,
    catalog_meta num (meta1 args1 kwargs1) ->
    catalog_meta num (meta2 args2 kwargs2) ->
    active_trace w = Some tr ->
    make_prim id1 name1 meta1 args1 kwargs1 w = (Ok r1, w1) ->
    make_prim id2 name2 meta2 args2 kwargs2 w1 = (Ok r2, w2) ->
    result_name r1 = Some (ProxyName (name_ctr tr)) /\
    result_name r2 = Some (ProxyName (S (name_ctr tr))) /\
    result_name r1 <> result_name r2.
Proof.
  intros num meta1 id1 name1 args1 kwargs1 meta2 id2 name2 args2 kwargs2
         w tr r1 w1 r2 w2 Hc1 Hc2 Hact H1 H2.
  assert (Hstep :
            forall meta id name args kwargs w tr r w',
              catalog_meta num (meta args kwargs) ->
              active_trace w = Some tr ->
              make_prim id name meta args kwargs w = (Ok r, w') ->
              result_name r = Some (ProxyName (name_ctr tr)) /\
              exists tr', active_trace w' = Some tr' /\
                          name_ctr tr' = S (name_ctr tr)).
  { clear. intros meta id name args kwargs w tr r w' Hc Hact Hcall.
    rewrite make_prim_after_meta in Hcall.
    destruct (run (meta args kwargs) w) as [[r0 | e] w0] eqn:Hrun;
      [| discriminate].
    destruct (names_its_result_run
                _ w tr r0 w0 (catalog_meta_names_its_result num _ Hc)
                Hact Hrun) as [Hname Hw0].
    subst w0. simpl in Hcall. inversion Hcall; subst.
    split; [exact Hname |]. eexists. split; reflexivity. }
  destruct (Hstep _ _ _ _ _ _ _ _ _ Hc1 Hact H1)
    as (Hn1 & tr1 & Hact1 & Hctr1).
  destruct (Hstep _ _ _ _ _ _ _ _ _ Hc2 Hact1 H2) as (Hn2 & _).
  rewrite Hctr1 in Hn2.
  split; [exact Hn1 |]. split; [exact Hn2 |].
  rewrite Hn1, Hn2. intro H. inversion H. lia.
Qed.

Lemma result_names_are_fresh_witness :
  let r1 := PTensorProxy {| tp_name := ProxyName 10; tp_shape := [3; 2];
                            tp_device := "cpu";
                            tp_dtype := TensorDtype float32 |} in
  let r2 := PTensorProxy {| tp_name := ProxyName 11; tp_shape := [2; 3];
                            tp_device := "cpu";
                            tp_dtype := NumberType py_bool |} in
  result_name r1 = Some (ProxyName 10) /\
  result_name r2 = Some (ProxyName 11) /\
  result_name r1 <> result_name r2.
Proof.
  intros r1 r2.
  eapply (result_names_are_fresh
            int_numerics
            reshape_meta_fn RESHAPE "reshape"
            [PTensorProxy (sample_tensor 0 [2; 3] float32); py_ints [3; 2]]
            []
            (elementwise_unary_prim_meta
               int_numerics
               (unary_config "isfinite" ALWAYS_BOOL "math.isfinite"))
            ISFINITE "isfinite"
            [PTensorProxy (sample_tensor 0 [2; 3] float32)] []
            fresh_world {| symbols := []; name_ctr := 10 |} r1 _ r2 _).
  - apply cm_validating. apply vm_reshape.
  - apply cm_unary.
  - reflexivity.
  - vm_compute. reflexivity.
  - vm_compute. reflexivity.
Defined.

(** X4: the trace is append-only.  Whatever a primitive call does, succeed
    or fail, the Symbols recorded before it are still there, in order, with
    at most one Symbol after them; the name counter and the allocator of
    identities never go back, and the Symbols of the trace stay distinct
    objects. *)
Theorem every_call_only_appends :
  forall meta id name args kwargs w tr out w',
    active_trace w = Some tr ->
    make_prim id name meta args kwargs w = (out, w') ->
    (exists tr' appended,
        active_trace w' = Some tr' /\
        symbols tr' = symbols tr ++ appended /\
        (List.length appended <= 1)%nat /\
        (name_ctr tr <= name_ctr tr')%nat) /\
    (next_object_id w <= next_object_id w')%nat /\
    (identities_allocated w -> identities_allocated w').
Proof.
  intros meta id name args kwargs w tr out w' Hact Hcall.
  destruct out as [r | e].
  - destruct (successful_call_allocates _ _ _ _ _ _ _ _ _ Hact Hcall)
      as (sym & tr2 & Hact2 & Hsym & _ & Hnext & _).
    split; [| split].
    + rewrite make_prim_after_meta in Hcall.
      destruct (run (meta args kwargs) w) as [[r0 | e0] w0] eqn:Hrun;
        [| discriminate].
      destruct (run_frame _ _ _ _ _ Hrun) as (_ & _ & _ & Hctr).
      destruct (Hctr _ Hact) as (tr0 & Hact0 & _ & Hle).
      cbv zeta in Hcall. rewrite Hact0 in Hcall. inversion Hcall; subst.
      eexists. exists [sym]. simpl in Hact2. inversion Hact2; subst.
      split; [reflexivity |]. split; [exact Hsym |]. simpl. split; lia.
    + lia.
    + intro Hwf.
      exact (successful_call_keeps_identities _ _ _ _ _ _ _ _ Hwf Hcall).
  - rewrite make_prim_after_meta in Hcall.
    destruct (run (meta args kwargs) w) as [[r0 | e0] w0] eqn:Hrun.
    + destruct (run_frame _ _ _ _ _ Hrun) as (_ & _ & _ & Hctr).
      destruct (Hctr _ Hact) as (tr0 & Hact0 & _ & _).
      cbv zeta in Hcall. rewrite Hact0 in Hcall. discriminate.
    + inversion Hcall; subst.
      destruct (run_frame _ _ _ _ _ Hrun) as (Hid & _ & _ & Hctr).
      destruct (Hctr _ Hact) as (tr0 & Hact0 & Hsym0 & Hle).
      split; [| split].
      * exists tr0, []. rewrite app_nil_r. simpl. auto.
      * lia.
      * unfold identities_allocated. rewrite Hact, Hact0, Hsym0, Hid. auto.
Qed.

Lemma every_call_only_appends_witness :
  let args := [PTensorProxy (sample_tensor 0 [2] float32);
               PTensorProxy (sample_tensor 1 [3] float32)] in
  let w' := snd (prims.add int_numerics args [] fresh_world) in
  exists tr' appended,
    active_trace w' = Some tr' /\
    symbols tr' = [] ++ appended /\
    (List.length appended <= 1)%nat /\
    (10 <= name_ctr tr')%nat.
Proof.
  intros args w'.
  exact (proj1 (every_call_only_appends
                  (elementwise_binary_prim_meta
                     int_numerics
                     (binary_config "add" DEFAULT (Some "operator.add")))
                  ADD "add" args [] fresh_world
                  {| symbols := []; name_ctr := 10 |}
                  (Err shape_error) w' eq_refl eq_refl)).
Defined.

(* ===================================================================== *)
(** ** Further properties of the elementwise primitives *)
(* ===================================================================== *)

Lemma numbertype_eqb_eq :
  forall a b, numbertype_eqb a b = true <-> a = b.
Proof. intros [] []; simpl; split; congruence. Qed.

Lemma tensor_dtype_eqb_eq :
  forall a b, tensor_dtype_eqb a b = true <-> a = b.
Proof.
  intros a b. unfold tensor_dtype_eqb. rewrite Nat.eqb_eq. split.
  - destruct a, b; simpl; intro H; try reflexivity; discriminate H.
  - intros ->. reflexivity.
Qed.

Lemma eltype_eqb_eq : forall a b, eltype_eqb a b = true <-> a = b.
Proof.
  intros [x | x] [y | y]; simpl.
  - rewrite numbertype_eqb_eq. split; congruence.
  - split; discriminate.
  - split; discriminate.
  - rewrite tensor_dtype_eqb_eq. split; congruence.
Qed.

(** X5: over an active trace an elementwise unary primitive accepts every
    tensor passed by position, in a call whose keywords bind neither the
    operand nor the promotion kind.  The result is a new tensor proxy with
    the shape and device of the operand; its dtype is the promoted one,
    which under DEFAULT is the dtype of the operand. *)
Theorem unary_prim_accepts_every_tensor :
  forall num id cfg t kwargs w tr,
    active_trace w = Some tr ->
    binds_none ["a"; "type_promotion_kind"] kwargs ->
    exists r w',
      elementwise_unary_prim num id cfg [PTensorProxy t] kwargs w
      = (Ok (PTensorProxy r), w') /\
      tp_name r = ProxyName (name_ctr tr) /\
      tp_shape r = tp_shape t /\
      tp_device r = tp_device t /\
      tp_dtype r =
        _prim_type_promotion (tp_dtype t) (cfg_type_promotion_kind cfg) /\
      (cfg_type_promotion_kind cfg = DEFAULT -> tp_dtype r = tp_dtype t).
Proof.
  intros num id cfg t kwargs w tr Hact Hkw.
  destruct (unary_prim_on_tensor num id cfg t kwargs w tr Hact Hkw)
    as (r & w' & Hcall & Hname & Hshape & Hdev & Hdt).
  exists r, w'. repeat (split; [assumption |]).
  intro Hkind. rewrite Hdt, Hkind. reflexivity.
Qed.

Lemma unary_prim_accepts_every_tensor_witness :
  exists r w',
    prims.exp int_numerics [PTensorProxy (sample_tensor 0 [2; 3] float32)]
              [("name", PStr "e")] fresh_world
    = (Ok (PTensorProxy r), w') /\
    tp_name r = ProxyName 10 /\
    tp_shape r = [2; 3] /\
    tp_device r = "cpu" /\
    tp_dtype r = TensorDtype float32 /\
    (DEFAULT = DEFAULT -> tp_dtype r = TensorDtype float32).
Proof.
  refine (unary_prim_accepts_every_tensor
            int_numerics EXP (unary_config "exp" DEFAULT "math.exp")
            (sample_tensor 0 [2; 3] float32) [("name", PStr "e")]
            fresh_world {| symbols := []; name_ctr := 10 |} eq_refl _).
  repeat constructor.
Defined.

(** X6: a binary primitive registered without a number handler ([atan2],
    [bitwise_and]) accepts no two numbers, in a call that passes them by
    position and whose keywords bind no operand, no promotion kind and no
    number handler.  Two numbers of one type are rejected as unsupported,
    after the name of the result has been minted; two numbers of different
    types are rejected as a type error before anything is minted. *)
Theorem binary_prim_without_handler_rejects_numbers :
  forall num id cfg a b va vb kwargs w tr,
    active_trace w = Some tr ->
    binds_none ["a"; "b"; "type_promotion_kind"; "number_handler"] kwargs ->
    cfg_number_handler cfg = None ->
    get_numberlike_value a = Some va ->
    get_numberlike_value b = Some vb ->
    elementwise_binary_prim num id cfg [a; b] kwargs w
    = if numbertype_eqb (type_of_value va) (type_of_value vb)
      then (Err unsupported_feature_error, minted w tr)
      else (Err type_error, w).
Proof.
  intros num id cfg a b va vb kwargs w tr Hact Hkw Hh Ha Hb.
  unfold elementwise_binary_prim.
  destruct (numbertype_eqb (type_of_value va) (type_of_value vb)) eqn:E;
    apply make_prim_err;
    unfold elementwise_binary_prim_meta;
    (rewrite bind_operands_binary
      by (apply (binds_none_lookup _ _ _ Hkw); simpl; auto));
    unfold _elementwise_binary_meta;
    (rewrite partial_keywords_registered_kind
      by (apply (binds_none_lookup _ _ _ Hkw); simpl; auto));
    (rewrite partial_keywords_registered_handler
      by (apply (binds_none_lookup _ _ _ Hkw); simpl; auto));
    rewrite Hh;
    destruct a as [| v | np | t | s | xs | xs]; try discriminate;
    destruct b as [| v' | np' | t' | s' | xs' | xs']; try discriminate;
    simpl in Ha, Hb; inversion Ha; inversion Hb; subst; simpl;
    rewrite E; simpl; try reflexivity;
    cbv [bind Trace_make_proxy_name get_trace set_trace ret];
    rewrite Hact; reflexivity.
Qed.

Lemma binary_prim_without_handler_rejects_numbers_witness :
  prims.atan2 int_numerics [PNumber (VInt 1); PNumber (VInt 2)] []
              fresh_world
  = (Err unsupported_feature_error,
     minted fresh_world {| symbols := []; name_ctr := 10 |}).
Proof.
  refine (binary_prim_without_handler_rejects_numbers
            int_numerics ATAN2 (binary_config "atan2" DEFAULT None)
            (PNumber (VInt 1)) (PNumber (VInt 2)) (VInt 1) (VInt 2) []
            fresh_world {| symbols := []; name_ctr := 10 |}
            eq_refl _ eq_refl eq_refl eq_refl).
  repeat constructor.
Defined.

(** Two positional operands are bound as they are, unless a keyword of the
    call names one of them again. *)
Lemma bind_operands_two_positional :
  forall a b kwargs,
    bind_operands ["a"; "b"] [a; b] kwargs = None \/
    bind_operands ["a"; "b"] [a; b] kwargs = Some [a; b].
Proof.
  intros a b kwargs. unfold bind_operands. simpl.
  destruct (lookup "a" kwargs); destruct (lookup "b" kwargs); simpl; auto.
Qed.

(** X7: an elementwise binary primitive does not promote across dtypes: two
    tensors of different dtypes are rejected with a type error, before
    anything is minted, whatever their shapes. *)
Theorem binary_prim_rejects_mixed_dtypes :
  forall num id cfg ta tb kwargs w,
    tp_dtype ta <> tp_dtype tb ->
    elementwise_binary_prim num id cfg [PTensorProxy ta; PTensorProxy tb]
                            kwargs w
    = (Err type_error, w).
Proof.
  intros num id cfg ta tb kwargs w Hne.
  unfold elementwise_binary_prim. apply make_prim_err.
  unfold elementwise_binary_prim_meta.
  destruct (bind_operands_two_positional (PTensorProxy ta) (PTensorProxy tb)
                                         kwargs) as [Hb | Hb];
    rewrite Hb; [reflexivity |].
  unfold _elementwise_binary_meta. simpl.
  destruct (eltype_eqb (tp_dtype ta) (tp_dtype tb)) eqn:E.
  - apply eltype_eqb_eq in E. contradiction.
  - reflexivity.
Qed.

Lemma binary_prim_rejects_mixed_dtypes_witness :
  prims.add int_numerics
            [PTensorProxy (sample_tensor 0 [2] float32);
             PTensorProxy (sample_tensor 1 [2] float64)] [] fresh_world
  = (Err type_error, fresh_world).
Proof.
  apply binary_prim_rejects_mixed_dtypes. simpl. discriminate.
Defined.



(* ===================================================================== *)
(** ** Squeeze *)
(* ===================================================================== *)

Lemma mem_In : forall x l, mem x l = true <-> In x l.
Proof.
  intros x l. unfold mem. rewrite existsb_exists. split.
  - intros (y & Hy & E). apply Z.eqb_eq in E. subst. exact Hy.
  - intro H. exists x. split; [exact H | apply Z.eqb_refl].
Qed.

Lemma no_duplicates_NoDup :
  forall l, no_duplicates l = true <-> NoDup l.
Proof.
  induction l as [| x l IH]; simpl.
  - split; [constructor | reflexivity].
  - rewrite andb_true_iff, negb_true_iff, IH. split.
    + intros [Hx Hl]. constructor; [| exact Hl].
      intro Hin. apply mem_In in Hin. congruence.
    + intro H. inversion H; subst. split; [| assumption].
      destruct (mem x l) eqn:E; [| reflexivity].
      apply mem_In in E. contradiction.
Qed.

Lemma In_positions :
  forall n idx x,
    In x (positions idx n) <-> idx <= x < idx + Z.of_nat n.
Proof.
  induction n as [| n IH]; intros idx x; cbn [positions In].
  - lia.
  - rewrite IH. lia.
Qed.

Lemma NoDup_positions : forall n idx, NoDup (positions idx n).
Proof.
  induction n as [| n IH]; intro idx; cbn [positions]; constructor.
  - rewrite In_positions. lia.
  - apply IH.
Qed.

(** The loop of [squeeze_meta]: it succeeds exactly when every position
    named by [dims] holds a one, and keeps the other lengths in order. *)
Lemma squeeze_shape_run :
  forall dims shape idx w,
    (unit_at dims idx shape /\
     run (squeeze_shape dims idx shape) w
     = (Ok (without_dims dims idx shape), w)) \/
    (~ unit_at dims idx shape /\
     run (squeeze_shape dims idx shape) w = (Err shape_error, w)).
Proof.
  intros dims shape. induction shape as [| l rest IH]; intros idx w.
  - left. split; [exact I | reflexivity].
  - cbn [squeeze_shape without_dims unit_at].
    destruct (mem idx dims) eqn:Hmem.
    + rewrite run_check. destruct (l =? 1) eqn:Hl.
      * apply Z.eqb_eq in Hl.
        destruct (IH (idx + 1) w) as [[Hu Hr] | [Hu Hr]].
        -- left. split; [split; [intros _; exact Hl | exact Hu] | exact Hr].
        -- right. split; [intros [_ H]; contradiction | exact Hr].
      * apply Z.eqb_neq in Hl. right. split; [| reflexivity].
        intros [H _]. apply Hl. apply H. reflexivity.
    + rewrite run_bind.
      destruct (IH (idx + 1) w) as [[Hu Hr] | [Hu Hr]]; rewrite Hr.
      * left. split; [split; [discriminate | exact Hu] | reflexivity].
      * right. split; [intros [_ H]; contradiction | reflexivity].
Qed.

Lemma unit_at_nth :
  forall dims shape idx,
    unit_at dims idx shape <->
    (forall x, In x dims ->
               idx <= x < idx + Z.of_nat (List.length shape) ->
               nth (Z.to_nat (x - idx)) shape 0 = 1).
Proof.
  intros dims shape. induction shape as [| l rest IH]; intro idx;
    cbn [unit_at List.length].
  - split; [intros _ x _ H; lia | intros _; exact I].
  - rewrite IH. split.
    + intros [Hhere Hrest] x Hin Hx.
      destruct (Z.eq_dec x idx) as [-> | Hne].
      * rewrite Z.sub_diag. simpl. apply Hhere. apply mem_In. exact Hin.
      * replace (Z.to_nat (x - idx)) with (S (Z.to_nat (x - (idx + 1))))
          by lia.
        simpl. apply Hrest; [exact Hin | lia].
    + intro H. split.
      * intro Hmem. apply mem_In in Hmem.
        specialize (H idx Hmem). rewrite Z.sub_diag in H. simpl in H.
        apply H. lia.
      * intros x Hin Hx. specialize (H x Hin).
        replace (Z.to_nat (x - idx)) with (S (Z.to_nat (x - (idx + 1))))
          in H by lia.
        simpl in H. apply H. lia.
Qed.

Lemma squeeze_ok_unit_at :
  forall shape dims,
    Forall (fun x => 0 <= x < Z.of_nat (List.length shape)) dims ->
    (unit_at dims 0 shape <->
     Forall (fun x => nth (Z.to_nat x) shape 0 = 1) dims).
Proof.
  intros shape dims Hrange. rewrite unit_at_nth.
  rewrite Forall_forall in Hrange. rewrite Forall_forall. split.
  - intros H x Hin. specialize (H x Hin).
    rewrite Z.sub_0_r in H. apply H. specialize (Hrange x Hin). lia.
  - intros H x Hin _. rewrite Z.sub_0_r. apply H. exact Hin.
Qed.

Lemma squeeze_dims_in_range :
  forall (n : Z) dims,
    forallb (fun x => (x >=? 0) && (x <? n)) dims = true <->
    Forall (fun x => 0 <= x < n) dims.
Proof.
  intros n dims. rewrite forallb_forall, Forall_forall.
  split; intros H x Hx; specialize (H x Hx); lia.
Qed.

Lemma squeeze_meta_run :
  forall ta dims w tr,
    active_trace w = Some tr ->
    (squeeze_ok (tp_shape ta) dims /\
     run (squeeze_meta (PTensorProxy ta) dims) w
     = (Ok (PTensorProxy
              (TensorProxy_like (ProxyName (name_ctr tr)) ta
                                (Some (without_dims dims 0 (tp_shape ta)))
                                None)),
        minted w tr)) \/
    (~ squeeze_ok (tp_shape ta) dims /\
     run (squeeze_meta (PTensorProxy ta) dims) w = (Err shape_error, w)).
Proof.
  intros ta dims w tr Hact. unfold squeeze_meta, squeeze_ok.
  rewrite run_check.
  destruct (no_duplicates dims) eqn:Hnd.
  2:{ right. split; [| reflexivity].
      intros (H & _). apply no_duplicates_NoDup in H. congruence. }
  apply no_duplicates_NoDup in Hnd.
  rewrite run_check.
  destruct (forallb (fun x => (x >=? 0) && (x <? ndim ta)) dims) eqn:Hr.
  2:{ right. split; [| reflexivity].
      intros (_ & H & _). apply squeeze_dims_in_range in H.
      unfold ndim in Hr. congruence. }
  apply squeeze_dims_in_range in Hr. unfold ndim in Hr.
  rewrite run_bind.
  destruct (squeeze_shape_run dims (tp_shape ta) 0 w)
    as [[Hu Hrun] | [Hu Hrun]]; rewrite Hrun.
  - left. split.
    + repeat split; try assumption.
      apply (squeeze_ok_unit_at _ _ Hr). exact Hu.
    + unfold get_trace_make_proxy_name. simpl meta_bind.
      rewrite (run_MakeProxyName_active _ _ w tr Hact). reflexivity.
  - right. split; [| reflexivity].
    intros (_ & _ & H). apply Hu.
    apply (squeeze_ok_unit_at _ _ Hr). exact H.
Qed.

(** X9: over an active trace [squeeze(a, dims)] succeeds exactly when [dims]
    has no duplicates, every entry is a dimension index of [a], and [a] has
    length one at each of them.  The result keeps the other lengths, in
    order, and the dtype and device of [a]; anything else is rejected
    before a name is minted. *)
Theorem squeeze_succeeds_iff_unit_dims :
  forall ta dims w tr,
    active_trace w = Some tr ->
    (squeeze_ok (tp_shape ta) dims ->
     run (squeeze_meta (PTensorProxy ta) dims) w
     = (Ok (PTensorProxy
              (TensorProxy_like (ProxyName (name_ctr tr)) ta
                                (Some (without_dims dims 0 (tp_shape ta)))
                                None)),
        minted w tr)) /\
    (~ squeeze_ok (tp_shape ta) dims ->
     run (squeeze_meta (PTensorProxy ta) dims) w = (Err shape_error, w)).
Proof.
  intros ta dims w tr Hact.
  destruct (squeeze_meta_run ta dims w tr Hact) as [[Hok Hrun] | [Hno Hrun]].
  - split; [intros _; exact Hrun | intro; contradiction].
  - split; [intro; contradiction | intros _; exact Hrun].
Qed.

Lemma squeeze_succeeds_iff_unit_dims_witness :
  run (squeeze_meta (PTensorProxy (sample_tensor 0 [1; 3; 1] float32))
                    [0; 2]) fresh_world
  = (Ok (PTensorProxy {| tp_name := ProxyName 10; tp_shape := [3];
                         tp_device := "cpu";
                         tp_dtype := TensorDtype float32 |}),
     minted fresh_world {| symbols := []; name_ctr := 10 |}) /\
  run (squeeze_meta (PTensorProxy (sample_tensor 0 [1; 3; 1] float32)) [1])
      fresh_world
  = (Err shape_error, fresh_world).
Proof.
  split.
  - apply (proj1 (squeeze_succeeds_iff_unit_dims
                    (sample_tensor 0 [1; 3; 1] float32) [0; 2] fresh_world
                    {| symbols := []; name_ctr := 10 |} eq_refl)).
    unfold squeeze_ok. simpl. repeat split.
    + repeat constructor; simpl; intuition lia.
    + repeat constructor; lia.
    + repeat constructor.
  - apply (proj2 (squeeze_succeeds_iff_unit_dims
                    (sample_tensor 0 [1; 3; 1] float32) [1] fresh_world
                    {| symbols := []; name_ctr := 10 |} eq_refl)).
    unfold squeeze_ok. simpl. intros (_ & _ & H).
    inversion H; subst. discriminate.
Defined.

Lemma fold_left_mul :
  forall l a, fold_left Z.mul l a = a * product l.
Proof.
  unfold product. induction l as [| x l IH]; intro a; cbn [fold_left].
  - lia.
  - rewrite (IH (a * x)), (IH (1 * x)). lia.
Qed.

Lemma product_cons : forall x l, product (x :: l) = x * product l.
Proof.
  intros x l. unfold product at 1. cbn [fold_left].
  rewrite fold_left_mul. lia.
Qed.

Lemma product_app : forall l l', product (l ++ l') = product l * product l'.
Proof.
  induction l as [| x l IH]; intro l'.
  - cbn [app]. change (product []) with 1. lia.
  - cbn [app]. rewrite !product_cons, IH. lia.
Qed.

Lemma without_dims_product :
  forall dims shape idx,
    unit_at dims idx shape ->
    product (without_dims dims idx shape) = product shape.
Proof.
  intros dims shape. induction shape as [| l rest IH]; intros idx Hu;
    [reflexivity |].
  cbn [without_dims unit_at] in *. destruct Hu as [Hl Hrest].
  destruct (mem idx dims).
  - rewrite product_cons, (Hl eq_refl), (IH _ Hrest). lia.
  - rewrite !product_cons, (IH _ Hrest). reflexivity.
Qed.

Lemma without_dims_length :
  forall dims shape idx,
    (List.length (without_dims dims idx shape)
     + List.length (filter (fun x => mem x dims)
                           (positions idx (List.length shape))))%nat
    = List.length shape.
Proof.
  intros dims shape. induction shape as [| l rest IH]; intro idx;
    [reflexivity |].
  cbn [without_dims List.length positions filter].
  specialize (IH (idx + 1)).
  destruct (mem idx dims); cbn [List.length]; lia.
Qed.

Lemma named_positions_length :
  forall dims n,
    NoDup dims ->
    Forall (fun x => 0 <= x < Z.of_nat n) dims ->
    List.length (filter (fun x => mem x dims) (positions 0 n))
    = List.length dims.
Proof.
  intros dims n Hnd Hrange. apply Permutation_length.
  apply NoDup_Permutation.
  - apply NoDup_filter. apply NoDup_positions.
  - exact Hnd.
  - intro x. rewrite filter_In, In_positions, mem_In.
    rewrite Forall_forall in Hrange. split.
    + tauto.
    + intro H. split; [specialize (Hrange x H); lia | exact H].
Qed.

(** X10: a successful [squeeze] keeps the number of elements, the dtype and
    the device, and lowers the rank by the number of squeezed dimensions. *)
Theorem squeeze_keeps_numel_and_lowers_rank :
  forall ta dims w r w',
    run (squeeze_meta (PTensorProxy ta) dims) w = (Ok r, w') ->
    exists t,
      r = PTensorProxy t /\
      numel t = numel ta /\
      (List.length (tp_shape t) + List.length dims)%nat
      = List.length (tp_shape ta) /\
      tp_dtype t = tp_dtype ta /\
      tp_device t = tp_device ta.
Proof.
  intros ta dims w r w' Hrun.
  destruct (active_trace w) as [tr |] eqn:Hact.
  - destruct (squeeze_meta_run ta dims w tr Hact)
      as [[(Hnd & Hrange & Hunit) Hok] | [_ Hno]];
      [| rewrite Hno in Hrun; discriminate].
    rewrite Hok in Hrun. inversion Hrun; subst.
    eexists. split; [reflexivity |]. unfold numel. simpl.
    split; [| split; [| split; reflexivity]].
    + apply without_dims_product.
      apply (squeeze_ok_unit_at _ _ Hrange). exact Hunit.
    + rewrite <- (named_positions_length dims _ Hnd Hrange).
      apply without_dims_length.
  - destruct (names_its_result_never_returns_inactive
                _ w (validates_then_mints_names_its_result
                       _ (validating_meta_validates_then_mints
                            _ (vm_squeeze (PTensorProxy ta) dims))) Hact)
      as (e & He).
    rewrite He in Hrun. discriminate.
Qed.

Lemma squeeze_keeps_numel_and_lowers_rank_witness :
  let ta := sample_tensor 0 [1; 3; 1] float32 in
  exists t,
    PTensorProxy {| tp_name := ProxyName 10; tp_shape := [3];
                    tp_device := "cpu"; tp_dtype := TensorDtype float32 |}
    = PTensorProxy t /\
    numel t = numel ta /\
    (List.length (tp_shape t) + 2)%nat = 3%nat /\
    tp_dtype t = TensorDtype float32 /\
    tp_device t = "cpu".
Proof.
  intro ta.
  eapply (squeeze_keeps_numel_and_lowers_rank ta [0; 2] fresh_world).
  vm_compute. reflexivity.
Defined.

(* ===================================================================== *)
(** ** Broadcast *)
(* ===================================================================== *)

Lemma map_snd_combine :
  forall (a b : list Z),
    List.length a = List.length b -> map snd (combine a b) = b.
Proof.
  induction a as [| x a IH]; destruct b as [| y b]; simpl; intro H;
    try discriminate; [reflexivity |].
  rewrite IH by congruence. reflexivity.
Qed.

(** The loop of [broadcast_in_dim_meta], entered with [prev_idx] at least
    -1. *)
Lemma broadcast_check_run :
  forall shape pairs prev w,
    -1 <= prev ->
    (increasing_within (prev + 1) (Z.of_nat (List.length shape))
                       (map snd pairs) /\
     Forall (broadcastable shape) pairs /\
     run (broadcast_check shape prev pairs) w = (Ok tt, w)) \/
    (~ (increasing_within (prev + 1) (Z.of_nat (List.length shape))
                          (map snd pairs) /\
        Forall (broadcastable shape) pairs) /\
     run (broadcast_check shape prev pairs) w = (Err shape_error, w)).
Proof.
  intros shape pairs.
  induction pairs as [| [original_length idx] rest IH]; intros prev w Hprev.
  - left. repeat split. constructor.
  - cbn [broadcast_check map snd increasing_within].
    rewrite run_check. destruct (idx >? prev) eqn:E1.
    2:{ right. split; [intros [[H _] _]; lia | reflexivity]. }
    rewrite run_check.
    destruct (idx <? Z.of_nat (List.length shape)) eqn:E2.
    2:{ right. split; [intros [[H _] _]; lia | reflexivity]. }
    rewrite (getitem_in_range shape idx) by lia.
    rewrite run_check.
    destruct ((original_length =? 1)
              || (nth (Z.to_nat idx) shape 0 =? original_length)) eqn:E3.
    + assert (Hb : broadcastable shape (original_length, idx)).
      { unfold broadcastable. apply orb_true_iff in E3. lia. }
      destruct (IH idx w) as [(Hi & HF & Hr) | (Hn & Hr)]; [lia | |].
      * left. split; [split; [lia | exact Hi] |].
        split; [constructor; assumption | exact Hr].
      * right. split; [| exact Hr].
        intros [[_ Hi] HF]. inversion HF; subst. apply Hn. split; assumption.
    + right. split; [| reflexivity].
      intros [_ HF]. inversion HF as [| ? ? Hb _]; subst.
      unfold broadcastable in Hb. apply orb_false_iff in E3. lia.
Qed.

Lemma broadcast_in_dim_meta_run :
  forall ta shape dims w tr,
    active_trace w = Some tr ->
    (broadcast_ok (tp_shape ta) shape dims /\
     run (broadcast_in_dim_meta (PTensorProxy ta) shape dims) w
     = (Ok (PTensorProxy
              (TensorProxy_new (ProxyName (name_ctr tr)) shape
                               (tp_device ta) (tp_dtype ta))),
        minted w tr)) \/
    (~ broadcast_ok (tp_shape ta) shape dims /\
     run (broadcast_in_dim_meta (PTensorProxy ta) shape dims) w
     = (Err shape_error, w)).
Proof.
  intros ta shape dims w tr Hact.
  unfold broadcast_in_dim_meta, broadcast_ok. rewrite run_check.
  destruct (Nat.eqb (List.length (tp_shape ta)) (List.length dims)) eqn:Hlen.
  2:{ right. split; [| reflexivity].
      intros (H & _). apply Nat.eqb_neq in Hlen. contradiction. }
  apply Nat.eqb_eq in Hlen. rewrite run_bind.
  destruct (broadcast_check_run shape (combine (tp_shape ta) dims) (-1) w)
    as [(Hi & HF & Hr) | (Hn & Hr)]; [lia | |]; rewrite Hr;
    rewrite (map_snd_combine _ _ Hlen) in *.
  - left. split; [repeat split; assumption |].
    unfold get_trace_make_proxy_name. simpl meta_bind.
    rewrite (run_MakeProxyName_active _ _ w tr Hact). reflexivity.
  - right. split; [| reflexivity].
    intros (_ & Hi & HF). apply Hn. split; assumption.
Qed.

(** X11: over an active trace [broadcast_in_dim(a, shape,
    broadcast_dimensions)] succeeds exactly when there is one broadcast
    dimension for each dimension of [a], the broadcast dimensions increase
    strictly and index [shape] (a negative index is rejected), and every
    dimension of [a] has length one or the length of the dimension it is
    mapped to.  The result has the shape [shape], which is not validated
    itself, and the device and dtype of [a]; every violation is a shape
    error raised before a name is minted. *)
Theorem broadcast_in_dim_succeeds_iff :
  forall ta shape dims w tr,
    active_trace w = Some tr ->
    (broadcast_ok (tp_shape ta) shape dims ->
     run (broadcast_in_dim_meta (PTensorProxy ta) shape dims) w
     = (Ok (PTensorProxy
              (TensorProxy_new (ProxyName (name_ctr tr)) shape
                               (tp_device ta) (tp_dtype ta))),
        minted w tr)) /\
    (~ broadcast_ok (tp_shape ta) shape dims ->
     run (broadcast_in_dim_meta (PTensorProxy ta) shape dims) w
     = (Err shape_error, w)).
Proof.
  intros ta shape dims w tr Hact.
  destruct (broadcast_in_dim_meta_run ta shape dims w tr Hact)
    as [[Hok Hrun] | [Hno Hrun]].
  - split; [intros _; exact Hrun | intro; contradiction].
  - split; [intro; contradiction | intros _; exact Hrun].
Qed.

Lemma broadcast_in_dim_succeeds_iff_witness :
  run (broadcast_in_dim_meta
         (PTensorProxy (sample_tensor 0 [3; 1] float32)) [2; 3; 4] [1; 2])
      fresh_world
  = (Ok (PTensorProxy {| tp_name := ProxyName 10; tp_shape := [2; 3; 4];
                         tp_device := "cpu";
                         tp_dtype := TensorDtype float32 |}),
     minted fresh_world {| symbols := []; name_ctr := 10 |}) /\
  run (broadcast_in_dim_meta
         (PTensorProxy (sample_tensor 0 [3; 1] float32)) [2; 3; 4] [2; 1])
      fresh_world
  = (Err shape_error, fresh_world).
Proof.
  split.
  - apply (proj1 (broadcast_in_dim_succeeds_iff
                    (sample_tensor 0 [3; 1] float32) [2; 3; 4] [1; 2]
                    fresh_world {| symbols := []; name_ctr := 10 |}
                    eq_refl)).
    unfold broadcast_ok. simpl. repeat split; try lia.
    constructor; [right; reflexivity |].
    constructor; [left; reflexivity | constructor].
  - apply (proj2 (broadcast_in_dim_succeeds_iff
                    (sample_tensor 0 [3; 1] float32) [2; 3; 4] [2; 1]
                    fresh_world {| symbols := []; name_ctr := 10 |}
                    eq_refl)).
    unfold broadcast_ok. simpl. intros (_ & (_ & (H & _)) & _). lia.
Defined.

Lemma increasing_within_length :
  forall l lo hi,
    increasing_within lo hi l ->
    l = [] \/ Z.of_nat (List.length l) <= hi - lo.
Proof.
  induction l as [| x l IH]; intros lo hi H; [left; reflexivity |].
  right. cbn [increasing_within List.length] in *. destruct H as [Hx Hl].
  destruct (IH _ _ Hl) as [-> | Hlen]; simpl; lia.
Qed.

(** X12: a successful [broadcast_in_dim] never lowers the rank: the operand
    has at most as many dimensions as the target shape, which the result
    takes as it is. *)
Theorem broadcast_in_dim_never_lowers_rank :
  forall ta shape dims w r w',
    run (broadcast_in_dim_meta (PTensorProxy ta) shape dims) w = (Ok r, w') ->
    exists t,
      r = PTensorProxy t /\
      tp_shape t = shape /\
      (List.length (tp_shape ta) <= List.length (tp_shape t))%nat.
Proof.
  intros ta shape dims w r w' Hrun.
  destruct (active_trace w) as [tr |] eqn:Hact.
  - destruct (broadcast_in_dim_meta_run ta shape dims w tr Hact)
      as [[(Hlen & Hinc & _) Hok] | [_ Hno]];
      [| rewrite Hno in Hrun; discriminate].
    rewrite Hok in Hrun. inversion Hrun; subst.
    eexists. split; [reflexivity |]. split; [reflexivity |]. simpl.
    destruct (increasing_within_length _ _ _ Hinc) as [-> | H].
    + rewrite Hlen. simpl. lia.
    + lia.
  - destruct (names_its_result_never_returns_inactive
                _ w (validates_then_mints_names_its_result
                       _ (validating_meta_validates_then_mints
                            _ (vm_broadcast_in_dim (PTensorProxy ta) shape
                                                   dims))) Hact)
      as (e & He).
    rewrite He in Hrun. discriminate.
Qed.

Lemma broadcast_in_dim_never_lowers_rank_witness :
  exists t,
    PTensorProxy {| tp_name := ProxyName 10; tp_shape := [2; 3; 4];
                    tp_device := "cpu"; tp_dtype := TensorDtype float32 |}
    = PTensorProxy t /\
    tp_shape t = [2; 3; 4] /\
    (2 <= List.length (tp_shape t))%nat.
Proof.
  eapply (broadcast_in_dim_never_lowers_rank
            (sample_tensor 0 [3; 1] float32) [2; 3; 4] [1; 2] fresh_world).
  vm_compute. reflexivity.
Defined.

(* ===================================================================== *)
(** ** Further properties of slice, reshape and transpose *)
(* ===================================================================== *)

Lemma slice_lengths_within :
  forall shape starts ends strides,
    List.length starts = List.length shape ->
    List.length ends = List.length shape ->
    List.length strides = List.length shape ->
    Forall slice_dim_ok (zip4 starts ends shape strides) ->
    Forall2 (fun out len => 0 <= out <= len)
            (map slice_dim_length (zip4 starts ends shape strides)) shape.
Proof.
  induction shape as [| len shape IH];
    intros [| start starts] [| stop ends] [| stride strides] H1 H2 H3 HF;
    try discriminate; [constructor |].
  unfold zip4 in *. simpl in *. inversion HF as [| ? ? Hd HF']; subst.
  constructor.
  - unfold slice_dim_ok in Hd. unfold slice_dim_length. split.
    + apply Z.div_pos; lia.
    + transitivity (stop - start); [| lia].
      apply Z.div_le_upper_bound; [lia | nia].
  - apply IH; [lia | lia | lia | exact HF'].
Qed.

Lemma within_lengths_valid :
  forall outs lens,
    Forall2 (fun out len => 0 <= out <= len) outs lens -> valid_shape outs.
Proof.
  intros outs lens H. unfold valid_shape.
  induction H as [| out len outs lens Hout _ IH]; constructor;
    [lia | exact IH].
Qed.

(** X13: on a tensor whose lengths are below 2^53, a successful [slice]
    returns a proxy of the same rank, dtype and device whose shape is valid
    and in no dimension longer than the operand: every length of the result
    lies between 0 and the length it was cut from. *)
Theorem slice_never_grows_a_dimension :
  forall a starts_obj ends_obj strides starts ends w tr r w',
    active_trace w = Some tr ->
    float_exact (tp_shape a) ->
    as_int_seq starts_obj = Some starts ->
    as_int_seq ends_obj = Some ends ->
    prims.slice_prim
      [PTensorProxy a; starts_obj; ends_obj; strides_arg strides] [] w
    = (Ok r, w') ->
    exists t,
      r = PTensorProxy t /\
      Forall2 (fun out len => 0 <= out <= len) (tp_shape t) (tp_shape a) /\
      valid_shape (tp_shape t) /\
      tp_dtype t = tp_dtype a /\
      tp_device t = tp_device a.
Proof.
  intros a starts_obj ends_obj strides starts ends w tr r w' Hact Hex Hs He
         Hcall.
  destruct (slice_call a starts_obj ends_obj strides starts ends w tr
                       Hact Hex Hs He)
    as [[(L1 & L2 & L3 & HF) (w1 & tr1 & Hc & _)] | [_ Hc]];
    rewrite Hc in Hcall; [| discriminate].
  inversion Hcall; subst. eexists. split; [reflexivity |]. simpl.
  pose proof (slice_lengths_within _ _ _ _ L1 L2 L3 HF) as H2.
  split; [exact H2 |]. split; [| split; reflexivity].
  exact (within_lengths_valid _ _ H2).
Qed.

Lemma slice_never_grows_a_dimension_witness :
  let a := sample_tensor 0 [4; 7] float32 in
  exists t,
    PTensorProxy {| tp_name := ProxyName 10; tp_shape := [2; 1];
                    tp_device := "cpu"; tp_dtype := TensorDtype float32 |}
    = PTensorProxy t /\
    Forall2 (fun out len => 0 <= out <= len) (tp_shape t) [4; 7] /\
    valid_shape (tp_shape t) /\
    tp_dtype t = TensorDtype float32 /\
    tp_device t = "cpu".
Proof.
  intro a.
  eapply (slice_never_grows_a_dimension
            a (py_ints [0; 1]) (py_ints [4; 6]) (Some [2; 3]) [0; 1] [4; 6]
            fresh_world {| symbols := []; name_ctr := 10 |}).
  - reflexivity.
  - repeat constructor.
  - reflexivity.
  - reflexivity.
  - vm_compute. reflexivity.
Defined.

Lemma full_range_slice :
  forall shape,
    valid_shape shape ->
    Forall slice_dim_ok
           (zip4 (repeat 0 (List.length shape)) shape shape
                 (repeat 1 (List.length shape))) /\
    map slice_dim_length
        (zip4 (repeat 0 (List.length shape)) shape shape
              (repeat 1 (List.length shape))) = shape.
Proof.
  unfold zip4. induction shape as [| len shape IH]; intro Hv.
  - split; [constructor | reflexivity].
  - inversion Hv; subst. destruct (IH H2) as [HF Hmap]. simpl. split.
    + constructor; [unfold slice_dim_ok; lia | exact HF].
    + rewrite Hmap. unfold slice_dim_length.
      rewrite Z.sub_0_r, Z.div_1_r. reflexivity.
Qed.

(** X14: slicing a tensor whose lengths are below 2^53 over its full range,
    from 0 to the length of every dimension with the default strides,
    succeeds and returns a proxy with the shape of the tensor. *)
Theorem slice_of_full_range_keeps_shape :
  forall a w tr,
    active_trace w = Some tr ->
    valid_shape (tp_shape a) ->
    float_exact (tp_shape a) ->
    exists t w',
      prims.slice_prim
        [PTensorProxy a; py_ints (repeat 0 (List.length (tp_shape a)));
         py_ints (tp_shape a); PNone] [] w
      = (Ok (PTensorProxy t), w') /\
      tp_shape t = tp_shape a /\
      tp_dtype t = tp_dtype a /\
      tp_device t = tp_device a.
Proof.
  intros a w tr Hact Hv Hex.
  destruct (full_range_slice _ Hv) as [HF Hmap].
  destruct (slice_call a (py_ints (repeat 0 (List.length (tp_shape a))))
                       (py_ints (tp_shape a)) None
                       (repeat 0 (List.length (tp_shape a))) (tp_shape a)
                       w tr Hact Hex (as_int_seq_py_ints _)
                       (as_int_seq_py_ints _))
    as [[_ (w1 & tr1 & Hc & _)] | [Hno _]].
  - simpl in Hc. eexists. exists w1. split; [exact Hc |]. simpl.
    split; [exact Hmap | split; reflexivity].
  - exfalso. apply Hno. unfold slice_ok. simpl.
    rewrite !repeat_length. repeat split. exact HF.
Qed.

Lemma slice_of_full_range_keeps_shape_witness :
  let a := sample_tensor 0 [4; 7] float32 in
  exists t w',
    prims.slice_prim [PTensorProxy a; py_ints [0; 0]; py_ints [4; 7]; PNone]
                     [] fresh_world
    = (Ok (PTensorProxy t), w') /\
    tp_shape t = [4; 7] /\
    tp_dtype t = TensorDtype float32 /\
    tp_device t = "cpu".
Proof.
  intro a.
  apply (slice_of_full_range_keeps_shape
           a fresh_world {| symbols := []; name_ctr := 10 |} eq_refl).
  - repeat constructor; simpl; lia.
  - repeat constructor.
Defined.

(** X15: a successful [reshape] keeps the number of elements, and reshapes
    compose: after [reshape(a, s1)], reshaping the result to [s2] succeeds
    exactly when reshaping [a] to [s2] does. *)
Theorem reshape_keeps_numel_and_composes :
  forall a s1 s2 w tr r1 w1,
    active_trace w = Some tr ->
    prims.reshape [PTensorProxy a; py_ints s1] [] w = (Ok r1, w1) ->
    exists t1,
      r1 = PTensorProxy t1 /\
      tp_shape t1 = s1 /\
      numel t1 = numel a /\
      ((exists r2 w2,
           prims.reshape [r1; py_ints s2] [] w1 = (Ok r2, w2)) <->
       (exists r w',
           prims.reshape [PTensorProxy a; py_ints s2] [] w = (Ok r, w'))).
Proof.
  intros a s1 s2 w tr r1 w1 Hact Hcall.
  destruct (reshape_call a (py_ints s1) s1 w tr Hact (as_int_seq_py_ints _))
    as [Hyes Hno].
  assert (Hok : valid_shape s1 /\ product s1 = numel a).
  { destruct (forallb (fun l => 0 <=? l) s1) eqn:Hv.
    - destruct (Z.eq_dec (product s1) (numel a)) as [Hp | Hp].
      + split; [apply valid_shape_forallb; exact Hv | exact Hp].
      + rewrite Hno in Hcall; [discriminate | intros [_ H]; contradiction].
    - rewrite Hno in Hcall; [discriminate |].
      intros [H _]. apply valid_shape_forallb in H. congruence. }
  destruct (Hyes Hok) as (w1' & tr1 & Hc & Hact1).
  rewrite Hc in Hcall. inversion Hcall; subst r1 w1.
  set (t1 := TensorProxy_like (ProxyName (name_ctr tr)) a (Some s1) None).
  assert (Hnumel : numel t1 = numel a) by (unfold numel; simpl; apply Hok).
  exists t1. split; [reflexivity |]. split; [reflexivity |].
  split; [exact Hnumel |].
  destruct (reshape_call t1 (py_ints s2) s2 w1' tr1 Hact1
                         (as_int_seq_py_ints _)) as [Hyes1 Hno1].
  destruct (reshape_call a (py_ints s2) s2 w tr Hact (as_int_seq_py_ints _))
    as [Hyes2 Hno2].
  rewrite Hnumel in Hyes1, Hno1.
  assert (Hdec : (valid_shape s2 /\ product s2 = numel a) \/
                 ~ (valid_shape s2 /\ product s2 = numel a)).
  { destruct (forallb (fun l => 0 <=? l) s2) eqn:Hv.
    - destruct (Z.eq_dec (product s2) (numel a)) as [Hp | Hp].
      + left. split; [apply valid_shape_forallb; exact Hv | exact Hp].
      + right. intros [_ H]. contradiction.
    - right. intros [H _]. apply valid_shape_forallb in H. congruence. }
  destruct Hdec as [H | H].
  - destruct (Hyes1 H) as (wa & tra & Hca & _).
    destruct (Hyes2 H) as (wb & trb & Hcb & _).
    split; intros _; eexists; eexists; eassumption.
  - rewrite (Hno1 H), (Hno2 H).
    split; intros (r & w' & Hbad); discriminate.
Qed.

Lemma reshape_keeps_numel_and_composes_witness :
  let a := sample_tensor 0 [2; 6] float32 in
  exists t1,
    PTensorProxy {| tp_name := ProxyName 10; tp_shape := [3; 4];
                    tp_device := "cpu"; tp_dtype := TensorDtype float32 |}
    = PTensorProxy t1 /\
    tp_shape t1 = [3; 4] /\
    numel t1 = numel a.
Proof.
  intro a.
  destruct (reshape_keeps_numel_and_composes
              a [3; 4] [12] fresh_world {| symbols := []; name_ctr := 10 |}
              (PTensorProxy {| tp_name := ProxyName 10; tp_shape := [3; 4];
                               tp_device := "cpu";
                               tp_dtype := TensorDtype float32 |})
              (snd (prims.reshape [PTensorProxy a; py_ints [3; 4]] []
                                  fresh_world))
              eq_refl eq_refl) as (t1 & H1 & H2 & H3 & _).
  exists t1. auto.
Defined.

Lemma transpose_meta_run :
  forall ta p w tr,
    active_trace w = Some tr ->
    (Permutation p (range (List.length (tp_shape ta))) /\
     run (transpose_meta (PTensorProxy ta) p) w
     = (Ok (PTensorProxy
              (TensorProxy_like (ProxyName (name_ctr tr)) ta
                                (Some (reordered (tp_shape ta) p)) None)),
        minted w tr)) \/
    (~ Permutation p (range (List.length (tp_shape ta))) /\
     run (transpose_meta (PTensorProxy ta) p) w = (Err shape_error, w)).
Proof.
  intros ta p w tr Hact.
  unfold transpose_meta, check_valid_permutation. rewrite run_check.
  unfold ndim.
  destruct (Z.of_nat (List.length (tp_shape ta))
            =? Z.of_nat (List.length p)) eqn:Hlen.
  2:{ right. split; [| reflexivity]. intro H.
      apply Permutation_length in H. rewrite length_range in H. lia. }
  rewrite run_check.
  destruct (is_valid_permutation (List.length (tp_shape ta)) p) eqn:Hv.
  2:{ right. split; [| reflexivity]. intro H.
      apply is_valid_permutation_iff in H. congruence. }
  apply is_valid_permutation_iff in Hv. left. split; [exact Hv |].
  assert (Hbounds :
            Forall (fun d => 0 <= d < Z.of_nat (List.length (tp_shape ta)))
                   p).
  { apply Forall_forall. intros d Hd. apply In_range.
    eapply Permutation_in; [exact Hv | exact Hd]. }
  rewrite (permute_shape_reordered _ _ Hbounds).
  unfold get_trace_make_proxy_name. simpl meta_bind.
  rewrite (run_MakeProxyName_active _ _ w tr Hact). reflexivity.
Qed.

Lemma transpose_meta_fn_positional :
  forall a perm_obj p,
    as_int_seq perm_obj = Some p ->
    transpose_meta_fn [a; perm_obj] [] = transpose_meta a p.
Proof.
  intros a perm_obj p H. unfold transpose_meta_fn. simpl. rewrite H.
  reflexivity.
Qed.

Lemma reordered_Permutation :
  forall shape p,
    Permutation p (range (List.length shape)) ->
    Permutation (reordered shape p) shape.
Proof.
  intros shape p H. unfold reordered.
  assert (E : map (fun dim => nth (Z.to_nat dim) shape 0)
                  (range (List.length shape)) = shape).
  { unfold range. rewrite map_map.
    erewrite map_ext; [apply map_nth_seq |].
    intro k. simpl. rewrite Nat2Z.id. reflexivity. }
  eapply Permutation_trans; [apply Permutation_map; exact H |].
  rewrite E. apply Permutation_refl.
Qed.

Lemma product_Permutation :
  forall l l', Permutation l l' -> product l = product l'.
Proof.
  intros l l' H. induction H.
  - reflexivity.
  - rewrite !product_cons. congruence.
  - rewrite !product_cons. lia.
  - congruence.
Qed.

(** X16: a successful [transpose] rearranges the dimensions and nothing
    else: the shape of the result is a permutation of the shape of the
    operand, so rank and number of elements are kept, and so are dtype and
    device. *)
Theorem transpose_permutes_the_shape :
  forall a perm_obj p w tr r w',
    active_trace w = Some tr ->
    as_int_seq perm_obj = Some p ->
    prims.transpose [PTensorProxy a; perm_obj] [] w = (Ok r, w') ->
    exists t,
      r = PTensorProxy t /\
      Permutation (tp_shape t) (tp_shape a) /\
      List.length (tp_shape t) = List.length (tp_shape a) /\
      numel t = numel a /\
      tp_dtype t = tp_dtype a /\
      tp_device t = tp_device a.
Proof.
  intros a perm_obj p w tr r w' Hact Hseq Hcall.
  unfold prims.transpose in Hcall. rewrite make_prim_after_meta in Hcall.
  rewrite (transpose_meta_fn_positional _ _ _ Hseq) in Hcall.
  destruct (transpose_meta_run a p w tr Hact) as [[Hperm Hrun] | [_ Hrun]];
    rewrite Hrun in Hcall; [| discriminate].
  simpl in Hcall. inversion Hcall; subst.
  eexists. split; [reflexivity |]. simpl.
  pose proof (reordered_Permutation _ _ Hperm) as HP.
  split; [exact HP |]. split; [apply Permutation_length; exact HP |].
  split; [apply product_Permutation; exact HP |]. split; reflexivity.
Qed.

Lemma transpose_permutes_the_shape_witness :
  let a := sample_tensor 0 [2; 3; 5] float32 in
  exists t,
    PTensorProxy {| tp_name := ProxyName 10; tp_shape := [5; 2; 3];
                    tp_device := "cpu"; tp_dtype := TensorDtype float32 |}
    = PTensorProxy t /\
    Permutation (tp_shape t) [2; 3; 5] /\
    List.length (tp_shape t) = 3%nat /\
    numel t = numel a /\
    tp_dtype t = TensorDtype float32 /\
    tp_device t = "cpu".
Proof.
  intro a.
  eapply (transpose_permutes_the_shape
            a (py_ints [2; 0; 1]) [2; 0; 1] fresh_world
            {| symbols := []; name_ctr := 10 |}).
  - reflexivity.
  - reflexivity.
  - vm_compute. reflexivity.
Defined.

(** X17: [transpose] rejects whatever is not a permutation of the
    dimensions of the operand (a wrong length, a repeated, missing, negative
    or too large index) with a shape error, before a name is minted. *)
Theorem transpose_rejects_non_permutations :
  forall a perm_obj p w tr,
    active_trace w = Some tr ->
    as_int_seq perm_obj = Some p ->
    ~ Permutation p (range (List.length (tp_shape a))) ->
    prims.transpose [PTensorProxy a; perm_obj] [] w = (Err shape_error, w).
Proof.
  intros a perm_obj p w tr Hact Hseq Hno.
  unfold prims.transpose. apply make_prim_err.
  rewrite (transpose_meta_fn_positional _ _ _ Hseq).
  destruct (transpose_meta_run a p w tr Hact) as [[Hperm _] | [_ Hrun]];
    [contradiction | exact Hrun].
Qed.

Lemma transpose_rejects_non_permutations_witness :
  prims.transpose [PTensorProxy (sample_tensor 0 [2; 3; 5] float32);
                   py_ints [0; 0; -1]] [] fresh_world
  = (Err shape_error, fresh_world).
Proof.
  apply (transpose_rejects_non_permutations
           (sample_tensor 0 [2; 3; 5] float32) (py_ints [0; 0; -1])
           [0; 0; -1] fresh_world {| symbols := []; name_ctr := 10 |}
           eq_refl eq_refl).
  intro H. apply is_valid_permutation_iff in H. vm_compute in H.
  discriminate H.
Defined.

(** X18: [view] is registered with the meta function of [reshape]: on the
    same arguments the two primitives fail alike, leaving the same context,
    or succeed alike, returning the same proxy. *)
Theorem view_behaves_as_reshape :
  forall args kwargs w,
    (forall e w',
        prims.view args kwargs w = (Err e, w') <->
        prims.reshape args kwargs w = (Err e, w')) /\
    (forall r,
        (exists w', prims.view args kwargs w = (Ok r, w')) <->
        (exists w', prims.reshape args kwargs w = (Ok r, w'))).
Proof.
  intros args kwargs w. unfold prims.view, prims.reshape.
  rewrite !make_prim_after_meta.
  destruct (run (reshape_meta_fn args kwargs) w) as [[r0 | e0] w0].
  - cbv zeta. destruct (active_trace w0) as [tr0 |].
    + split.
      * intros e w'. split; discriminate.
      * intro r. split; intros (w' & H); inversion H; subst;
          eexists; reflexivity.
    + split.
      * intros e w'. split; intro H; exact H.
      * intro r. split; intros (w' & H); discriminate.
  - split.
    + intros e w'. split; intro H; exact H.
    + intro r. split; intros (w' & H); discriminate.
Qed.

(* ===================================================================== *)
(** ** Further properties of matmul, embedding and linear *)
(* ===================================================================== *)

Lemma all_but_last_two_app :
  forall batch m k, all_but_last_two (batch ++ [m; k]) = batch.
Proof.
  intros batch m k. unfold all_but_last_two. rewrite length_app. simpl.
  replace (List.length batch + 2 - 2)%nat with (List.length batch + 0)%nat
    by lia.
  rewrite firstn_app_2. simpl. apply app_nil_r.
Qed.

Lemma all_but_last_app :
  forall batch k, all_but_last (batch ++ [k]) = batch.
Proof.
  intros batch k. unfold all_but_last. rewrite length_app. simpl.
  replace (List.length batch + 1 - 1)%nat with (List.length batch + 0)%nat
    by lia.
  rewrite firstn_app_2. simpl. apply app_nil_r.
Qed.

Lemma getitem_negative :
  forall l (i : Z) (pos : nat) x,
    - Z.of_nat (List.length l) <= i < 0 ->
    Z.of_nat pos = Z.of_nat (List.length l) + i ->
    nth_error l pos = Some x ->
    getitem l i = Some x.
Proof.
  intros l i pos x Hi Hpos Hnth. unfold getitem.
  assert (H1 : (0 <=? i) && (i <? Z.of_nat (List.length l)) = false).
  { apply andb_false_iff. left. apply Z.leb_gt. lia. }
  assert (H2 : (- Z.of_nat (List.length l) <=? i) && (i <? 0) = true).
  { apply andb_true_iff. split; [apply Z.leb_le | apply Z.ltb_lt]; lia. }
  rewrite H1, H2.
  replace (Z.to_nat (Z.of_nat (List.length l) + i)) with pos by lia.
  exact Hnth.
Qed.

Lemma nth_error_after :
  forall (batch rest : list Z) j,
    nth_error (batch ++ rest) (List.length batch + j) = nth_error rest j.
Proof.
  intros batch rest j. rewrite nth_error_app2 by lia.
  replace (List.length batch + j - List.length batch)%nat with j by lia.
  reflexivity.
Qed.

Lemma getitem_last_two :
  forall batch m k,
    getitem (batch ++ [m; k]) (-1) = Some k /\
    getitem (batch ++ [m; k]) (-2) = Some m.
Proof.
  intros batch m k. split.
  - apply (getitem_negative _ _ (List.length batch + 1));
      [rewrite length_app; simpl; lia | rewrite length_app; simpl; lia |].
    rewrite nth_error_after. reflexivity.
  - apply (getitem_negative _ _ (List.length batch + 0));
      [rewrite length_app; simpl; lia | rewrite length_app; simpl; lia |].
    rewrite nth_error_after. reflexivity.
Qed.

Lemma getitem_last :
  forall batch k, getitem (batch ++ [k]) (-1) = Some k.
Proof.
  intros batch k.
  apply (getitem_negative _ _ (List.length batch + 0));
    [rewrite length_app; simpl; lia | rewrite length_app; simpl; lia |].
  rewrite nth_error_after. reflexivity.
Qed.

(** The meta function of [matmul] on two tensors of rank at least 2. *)
Lemma matmul_meta_run :
  forall ta tb batch_a m k batch_b k' n w tr,
    active_trace w = Some tr ->
    tp_shape ta = batch_a ++ [m; k] ->
    tp_shape tb = batch_b ++ [k'; n] ->
    run (matmul_meta (PTensorProxy ta) (PTensorProxy tb)) w =
    if negb (String.eqb (tp_device ta) (tp_device tb))
    then (Err device_error, w)
    else if negb (eltype_eqb (tp_dtype ta) (tp_dtype tb))
    then (Err type_error, w)
    else if negb (same_shape batch_a batch_b) then (Err shape_error, w)
    else if negb (k =? k') then (Err shape_error, w)
    else (Ok (PTensorProxy
                (TensorProxy_new (ProxyName (name_ctr tr))
                                 (batch_a ++ [m; n]) (tp_device ta)
                                 (tp_dtype ta))),
          minted w tr).
Proof.
  intros ta tb batch_a m k batch_b k' n w tr Hact Ha Hb.
  unfold matmul_meta, ndim. rewrite Ha, Hb, !length_app. simpl List.length.
  assert (H1 : (Z.of_nat (List.length batch_a + 2) <? 2) = false)
    by (apply Z.ltb_ge; lia).
  assert (H2 : (Z.of_nat (List.length batch_b + 2) <? 2) = false)
    by (apply Z.ltb_ge; lia).
  rewrite H1, H2. cbn [orb].
  rewrite run_check. destruct (String.eqb (tp_device ta) (tp_device tb));
    [| reflexivity].
  rewrite run_check. destruct (eltype_eqb (tp_dtype ta) (tp_dtype tb));
    [| reflexivity].
  rewrite run_check, !all_but_last_two_app.
  destruct (same_shape batch_a batch_b); [| reflexivity].
  destruct (getitem_last_two batch_a m k) as [Ea1 Ea2].
  destruct (getitem_last_two batch_b k' n) as [Eb1 Eb2].
  rewrite Ea1, Ea2, Eb1, Eb2. rewrite run_check.
  destruct (k =? k'); [| reflexivity].
  unfold get_trace_make_proxy_name. simpl meta_bind.
  rewrite (run_MakeProxyName_active _ _ w tr Hact). reflexivity.
Qed.

(** X19: over an active trace [matmul] on operands of rank at least 2, with
    shapes [batch_a + (m, k)] and [batch_b + (k', n)], succeeds exactly when
    the devices, the dtypes and the batch dimensions are the same and
    [k = k'].  The result has the shape [batch_a + (m, n)] and the device
    and dtype of the first operand; anything else is rejected before a name
    is minted. *)
Theorem matmul_succeeds_iff_compatible :
  forall ta tb batch_a m k batch_b k' n w tr,
    active_trace w = Some tr ->
    tp_shape ta = batch_a ++ [m; k] ->
    tp_shape tb = batch_b ++ [k'; n] ->
    let compatible :=
      tp_device ta = tp_device tb /\ tp_dtype ta = tp_dtype tb /\
      batch_a = batch_b /\ k = k' in
    let call := prims.matmul [PTensorProxy ta; PTensorProxy tb] [] w in
    (compatible ->
     exists w',
       call = (Ok (PTensorProxy
                     (TensorProxy_new (ProxyName (name_ctr tr))
                                      (batch_a ++ [m; n]) (tp_device ta)
                                      (tp_dtype ta))), w')) /\
    (~ compatible -> exists e, call = (Err e, w)).
Proof.
  intros ta tb batch_a m k batch_b k' n w tr Hact Ha Hb compatible call.
  pose proof (matmul_meta_run ta tb batch_a m k batch_b k' n w tr
                              Hact Ha Hb) as Hrun.
  subst compatible call. unfold prims.matmul.
  destruct (String.eqb (tp_device ta) (tp_device tb)) eqn:Hdev;
    cbn [negb] in Hrun.
  2:{ split.
      - intros (H & _). apply String.eqb_neq in Hdev. contradiction.
      - intros _. eexists. apply make_prim_err. exact Hrun. }
  apply String.eqb_eq in Hdev.
  destruct (eltype_eqb (tp_dtype ta) (tp_dtype tb)) eqn:Hdt;
    cbn [negb] in Hrun.
  2:{ split.
      - intros (_ & H & _). apply eltype_eqb_eq in H. congruence.
      - intros _. eexists. apply make_prim_err. exact Hrun. }
  apply eltype_eqb_eq in Hdt.
  destruct (same_shape batch_a batch_b) eqn:Hb'; cbn [negb] in Hrun.
  2:{ split.
      - intros (_ & _ & H & _). apply same_shape_eq in H. congruence.
      - intros _. eexists. apply make_prim_err. exact Hrun. }
  apply same_shape_eq in Hb'.
  destruct (k =? k') eqn:Hk; cbn [negb] in Hrun.
  2:{ split.
      - intros (_ & _ & _ & H). apply Z.eqb_neq in Hk. contradiction.
      - intros _. eexists. apply make_prim_err. exact Hrun. }
  apply Z.eqb_eq in Hk. split.
  - intros _.
    destruct (make_prim_ok matmul_meta_fn MATMUL "matmul"
                           [PTensorProxy ta; PTensorProxy tb] [] w _ _ _
                           Hrun eq_refl) as (w2 & tr2 & Hc & _).
    exists w2. exact Hc.
  - intro Hn. exfalso. apply Hn. auto.
Qed.

Lemma matmul_succeeds_iff_compatible_witness :
  exists w',
    prims.matmul [PTensorProxy (sample_tensor 0 [2; 3; 4] float32);
                  PTensorProxy (sample_tensor 1 [2; 4; 5] float32)] []
                 fresh_world
    = (Ok (PTensorProxy {| tp_name := ProxyName 10; tp_shape := [2; 3; 5];
                           tp_device := "cpu";
                           tp_dtype := TensorDtype float32 |}), w').
Proof.
  apply (proj1 (matmul_succeeds_iff_compatible
                  (sample_tensor 0 [2; 3; 4] float32)
                  (sample_tensor 1 [2; 4; 5] float32)
                  [2] 3 4 [2] 4 5 fresh_world
                  {| symbols := []; name_ctr := 10 |}
                  eq_refl eq_refl eq_refl)).
  repeat split.
Defined.

(** X20: over an active trace [embedding] with [max_norm] left at None
    accepts a tensor of dtype int64 and a weight of rank 2, whatever the
    padding index is: the result has the shape of the indices followed by
    the second dimension of the weight, and the dtype and device of the
    weight.  Indices of another dtype are a type error and a weight of
    another rank a shape error, both raised before a name is minted. *)
Theorem embedding_appends_the_weight_width :
  forall ta tw padding_idx w tr,
    active_trace w = Some tr ->
    let call :=
      prims.embedding [PTensorProxy ta; PTensorProxy tw; padding_idx] [] w in
    (forall rows width,
        tp_dtype ta = TensorDtype int64 ->
        tp_shape tw = [rows; width] ->
        exists w',
          call = (Ok (PTensorProxy
                        (TensorProxy_new (ProxyName (name_ctr tr))
                                         (tp_shape ta ++ [width])
                                         (tp_device tw) (tp_dtype tw))),
                  w')) /\
    (tp_dtype ta <> TensorDtype int64 -> call = (Err type_error, w)) /\
    (tp_dtype ta = TensorDtype int64 ->
     List.length (tp_shape tw) <> 2%nat ->
     call = (Err shape_error, w)).
Proof.
  intros ta tw padding_idx w tr Hact call. subst call.
  unfold prims.embedding.
  assert (Hfn : embedding_meta_fn
                  [PTensorProxy ta; PTensorProxy tw; padding_idx] [] =
                (check (eltype_eqb (tp_dtype ta) (TensorDtype int64))
                       type_error ;;
                 check (ndim tw =? 2) shape_error ;;
                 match getitem (tp_shape tw) 1 with
                 | Some width =>
                     proxy_name <- get_trace_make_proxy_name ;;
                     Ret (PTensorProxy
                            (TensorProxy_new proxy_name
                                             (tp_shape ta ++ [width])
                                             (tp_device tw) (tp_dtype tw)))
                 | None => Raise shape_error
                 end)) by reflexivity.
  repeat split.
  - intros rows width Hdt Hshape.
    assert (Hrun :
              run (embedding_meta_fn
                     [PTensorProxy ta; PTensorProxy tw; padding_idx] []) w =
              (Ok (PTensorProxy
                     (TensorProxy_new (ProxyName (name_ctr tr))
                                      (tp_shape ta ++ [width])
                                      (tp_device tw) (tp_dtype tw))),
               minted w tr)).
    { rewrite Hfn, run_check, Hdt. simpl eltype_eqb. cbv iota.
      rewrite run_check. unfold ndim. rewrite Hshape.
      change (Z.of_nat (List.length [rows; width]) =? 2) with true.
      change (getitem [rows; width] 1) with (Some width). cbv iota.
      unfold get_trace_make_proxy_name. simpl meta_bind.
      rewrite (run_MakeProxyName_active _ _ w tr Hact). reflexivity. }
    destruct (make_prim_ok embedding_meta_fn EMBEDDING "embedding" _ _ _ _ _ _
                           Hrun eq_refl) as (w2 & tr2 & Hc & _).
    exists w2. exact Hc.
  - intro Hdt. apply make_prim_err. rewrite Hfn, run_check.
    destruct (eltype_eqb (tp_dtype ta) (TensorDtype int64)) eqn:E;
      [| reflexivity].
    apply eltype_eqb_eq in E. contradiction.
  - intros Hdt Hrank. apply make_prim_err. rewrite Hfn, run_check, Hdt.
    simpl eltype_eqb. cbv iota. rewrite run_check. unfold ndim.
    destruct (Z.of_nat (List.length (tp_shape tw)) =? 2) eqn:E;
      [| reflexivity].
    apply Z.eqb_eq in E. lia.
Qed.

Lemma embedding_appends_the_weight_width_witness :
  exists w',
    prims.embedding [PTensorProxy (sample_tensor 0 [5; 7] int64);
                     PTensorProxy (sample_tensor 1 [10; 8] float32);
                     PNumber (VInt 99)] [] fresh_world
    = (Ok (PTensorProxy {| tp_name := ProxyName 10; tp_shape := [5; 7; 8];
                           tp_device := "cpu";
                           tp_dtype := TensorDtype float32 |}), w').
Proof.
  exact (proj1 (embedding_appends_the_weight_width
                  (sample_tensor 0 [5; 7] int64)
                  (sample_tensor 1 [10; 8] float32) (PNumber (VInt 99))
                  fresh_world {| symbols := []; name_ctr := 10 |} eq_refl)
               10 8 eq_refl eq_refl).
Defined.

Lemma mints_nothing_run :
  forall A (m : Meta A) w,
    mints_nothing m ->
    (exists a, m = Ret a /\ run m w = (Ok a, w)) \/
    (exists e, m = Raise e /\ run m w = (Err e, w)).
Proof.
  intros A [a | e | k] w H.
  - left. exists a. split; reflexivity.
  - right. exists e. split; reflexivity.
  - destruct H.
Qed.

Lemma linear_check_bias_run :
  forall ta out_length bias w,
    (bias_ok ta out_length bias /\
     run (linear_check_bias ta out_length bias) w = (Ok tt, w)) \/
    (~ bias_ok ta out_length bias /\
     exists e, run (linear_check_bias ta out_length bias) w = (Err e, w)).
Proof.
  intros ta out_length bias w. unfold bias_ok.
  destruct bias as [| v | np | tb | s | xs | xs];
    try (right; split;
         [intros [H | (tb' & H & _)]; discriminate
         | eexists; reflexivity]).
  - left. split; [left; reflexivity | reflexivity].
  - cbn [linear_check_bias].
    assert (Hbad :
              forall P : Prop,
                (tp_device tb = tp_device ta -> tp_shape tb = [out_length] ->
                 tp_dtype tb = tp_dtype ta -> P) ->
                (PTensorProxy tb = PNone \/
                 (exists tb0,
                     PTensorProxy tb = PTensorProxy tb0 /\
                     tp_device tb0 = tp_device ta /\
                     tp_shape tb0 = [out_length] /\
                     tp_dtype tb0 = tp_dtype ta)) -> P).
    { intros P HP [H | (tb0 & H & H1 & H2 & H3)]; [discriminate |].
      inversion H; subst. auto. }
    rewrite run_check.
    destruct (String.eqb (tp_device ta) (tp_device tb)) eqn:Hdev.
    2:{ right. split; [| eexists; reflexivity].
        unfold not; apply (Hbad False). intros H _ _. apply String.eqb_neq in Hdev.
        congruence. }
    apply String.eqb_eq in Hdev. rewrite run_check.
    destruct (tp_shape tb) as [| b0 [| b1 rest]] eqn:Hshape; simpl Nat.eqb;
      cbv iota.
    + right. split; [| eexists; reflexivity].
      unfold not; apply (Hbad False). intros _ H _. discriminate.
    + change (getitem [b0] 0) with (Some b0). cbv iota. rewrite run_check.
      destruct (b0 =? out_length) eqn:Hb.
      2:{ right. split; [| eexists; reflexivity].
          unfold not; apply (Hbad False). intros _ H _. inversion H. apply Z.eqb_neq in Hb.
          contradiction. }
      apply Z.eqb_eq in Hb. subst b0.
      destruct (eltype_eqb (tp_dtype tb) (tp_dtype ta)) eqn:Hdt.
      * apply eltype_eqb_eq in Hdt. left. split; [| reflexivity].
        right. exists tb. auto.
      * right. split; [| eexists; reflexivity].
        unfold not; apply (Hbad False). intros _ _ H. apply eltype_eqb_eq in H. congruence.
    + right. split; [| eexists; reflexivity].
      unfold not; apply (Hbad False). intros _ H _. discriminate.
Qed.

(** The meta function of [linear] on an input of rank at least 1 and a
    weight of rank 2. *)
Lemma linear_meta_run :
  forall ta tw bias batch k out k' w tr,
    active_trace w = Some tr ->
    tp_shape ta = batch ++ [k] ->
    tp_shape tw = [out; k'] ->
    run (linear_meta (PTensorProxy ta) (PTensorProxy tw) bias) w =
    if negb (String.eqb (tp_device ta) (tp_device tw))
    then (Err device_error, w)
    else if negb (eltype_eqb (tp_dtype ta) (tp_dtype tw))
    then (Err type_error, w)
    else if negb (k' =? k) then (Err shape_error, w)
    else match run (linear_check_bias ta out bias) w with
         | (Ok _, _) =>
             (Ok (PTensorProxy
                    (TensorProxy_new (ProxyName (name_ctr tr))
                                     (batch ++ [out]) (tp_device ta)
                                     (tp_dtype ta))),
              minted w tr)
         | (Err e, _) => (Err e, w)
         end.
Proof.
  intros ta tw bias batch k out k' w tr Hact Ha Hw.
  unfold linear_meta. rewrite run_check.
  destruct (String.eqb (tp_device ta) (tp_device tw)); [| reflexivity].
  rewrite run_check.
  destruct (eltype_eqb (tp_dtype ta) (tp_dtype tw)); [| reflexivity].
  rewrite Ha, getitem_last, all_but_last_app, Hw.
  change (Nat.eqb (List.length [out; k']) 2) with true.
  change (getitem [out; k'] 1) with (Some k').
  change (getitem [out; k'] 0) with (Some out).
  cbv iota. rewrite !run_check.
  destruct (k' =? k); [| reflexivity]. cbn [negb]. rewrite run_bind.
  destruct (mints_nothing_run _ (linear_check_bias ta out bias) w
                              (linear_check_bias_mints_nothing _ _ _))
    as [(u & _ & Hr) | (e & _ & Hr)]; rewrite Hr; [| reflexivity].
  unfold get_trace_make_proxy_name. simpl meta_bind.
  rewrite (run_MakeProxyName_active _ _ w tr Hact). reflexivity.
Qed.

(** X21: over an active trace [linear(a, w, bias)] on an input of shape
    [batch + (k,)] and a weight of shape [(out, k')] succeeds exactly when
    input and weight have one device and one dtype, [k = k'], and the bias
    is None or a tensor of shape [(out,)] with the device and dtype of the
    input.  The result has the shape [batch + (out,)] and the device and
    dtype of the input; anything else is rejected before a name is minted. *)
Theorem linear_succeeds_iff_compatible :
  forall ta tw bias batch k out k' w tr,
    active_trace w = Some tr ->
    tp_shape ta = batch ++ [k] ->
    tp_shape tw = [out; k'] ->
    let compatible :=
      tp_device ta = tp_device tw /\ tp_dtype ta = tp_dtype tw /\
      k = k' /\ bias_ok ta out bias in
    let outcome := run (linear_meta (PTensorProxy ta) (PTensorProxy tw) bias)
                       w in
    (compatible ->
     outcome = (Ok (PTensorProxy
                      (TensorProxy_new (ProxyName (name_ctr tr))
                                       (batch ++ [out]) (tp_device ta)
                                       (tp_dtype ta))),
                minted w tr)) /\
    (~ compatible -> exists e, outcome = (Err e, w)).
Proof.
  intros ta tw bias batch k out k' w tr Hact Ha Hw compatible outcome.
  subst compatible outcome.
  rewrite (linear_meta_run ta tw bias batch k out k' w tr Hact Ha Hw).
  destruct (String.eqb (tp_device ta) (tp_device tw)) eqn:Hdev; cbn [negb].
  2:{ split; [| intros _; eexists; reflexivity].
      intros (H & _). apply String.eqb_neq in Hdev. contradiction. }
  apply String.eqb_eq in Hdev.
  destruct (eltype_eqb (tp_dtype ta) (tp_dtype tw)) eqn:Hdt; cbn [negb].
  2:{ split; [| intros _; eexists; reflexivity].
      intros (_ & H & _). apply eltype_eqb_eq in H. congruence. }
  apply eltype_eqb_eq in Hdt.
  destruct (k' =? k) eqn:Hk; cbn [negb].
  2:{ split; [| intros _; eexists; reflexivity].
      intros (_ & _ & H & _). apply Z.eqb_neq in Hk. congruence. }
  apply Z.eqb_eq in Hk.
  destruct (linear_check_bias_run ta out bias w)
    as [[Hb Hr] | [Hb (e & Hr)]]; rewrite Hr.
  - split; [reflexivity |]. intro Hn. exfalso. apply Hn. auto.
  - split; [| intros _; eexists; reflexivity].
    intros (_ & _ & _ & H). contradiction.
Qed.

Lemma linear_succeeds_iff_compatible_witness :
  let a := sample_tensor 0 [8; 16] float32 in
  let w := sample_tensor 1 [32; 16] float32 in
  run (linear_meta (PTensorProxy a) (PTensorProxy w)
                   (PTensorProxy (sample_tensor 2 [32] float32)))
      fresh_world
  = (Ok (PTensorProxy {| tp_name := ProxyName 10; tp_shape := [8; 32];
                         tp_device := "cpu";
                         tp_dtype := TensorDtype float32 |}),
     minted fresh_world {| symbols := []; name_ctr := 10 |}) /\
  exists e,
    run (linear_meta (PTensorProxy a) (PTensorProxy w)
                     (PTensorProxy (sample_tensor 2 [31] float32)))
        fresh_world
    = (Err e, fresh_world).
Proof.
  intros a w. split.
  - apply (proj1 (linear_succeeds_iff_compatible
                    a w (PTensorProxy (sample_tensor 2 [32] float32))
                    [8] 16 32 16 fresh_world
                    {| symbols := []; name_ctr := 10 |}
                    eq_refl eq_refl eq_refl)).
    repeat split. right. eexists. repeat split.
  - apply (proj2 (linear_succeeds_iff_compatible
                    a w (PTensorProxy (sample_tensor 2 [31] float32))
                    [8] 16 32 16 fresh_world
                    {| symbols := []; name_ctr := 10 |}
                    eq_refl eq_refl eq_refl)).
    intros (_ & _ & _ & [H | (tb & H & _ & Hs & _)]); [discriminate |].
    inversion H; subst. discriminate.
Defined.

(** X22: a bias only adds checks.  Whenever [linear(a, w, bias)] succeeds,
    [linear(a, w, None)] succeeds as well and has the same outcome: the
    same result proxy and the same context. *)
Theorem linear_bias_only_adds_checks :
  forall a w bias world r world',
    run (linear_meta a w bias) world = (Ok r, world') ->
    run (linear_meta a w PNone) world = (Ok r, world').
Proof.
  intros a w bias world r world' H. unfold linear_meta in *.
  destruct a as [| va | na | ta | sa | xa | xa]; try discriminate H.
  destruct w as [| vw | nw | tw | sw | xw | xw]; try discriminate H.
  rewrite run_check in *.
  destruct (String.eqb (tp_device ta) (tp_device tw)); [| discriminate H].
  rewrite run_check in *.
  destruct (eltype_eqb (tp_dtype ta) (tp_dtype tw)); [| discriminate H].
  destruct (getitem (tp_shape ta) (-1)) as [in_length |]; [| discriminate H].
  rewrite run_check in *.
  destruct (Nat.eqb (List.length (tp_shape tw)) 2); [| discriminate H].
  destruct (getitem (tp_shape tw) 1) as [w_inner |]; [| discriminate H].
  destruct (getitem (tp_shape tw) 0) as [out_length |]; [| discriminate H].
  rewrite run_check in *.
  destruct (w_inner =? in_length); [| discriminate H].
  rewrite run_bind in *.
  destruct (mints_nothing_run _ (linear_check_bias ta out_length bias) world
                              (linear_check_bias_mints_nothing _ _ _))
    as [(u & _ & Hr) | (e & _ & Hr)]; rewrite Hr in H; [| discriminate H].
  simpl linear_check_bias. exact H.
Qed.

Lemma linear_bias_only_adds_checks_witness :
  let a := PTensorProxy (sample_tensor 0 [8; 16] float32) in
  let w := PTensorProxy (sample_tensor 1 [32; 16] float32) in
  run (linear_meta a w PNone) fresh_world
  = (Ok (PTensorProxy {| tp_name := ProxyName 10; tp_shape := [8; 32];
                         tp_device := "cpu";
                         tp_dtype := TensorDtype float32 |}),
     minted fresh_world {| symbols := []; name_ctr := 10 |}).
Proof.
  intros a w.
  apply (linear_bias_only_adds_checks
           a w (PTensorProxy (sample_tensor 2 [32] float32))).
  vm_compute. reflexivity.
Defined.

(* ===================================================================== *)
(** ** Reductions, creation and conversion *)
(* ===================================================================== *)

Lemma reduction_kept_without_dims :
  forall dims shape idx,
    reduction_kept dims idx shape = without_dims dims idx shape.
Proof.
  intros dims shape. induction shape as [| l rest IH]; intro idx;
    [reflexivity |].
  cbn [reduction_kept without_dims]. rewrite IH. reflexivity.
Qed.

Lemma validate_idx_in_range :
  forall n dims,
    forallb (validate_idx n) dims = true <->
    Forall (fun x => 0 <= x < Z.of_nat n) dims.
Proof.
  intros n dims. rewrite forallb_forall, Forall_forall. unfold validate_idx.
  split; intros H x Hx; specialize (H x Hx); lia.
Qed.

Lemma reduction_meta_run :
  forall ta dims output_dtype w tr,
    active_trace w = Some tr ->
    run (reduction_meta (PTensorProxy ta) dims output_dtype) w =
    if forallb (validate_idx (List.length (tp_shape ta))) dims
    then (Ok (PTensorProxy
                (TensorProxy_new
                   (ProxyName (name_ctr tr))
                   (without_dims dims 0 (tp_shape ta)) (tp_device ta)
                   match output_dtype with
                   | None => tp_dtype ta
                   | Some d => d
                   end)),
          minted w tr)
    else (Err shape_error, w).
Proof.
  intros ta dims output_dtype w tr Hact.
  unfold reduction_meta, _compute_reduction_output_shape.
  rewrite run_bind, run_check.
  destruct (forallb (validate_idx (List.length (tp_shape ta))) dims);
    [| reflexivity].
  cbv [run ret]. fold (@run pyobj).
  rewrite reduction_kept_without_dims.
  unfold get_trace_make_proxy_name. simpl meta_bind.
  rewrite (run_MakeProxyName_active _ _ w tr Hact). reflexivity.
Qed.

Lemma mem_nodup :
  forall x dims, mem x (nodup Z.eq_dec dims) = mem x dims.
Proof.
  intros x dims.
  destruct (mem x dims) eqn:E.
  - apply mem_In. apply nodup_In. apply mem_In. exact E.
  - destruct (mem x (nodup Z.eq_dec dims)) eqn:E'; [| reflexivity].
    apply mem_In in E'. apply nodup_In in E'. apply mem_In in E'.
    congruence.
Qed.

(** X23: over an active trace a reduction ([amax], [sum]) succeeds exactly
    when every entry of [dims] is a dimension index of the operand;
    repeated entries are accepted.  The result keeps the lengths of the
    dimensions that are not reduced, in order, so its rank is the rank of
    the operand less the number of distinct entries of [dims]; it has the
    device of the operand and, unless an output dtype is given, its dtype.
    An invalid index is rejected before a name is minted. *)
Theorem reduction_drops_the_reduced_dims :
  forall ta dims output_dtype w tr,
    active_trace w = Some tr ->
    let outcome := run (reduction_meta (PTensorProxy ta) dims output_dtype)
                       w in
    (Forall (fun x => 0 <= x < Z.of_nat (List.length (tp_shape ta))) dims ->
     exists t,
       outcome = (Ok (PTensorProxy t), minted w tr) /\
       tp_shape t = without_dims dims 0 (tp_shape ta) /\
       (List.length (tp_shape t)
        + List.length (nodup Z.eq_dec dims))%nat
       = List.length (tp_shape ta) /\
       tp_device t = tp_device ta /\
       tp_dtype t = match output_dtype with
                    | None => tp_dtype ta
                    | Some d => d
                    end) /\
    (~ Forall (fun x => 0 <= x < Z.of_nat (List.length (tp_shape ta))) dims ->
     outcome = (Err shape_error, w)).
Proof.
  intros ta dims output_dtype w tr Hact outcome. subst outcome.
  rewrite (reduction_meta_run ta dims output_dtype w tr Hact).
  destruct (forallb (validate_idx (List.length (tp_shape ta))) dims) eqn:Hv.
  - apply validate_idx_in_range in Hv. split; [| intro; contradiction].
    intros _. eexists. split; [reflexivity |]. simpl.
    split; [reflexivity |]. split; [| split; reflexivity].
    rewrite <- (named_positions_length
                  (nodup Z.eq_dec dims) (List.length (tp_shape ta))).
    + rewrite (filter_ext (fun x => mem x (nodup Z.eq_dec dims))
                          (fun x => mem x dims)
                          (fun x => mem_nodup x dims)).
      apply without_dims_length.
    + apply NoDup_nodup.
    + apply Forall_forall. intros x Hx. apply nodup_In in Hx.
      rewrite Forall_forall in Hv. apply Hv. exact Hx.
  - split; [| reflexivity].
    intro H. apply validate_idx_in_range in H. congruence.
Qed.

Lemma reduction_drops_the_reduced_dims_witness :
  exists t,
    run (reduction_meta (PTensorProxy (sample_tensor 0 [2; 3; 5] float32))
                        [2; 0; 2] None) fresh_world
    = (Ok (PTensorProxy t),
       minted fresh_world {| symbols := []; name_ctr := 10 |}) /\
    tp_shape t = [3] /\
    (List.length (tp_shape t) + 2)%nat = 3%nat /\
    tp_device t = "cpu" /\
    tp_dtype t = TensorDtype float32.
Proof.
  apply (proj1 (reduction_drops_the_reduced_dims
                  (sample_tensor 0 [2; 3; 5] float32) [2; 0; 2] None
                  fresh_world {| symbols := []; name_ctr := 10 |} eq_refl)).
  repeat constructor; simpl; lia.
Defined.

(** X24: reducing over dimensions of length one is squeezing them: whenever
    [squeeze(a, dims)] succeeds, the reduction of [a] over [dims] with no
    output dtype has the very same outcome, proxy and context. *)
Theorem reduction_over_unit_dims_is_squeeze :
  forall ta dims w r w',
    run (squeeze_meta (PTensorProxy ta) dims) w = (Ok r, w') ->
    run (reduction_meta (PTensorProxy ta) dims None) w = (Ok r, w').
Proof.
  intros ta dims w r w' Hrun.
  destruct (active_trace w) as [tr |] eqn:Hact.
  - destruct (squeeze_meta_run ta dims w tr Hact)
      as [[(_ & Hrange & _) Hok] | [_ Hno]];
      [| rewrite Hno in Hrun; discriminate].
    rewrite Hok in Hrun. inversion Hrun; subst.
    rewrite (reduction_meta_run ta dims None w tr Hact).
    rewrite (proj2 (validate_idx_in_range _ _) Hrange). reflexivity.
  - destruct (names_its_result_never_returns_inactive
                _ w (validates_then_mints_names_its_result
                       _ (validating_meta_validates_then_mints
                            _ (vm_squeeze (PTensorProxy ta) dims))) Hact)
      as (e & He).
    rewrite He in Hrun. discriminate.
Qed.

Lemma reduction_over_unit_dims_is_squeeze_witness :
  run (reduction_meta (PTensorProxy (sample_tensor 0 [1; 3; 1] float32))
                      [0; 2] None) fresh_world
  = (Ok (PTensorProxy {| tp_name := ProxyName 10; tp_shape := [3];
                         tp_device := "cpu";
                         tp_dtype := TensorDtype float32 |}),
     minted fresh_world {| symbols := []; name_ctr := 10 |}).
Proof.
  apply reduction_over_unit_dims_is_squeeze. vm_compute. reflexivity.
Defined.

(** X25: [var] infers the shape of [sum] and a dtype that is never complex:
    the dtype of the operand, or its corresponding real dtype when that is
    complex.  The correction takes no part in the inference. *)
Theorem var_has_the_shape_of_sum_and_a_real_dtype :
  forall ta dims correction w rv wv,
    run (var_meta (PTensorProxy ta) dims correction) w = (Ok rv, wv) ->
    exists tv ts,
      rv = PTensorProxy tv /\
      run (reduction_meta (PTensorProxy ta) dims None) w
      = (Ok (PTensorProxy ts), wv) /\
      tp_shape tv = tp_shape ts /\
      tp_device tv = tp_device ts /\
      is_complex_dtype (tp_dtype tv) = false /\
      (is_complex_dtype (tp_dtype ta) = false -> tp_dtype tv = tp_dtype ta).
Proof.
  intros ta dims correction w rv wv Hrun. unfold var_meta in Hrun.
  destruct (active_trace w) as [tr |] eqn:Hact.
  - rewrite (reduction_meta_run ta dims _ w tr Hact) in Hrun.
    rewrite (reduction_meta_run ta dims None w tr Hact).
    destruct (forallb (validate_idx (List.length (tp_shape ta))) dims);
      [| discriminate].
    inversion Hrun; subst. eexists. eexists.
    split; [reflexivity |]. split; [reflexivity |]. simpl.
    split; [reflexivity |]. split; [reflexivity |].
    destruct (is_complex_dtype (tp_dtype ta)) eqn:Hc.
    + split; [| discriminate].
      destruct (tp_dtype ta) as [[] | []]; try discriminate; reflexivity.
    + split; [exact Hc | reflexivity].
  - destruct (names_its_result_never_returns_inactive
                _ w (validates_then_mints_names_its_result
                       _ (validating_meta_validates_then_mints
                            _ (vm_reduction
                                 (PTensorProxy ta) dims
                                 (Some (if is_complex_dtype (tp_dtype ta)
                                        then corresponding_real_dtype
                                               (tp_dtype ta)
                                        else tp_dtype ta))))) Hact)
      as (e & He).
    rewrite He in Hrun. discriminate.
Qed.

Lemma var_has_the_shape_of_sum_and_a_real_dtype_witness :
  let ta := sample_tensor 0 [2; 3] complex64 in
  exists tv ts,
    PTensorProxy {| tp_name := ProxyName 10; tp_shape := [2];
                    tp_device := "cpu"; tp_dtype := TensorDtype float32 |}
    = PTensorProxy tv /\
    run (reduction_meta (PTensorProxy ta) [1] None) fresh_world
    = (Ok (PTensorProxy ts),
       minted fresh_world {| symbols := []; name_ctr := 10 |}) /\
    tp_shape tv = tp_shape ts /\
    tp_device tv = tp_device ts /\
    is_complex_dtype (tp_dtype tv) = false /\
    (is_complex_dtype (tp_dtype ta) = false -> tp_dtype tv = tp_dtype ta).
Proof.
  intro ta.
  apply (var_has_the_shape_of_sum_and_a_real_dtype
           ta [1] (PNumber (VInt 1)) fresh_world).
  vm_compute. reflexivity.
Defined.

(** X26: over an active trace [iota] succeeds exactly when the dtype is
    exact and not boolean and the length is not negative.  A positive
    length gives a tensor of shape [(length,)]; the length 0 gives a tensor
    of rank 0, which has one element, not none.  Anything else is rejected
    before a name is minted. *)
Theorem iota_shape_and_the_empty_case :
  forall length start step device dtype w tr,
    active_trace w = Some tr ->
    let accepted :=
      is_exact_dtype dtype = true /\ is_boolean_dtype dtype = false /\
      0 <= length in
    let outcome := run (_iota_meta length start step device dtype) w in
    (accepted ->
     exists t,
       outcome = (Ok (PTensorProxy t), minted w tr) /\
       tp_device t = device /\
       tp_dtype t = dtype /\
       (0 < length -> tp_shape t = [length] /\ numel t = length) /\
       (length = 0 -> tp_shape t = [] /\ numel t = 1)) /\
    (~ accepted -> exists e, outcome = (Err e, w)).
Proof.
  intros length start step device dtype w tr Hact accepted outcome.
  subst accepted outcome. unfold _iota_meta.
  rewrite run_check. destruct (is_exact_dtype dtype).
  2:{ split; [intros (H & _); discriminate |].
      intros _. eexists. reflexivity. }
  rewrite run_check. destruct (is_boolean_dtype dtype); cbn [negb].
  { split; [intros (_ & H & _); discriminate |].
    intros _. eexists. reflexivity. }
  rewrite run_check. destruct (length >=? 0) eqn:Hlen.
  2:{ split; [intros (_ & _ & H); lia |].
      intros _. eexists. reflexivity. }
  split; [| intro Hn; exfalso; apply Hn; repeat split; lia || reflexivity].
  intros _. unfold get_trace_make_proxy_name. simpl meta_bind.
  rewrite (run_MakeProxyName_active _ _ w tr Hact).
  eexists. split; [reflexivity |]. unfold numel.
  cbn [TensorProxy_new tp_device tp_dtype tp_shape].
  split; [reflexivity |]. split; [reflexivity |]. split.
  - intro Hpos. destruct (length =? 0) eqn:E; [lia |].
    split; [reflexivity |]. rewrite product_cons.
    change (product []) with 1. lia.
  - intros ->. split; reflexivity.
Qed.

Lemma iota_shape_and_the_empty_case_witness :
  exists t,
    run (_iota_meta 0 (PNumber (VInt 0)) (PNumber (VInt 1)) "cpu"
                    (TensorDtype int64)) fresh_world
    = (Ok (PTensorProxy t),
       minted fresh_world {| symbols := []; name_ctr := 10 |}) /\
    tp_device t = "cpu" /\
    tp_dtype t = TensorDtype int64 /\
    (0 < 0 -> tp_shape t = [0] /\ numel t = 0) /\
    (0 = 0 -> tp_shape t = [] /\ numel t = 1).
Proof.
  apply (proj1 (iota_shape_and_the_empty_case
                  0 (PNumber (VInt 0)) (PNumber (VInt 1)) "cpu"
                  (TensorDtype int64) fresh_world
                  {| symbols := []; name_ctr := 10 |} eq_refl)).
  repeat split. lia.
Defined.

Lemma convert_tensor_run :
  forall num ta dtype w tr,
    active_trace w = Some tr ->
    run (_convert_element_type_meta num (PTensorProxy ta) dtype) w
    = (Ok (PTensorProxy
             (TensorProxy_like (ProxyName (name_ctr tr)) ta None
                               (Some dtype))),
       minted w tr).
Proof.
  intros num ta dtype w tr Hact.
  unfold _convert_element_type_meta. simpl get_numberlike_value. cbv iota.
  unfold get_trace_make_proxy_name. simpl meta_bind.
  rewrite (run_MakeProxyName_active _ _ w tr Hact). reflexivity.
Qed.

(** X27: over an active trace [convert_element_type] accepts every tensor
    and every target dtype: the result has the target dtype and the shape
    and device of the tensor, and converting it back to the dtype of the
    tensor restores dtype, shape and device.  A number is only converted to
    a Python number type: a tensor dtype as the target is a type error,
    raised before a name is minted. *)
Theorem convert_element_type_round_trips :
  forall num ta dtype w tr,
    active_trace w = Some tr ->
    (exists t1 w1,
        run (_convert_element_type_meta num (PTensorProxy ta) dtype) w
        = (Ok (PTensorProxy t1), w1) /\
        tp_dtype t1 = dtype /\
        tp_shape t1 = tp_shape ta /\
        tp_device t1 = tp_device ta /\
        exists t2 w2,
          run (_convert_element_type_meta num (PTensorProxy t1)
                                          (tp_dtype ta)) w1
          = (Ok (PTensorProxy t2), w2) /\
          tp_dtype t2 = tp_dtype ta /\
          tp_shape t2 = tp_shape ta /\
          tp_device t2 = tp_device ta) /\
    (forall v d,
        run (_convert_element_type_meta num (PNumber v) (TensorDtype d)) w
        = (Err type_error, w)).
Proof.
  intros num ta dtype w tr Hact. split.
  - eexists. eexists.
    split; [apply (convert_tensor_run num ta dtype w tr Hact) |].
    cbn [TensorProxy_like tp_dtype tp_shape tp_device].
    split; [reflexivity |]. split; [reflexivity |]. split; [reflexivity |].
    eexists. eexists.
    split; [apply (convert_tensor_run num _ _ (minted w tr) _ eq_refl) |].
    cbn [TensorProxy_like tp_dtype tp_shape tp_device].
    repeat split.
  - intros v d. reflexivity.
Qed.

Lemma convert_element_type_round_trips_witness :
  exists t1 w1,
    run (_convert_element_type_meta
           int_numerics (PTensorProxy (sample_tensor 0 [2; 3] float32))
           (TensorDtype int64)) fresh_world
    = (Ok (PTensorProxy t1), w1) /\
    tp_dtype t1 = TensorDtype int64 /\
    tp_shape t1 = [2; 3] /\
    tp_device t1 = "cpu" /\
    exists t2 w2,
      run (_convert_element_type_meta int_numerics (PTensorProxy t1)
                                      (TensorDtype float32)) w1
      = (Ok (PTensorProxy t2), w2) /\
      tp_dtype t2 = TensorDtype float32 /\
      tp_shape t2 = [2; 3] /\
      tp_device t2 = "cpu".
Proof.
  exact (proj1 (convert_element_type_round_trips
                  int_numerics (sample_tensor 0 [2; 3] float32)
                  (TensorDtype int64) fresh_world
                  {| symbols := []; name_ctr := 10 |} eq_refl)).
Defined.
